(** * discord-bot-twitch-notifications: the Twitch API client and the stream
      lifecycle engine

    A shallow embedding of [src/twitch.js] and [src/models/Stream.js].

    JavaScript objects are finite maps from property names to values,
    promises are the outcome they settle with, and the module-level state
    (the cached OAuth token, the network, the store, the notifier) is an
    explicit world that every operation threads through. *)

From Stdlib Require Import ZArith Ascii String List Lia Bool.
From stdpp Require Import base option gmap strings list fin_maps pretty.

#[local] Set Warnings "-register-all".
Local Open Scope string_scope.
Local Open Scope Z_scope.

(** ** JavaScript values *)

Module JS.

(** The values the two source files handle: what [JSON.parse] produces,
    plus [undefined] and [Date] objects (as milliseconds since the epoch).
    Numbers are the integers the code meets (status codes, lengths). *)
Inductive value : Type :=
| VUndefined
| VNull
| VBool (b : bool)
| VNum (n : Z)
| VStr (s : string)
| VDate (ms : Z)
| VArr (l : list value)
| VObj (o : gmap string value).

Abbreviation obj := (gmap string value).

(** ToBoolean: [if (v)], [v && ...], [!v]. *)
Definition truthy (v : value) : bool :=
  match v with
  | VUndefined | VNull => false
  | VBool b => b
  | VNum n => negb (n =? 0)%Z
  | VStr s => negb (String.eqb s EmptyString)
  | VDate _ | VArr _ | VObj _ => true
  end.

(** [v == null]: true of [null] and [undefined] only. *)
Definition nullish (v : value) : bool :=
  match v with
  | VUndefined | VNull => true
  | _ => false
  end.

(** [o.k] on an object: an absent property reads as [undefined]. *)
Definition prop (o : obj) (k : string) : value :=
  default VUndefined (o !! k).

(** [v.k] on any value: [None] is the TypeError raised when [v] is
    [null] or [undefined]; primitives, dates and arrays have none of the
    properties the code reads this way. *)
Definition get (v : value) (k : string) : option value :=
  match v with
  | VUndefined | VNull => None
  | VObj o => Some (prop o k)
  | _ => Some VUndefined
  end.

(** [a === b].  Primitives compare by value.  Arrays, objects and dates
    compare by reference: two values decoded from two JSON documents, or
    built by two evaluations, are never the same reference. *)
Definition strict_eq (a b : value) : bool :=
  match a, b with
  | VUndefined, VUndefined => true
  | VNull, VNull => true
  | VBool x, VBool y => Bool.eqb x y
  | VNum x, VNum y => (x =? y)%Z
  | VStr x, VStr y => String.eqb x y
  | _, _ => false
  end.

(** [{...a, ...b}]: the properties of [b] win. *)
Definition spread (a b : obj) : obj := b ∪ a.

(** *** Strings *)

(** The two case mappings the code compares titles and keywords with.
    [String.prototype.toLowerCase] follows the Unicode tables of the
    engine (every letter, the final sigma by its context);
    [String.prototype.toLocaleLowerCase] follows the locale of the host
    as well.  Neither is fixed here: what is proved of the code holds
    for every engine and every host locale. *)
Class Engine := {
  toLowerCase : string → string;
  toLocaleLowerCase : string → string;
}.

Fixpoint startsWith (needle hay : string) : bool :=
  match needle, hay with
  | EmptyString, _ => true
  | String _ _, EmptyString => false
  | String a n', String b h' => (Ascii.eqb a b && startsWith n' h')%bool
  end.

(** [hay.includes(needle)] on strings. *)
Fixpoint includes (hay needle : string) : bool :=
  (startsWith needle hay ||
   match hay with
   | EmptyString => false
   | String _ h' => includes h' needle
   end)%bool.

(** [list.includes(v)] on an array of strings (a list of the
    configuration, or a [tag_ids] array): SameValueZero, so only a
    string equal to an element is found. *)
Definition str_in (s : string) (l : list string) : bool :=
  existsb (String.eqb s) l.

Definition arr_includes (l : list value) (v : value) : bool :=
  existsb (strict_eq v) l.

(** [String.prototype.toUpperCase] on the ASCII letters, for the method
    names of the client. *)
Definition upper_ascii (c : ascii) : ascii :=
  let n := nat_of_ascii c in
  if (Nat.leb 97 n && Nat.leb n 122)%bool then ascii_of_nat (n - 32)%nat else c.

Fixpoint toUpperCase (s : string) : string :=
  match s with
  | EmptyString => EmptyString
  | String c s' => String (upper_ascii c) (toUpperCase s')
  end.

(** The engine of the examples: ASCII text on a host whose locale has no
    case rules of its own, where both mappings turn [A]-[Z] into
    [a]-[z]. *)
Definition lower_ascii (c : ascii) : ascii :=
  let n := nat_of_ascii c in
  if (Nat.leb 65 n && Nat.leb n 90)%bool then ascii_of_nat (n + 32)%nat else c.

Fixpoint lower (s : string) : string :=
  match s with
  | EmptyString => EmptyString
  | String c s' => String (lower_ascii c) (lower s')
  end.

Definition ascii_engine : Engine :=
  {| toLowerCase := lower; toLocaleLowerCase := lower |}.

(** The same text on a host with a Turkish locale: [toLocaleLowerCase]
    turns [I] into the dotless U+0131 (its two UTF-8 bytes here), and
    [toLowerCase] does not look at the locale. *)
Definition dotless_i : string :=
  String (ascii_of_nat 196) (String (ascii_of_nat 177) EmptyString).

Fixpoint lower_tr (s : string) : string :=
  match s with
  | EmptyString => EmptyString
  | String c s' =>
    if Ascii.eqb c "I" then dotless_i ++ lower_tr s'
    else String (lower_ascii c) (lower_tr s')
  end.

Definition turkish_engine : Engine :=
  {| toLowerCase := lower; toLocaleLowerCase := lower_tr |}.

(** ToString, as in ['Bearer ' + token] and in template literals.  The
    code only ever prints identifiers and tokens this way; dates, arrays
    and objects get the fixed text an object prints as. *)
Definition to_str (v : value) : string :=
  match v with
  | VUndefined => "undefined"
  | VNull => "null"
  | VBool true => "true"
  | VBool false => "false"
  | VNum n => pretty n
  | VStr s => s
  | VDate _ | VArr _ | VObj _ => "[object Object]"
  end.

(** [v.length] where it is a number: the length of an array or of a
    string, the numeric [length] property of an object.  [None] is a
    [length] that is [undefined], for which every comparison is false. *)
Definition js_length (v : value) : option Z :=
  match v with
  | VArr l => Some (Z.of_nat (List.length l))
  | VStr s => Some (Z.of_nat (String.length s))
  | VObj o => match prop o "length" with VNum n => Some n | _ => None end
  | _ => None
  end.

(** [acc.concat(v)]: an array argument is spread, anything else is
    appended as one element. *)
Definition array_concat (acc : list value) (v : value) : list value :=
  match v with
  | VArr l => acc ++ l
  | _ => acc ++ [v]
  end.

End JS.

Import JS.


(** ** Configuration

    [src/config.json] is not part of the sources read here; the fields the
    two modules use are taken as a record. *)

Record blacklist_cfg := {
  bl_keywords : list string;
  bl_tagIds : list string;
  bl_userIds : list string;
}.

Record config := {
  clientId : string;
  clientSecret : string;
  domain : string;
  blacklist : blacklist_cfg;
  whitelist_userIds : list string;
  reconnect_minutes : Z;
  shoutout_hours : Z;
}.

(** ** The API client: [src/twitch.js] *)

Module Twitch.

Definition URL_BASE : string := "https://api.twitch.tv/helix".

(** The argument object of [apiRequest], without [retries]. *)
Record request := {
  endpoint : string;
  payload : obj;
  method : string;
  urlBase : string;
  responseType : string;
  headers : obj;
  noauth : bool;
}.

(** A call of [fetch]: what goes on the wire. *)
Record sent_request := {
  s_url : string;
  s_method : string;
  s_query : option obj;
  s_body : option obj;
  s_headers : obj;
}.

(** What the network answers: the request fails, or a response with a
    status and a body ([None] when the body does not decode). *)
Inductive reply :=
| NetError
| Reply (status : Z) (body : option value).

(** How a promise settles.  [Pending] is a promise that never settles:
    the reply never comes, or the process has exited. *)
Inductive settled :=
| Fulfilled (v : value)
| Rejected
| Pending.

(** The [games] argument of the listings: [Array<string> | string]. *)
Inductive games :=
| GameList (ids : list string)
| GameOne (id : string).

(** A promise chain whose result nobody waits for.

    [Reauth] is the chain started at line 64,
    [ensureToken().then(() => apiRequest(...))]: its token request is
    made by the handler, so it is on the wire when the chain is
    detached; the chain waits for the reply to it and then re-issues
    [req].  [Call] is an [apiRequest] whose promise the caller drops.
    [Listing] is a [getStreams] walk that [Promise.all] has stopped
    waiting for: its page request [req] is on the wire, and it goes on
    asking for pages.

    The model follows one chain at a time.  A call that is waited for is
    followed to its reply in one go; a detached chain waits in the world
    and is followed when the event loop gets to it, after the chain that
    started it has settled. *)
Inductive task :=
| Reauth (req : request) (retries : Z)
| Call (req : request) (retries : Z)
| Listing (req : request) (g : games).

(** The module state and its environment: the variable [token], the
    replies of the network in the order in which they arrive (a reply
    goes to the chain that is being followed), the requests made so far,
    whether [process.exit] was called, and the detached chains that
    have not been followed to their end. *)
Record world := {
  token : value;
  net : list reply;
  sent : list sent_request;
  exited : bool;
  detached : list task;
}.

Definition set_token (t : value) (w : world) : world :=
  {| token := t; net := net w; sent := sent w; exited := exited w;
     detached := detached w |}.

Definition set_net (n : list reply) (w : world) : world :=
  {| token := token w; net := n; sent := sent w; exited := exited w;
     detached := detached w |}.

Definition log_sent (s : sent_request) (w : world) : world :=
  {| token := token w; net := net w; sent := sent w ++ [s];
     exited := exited w; detached := detached w |}.

Definition exit (w : world) : world :=
  {| token := token w; net := net w; sent := sent w; exited := true;
     detached := detached w |}.

Definition detach (t : task) (w : world) : world :=
  {| token := token w; net := net w; sent := sent w; exited := exited w;
     detached := detached w ++ [t] |}.

Definition set_detached (l : list task) (w : world) : world :=
  {| token := token w; net := net w; sent := sent w; exited := exited w;
     detached := l |}.

Section Client.

Context {engine : Engine}.
Variable cfg : config.

(** Lines 24-26: [headers] is the caller's object, mutated in place, so
    the header set here is also the one handed to the retry. *)
Definition with_auth (req : request) (w : world) : request :=
  if noauth req then req
  else {| endpoint := endpoint req; payload := payload req;
          method := method req; urlBase := urlBase req;
          responseType := responseType req;
          headers := <["Authorization" := VStr ("Bearer " ++ to_str (token w))]>
                       (headers req);
          noauth := noauth req |}.

(** Lines 28-35: the call of [fetch]. *)
Definition wire (req : request) : sent_request :=
  let m := toUpperCase (method req) in
  {| s_url := urlBase req ++ endpoint req;
     s_method := method req;
     s_query := if String.eqb m "GET" then Some (payload req) else None;
     s_body := if String.eqb m "POST" then Some (payload req) else None;
     s_headers := spread (<["Client-ID" := VStr (clientId cfg)]>
                            (<["Content-Type" := VStr "application/json"]> ∅))
                         (headers req) |}.

(** Lines 88-97: the client-credentials request of [ensureToken]. *)
Definition token_request : request :=
  {| endpoint := "/oauth2/token";
     payload := <["client_id" := VStr (clientId cfg)]>
                  (<["client_secret" := VStr (clientSecret cfg)]>
                     (<["grant_type" := VStr "client_credentials"]> ∅));
     method := "post";
     urlBase := "https://id.twitch.tv";
     responseType := "json";
     headers := ∅;
     noauth := true |}.

(** Lines 66-74: the request the handler re-issues has no [noauth]
    (which then defaults to [false]). *)
Definition retry_of (req : request) : request :=
  {| endpoint := endpoint req; payload := payload req; method := method req;
     urlBase := urlBase req; responseType := responseType req;
     headers := headers req; noauth := false |}.

(** Lines 60-76, the rejection handler.  It clears the token and calls
    [ensureToken()]: with the token just cleared, line 85 does not
    return, so the client-credentials request goes on the wire inside
    the handler.  The chain that waits for its reply and then re-issues
    the request is not returned: the handler returns [undefined], and
    the promise of [apiRequest] fulfils with it. *)
Definition on_rejected (req : request) (retries : Z) (w : world)
  : settled * world :=
  let w := set_token VNull w in
  let w := log_sent (wire token_request) w in
  (Fulfilled VUndefined, detach (Reauth (retry_of req) (retries - 1)) w).

(** Lines 36-76: what the two [then] do with the reply to a request
    that is on the wire. *)
Definition receive (req : request) (retries : Z) (w : world)
  : settled * world :=
  match net w with
  | [] => (Pending, w)
  | r :: rest =>
    let w := set_net rest w in
    match r with
    | NetError => on_rejected req retries w
    | Reply status body =>
      if status =? 401 then
        let w := set_token VNull w in
        if retries =? 0 then (Pending, exit w)
        else on_rejected req retries w
      else if negb (status =? 200) then (Fulfilled (VNum status), w)
      else match body with
           | Some v => (Fulfilled v, w)
           | None => on_rejected req retries w
           end
    end
  end.

(** Lines 13-77: the request goes on the wire, then its reply is dealt
    with. *)
Definition apiRequest (req : request) (retries : Z) (w : world)
  : settled * world :=
  let req := with_auth req w in
  receive req retries (log_sent (wire req) w).

(** Lines 98-102, the continuation of [ensureToken].  Its parameter
    [{ access_token }] is a destructuring: it throws on [undefined] and
    reads [undefined] from a bare status code. *)
Definition token_received (r : settled) (w : world) : settled * world :=
  match r with
  | Fulfilled v =>
    match get v "access_token" with
    | Some t => (Fulfilled t, set_token t w)
    | None => (Rejected, w)
    end
  | Rejected => (Rejected, w)
  | Pending => (Pending, w)
  end.

(** Lines 82-104. *)
Definition ensureToken (w : world) : settled * world :=
  if truthy (token w) then (Fulfilled (token w), w)
  else
    let '(r, w) := apiRequest token_request 1 w in
    token_received r w.

(** A request with the defaults of [apiRequest]'s parameter list. *)
Definition api_get (ep : string) (pl : obj) : request :=
  {| endpoint := ep; payload := pl; method := "GET"; urlBase := URL_BASE;
     responseType := "json"; headers := ∅; noauth := false |}.

(** Line 144: [Array.isArray(games) ? games.join(',') : games]. *)
Definition gameIds_of (g : games) : string :=
  match g with
  | GameList ids => String.concat "," ids
  | GameOne id => id
  end.

(** Lines 142-145: the request of [getStreams] for the page after
    [cursor]. *)
Definition streams_request (g : games) (cursor : value) : request :=
  api_get "/streams"
          (<["first" := VNum 100]>
             (<["game_id" := VStr (gameIds_of g)]> (<["after" := cursor]> ∅))).

(** Lines 146-155, the continuation of [getStreams] on what
    [apiRequest] fulfilled with: the walk asks for another page, or it
    settles. *)
Inductive paging :=
| NextPage (cursor : value) (streams : list value)
| LastPage (r : settled).

Definition streams_page (streams : list value) (v : value) : paging :=
  match get v "data", get v "pagination" with
  | Some data, Some pagination =>
    if negb (truthy data) then LastPage (Fulfilled (VArr streams))
    else
      let newStreams := array_concat streams data in
      match get pagination "cursor" with
      | Some c =>
        if (truthy c &&
            match js_length data with
            | Some n => 100 <=? n
            | None => false
            end)%bool
        then NextPage c newStreams
        else LastPage (Fulfilled (VArr newStreams))
      | None => LastPage Rejected
      end
  | _, _ => LastPage Rejected
  end.

(** One turn of the event loop on the oldest detached chain.  A
    re-authentication gets the reply to its token request and, when
    [ensureToken] fulfils, re-issues its request; a dropped call is
    made; a listing gets the reply to its page request and asks for the
    next page, if there is one.  Nothing runs once the process has
    exited. *)
Definition run_task (t : task) (w : world) : world :=
  match t with
  | Call req retries => snd (apiRequest req retries w)
  | Reauth req retries =>
    let '(r, w) := receive token_request 1 w in
    let '(r, w) := token_received r w in
    match r with
    | Fulfilled _ => snd (apiRequest req retries w)
    | _ => w
    end
  | Listing req g =>
    let '(r, w) := receive req 1 w in
    match r with
    | Fulfilled v =>
      match streams_page [] v with
      | NextPage c _ =>
        let req := with_auth (streams_request g c) w in
        detach (Listing req g) (log_sent (wire req) w)
      | LastPage _ => w
      end
    | _ => w
    end
  end.

Definition step (w : world) : world :=
  if exited w then w
  else match detached w with
       | [] => w
       | t :: rest => run_task t (set_detached rest w)
       end.

Fixpoint run (n : nat) (w : world) : world :=
  match n with
  | O => w
  | S n' => run n' (step w)
  end.

(** Line 119: [tag => ({ id: tag.tag_id, name: tag.localization_names['en-us'] })];
    [None] is the TypeError on a tag without [localization_names]. *)
Definition tag_entry (tag : value) : option value :=
  id ← get tag "tag_id";
  names ← get tag "localization_names";
  name ← get names "en-us";
  Some (VObj (<["id" := id]> (<["name" := name]> ∅))).

(** Lines 111-128.  [None] is a recursion cut short by [fuel]. *)
Fixpoint getAllTags (fuel : nat) (cursor : value) (tags : list value)
    (w : world) : option (settled * world) :=
  match fuel with
  | O => None
  | S fuel' =>
    let pl := <["first" := VNum 100]> (<["after" := cursor]> ∅) in
    let '(r, w) := apiRequest (api_get "/tags/streams" pl) 1 w in
    match r with
    | Fulfilled v =>
      match get v "data", get v "pagination" with
      | Some data, Some pagination =>
        if negb (truthy data) then Some (Fulfilled (VArr tags), w)
        else
          match data with
          | VArr page =>
            match mapM tag_entry page with
            | Some entries =>
              let newTags := (tags ++ entries)%list in
              match get pagination "cursor" with
              | Some c =>
                if truthy c then getAllTags fuel' c newTags w
                else Some (Fulfilled (VArr newTags), w)
              | None => Some (Rejected, w)
              end
            | None => Some (Rejected, w)
            end
          | _ => Some (Rejected, w)
          end
      | _, _ => Some (Rejected, w)
      end
    | Rejected => Some (Rejected, w)
    | Pending => Some (Pending, w)
    end
  end.

(** Line 133. *)
Definition getGameId (name : value) (w : world) : settled * world :=
  apiRequest (api_get "/games" (<["name" := name]> ∅)) 1 w.

(** Lines 141-156. *)
Fixpoint getStreams (fuel : nat) (g : games) (cursor : value)
    (streams : list value) (w : world) : option (settled * world) :=
  match fuel with
  | O => None
  | S fuel' =>
    let pl := <["first" := VNum 100]>
                (<["game_id" := VStr (gameIds_of g)]>
                   (<["after" := cursor]> ∅)) in
    let '(r, w) := apiRequest (api_get "/streams" pl) 1 w in
    match r with
    | Fulfilled v =>
      match get v "data", get v "pagination" with
      | Some data, Some pagination =>
        if negb (truthy data) then Some (Fulfilled (VArr streams), w)
        else
          let newStreams := array_concat streams data in
          match get pagination "cursor" with
          | Some c =>
            if (truthy c &&
                match js_length data with
                | Some n => 100 <=? n
                | None => false
                end)%bool
            then getStreams fuel' g c newStreams w
            else Some (Fulfilled (VArr newStreams), w)
          | None => Some (Rejected, w)
          end
      | _, _ => Some (Rejected, w)
      end
    | Rejected => Some (Rejected, w)
    | Pending => Some (Pending, w)
    end
  end.

(** [streams.filter(f)] where the callback [f] may throw. *)
Fixpoint filterM (f : value → option bool) (l : list value)
  : option (list value) :=
  match l with
  | [] => Some []
  | x :: l' =>
    b ← f x;
    r ← filterM f l';
    Some (if b : bool then x :: r else r)
  end.

(** Line 166: [stream.tag_ids && stream.tag_ids.some(id => tagIds.includes(id))]. *)
Definition tag_match (tagIds : list string) (stream : value) : option bool :=
  tids ← get stream "tag_ids";
  if truthy tids then
    match tids with
    | VArr l =>
      Some (existsb (λ id, match id with
                           | VStr s => str_in s tagIds
                           | _ => false
                           end) l)
    | _ => None
    end
  else Some false.

(** Line 177: [stream.title && keywords.some(kw =>
    stream.title.toLowerCase().includes(kw.toLocaleLowerCase()))]. *)
Definition keyword_match (keywords : list string) (stream : value)
  : option bool :=
  title ← get stream "title";
  if truthy title then
    match keywords, title with
    | [], _ => Some false
    | _, VStr t =>
      Some (existsb (λ kw, includes (toLowerCase t) (toLocaleLowerCase kw))
                    keywords)
    | _, _ => None
    end
  else Some false.

(** [.then(streams => streams.filter(f))] on the promise of a listing. *)
Definition then_filter (f : value → option bool) (r : settled) : settled :=
  match r with
  | Fulfilled (VArr streams) =>
    match filterM f streams with
    | Some l => Fulfilled (VArr l)
    | None => Rejected
    end
  | Fulfilled _ => Rejected
  | Rejected => Rejected
  | Pending => Pending
  end.

Definition filtered (f : value → option bool) (r : option (settled * world))
  : option (settled * world) :=
  '(r, w) ← r;
  Some (then_filter f r, w).

(** Lines 164-167. *)
Definition getStreamsByTagId (fuel : nat) (g : games) (tagIds : list string)
    (w : world) : option (settled * world) :=
  filtered (tag_match tagIds) (getStreams fuel g VUndefined [] w).

(** Lines 175-178. *)
Definition getStreamsByKeywords (fuel : nat) (g : games)
    (keywords : list string) (w : world) : option (settled * world) :=
  filtered (keyword_match keywords) (getStreams fuel g VUndefined [] w).

(** Line 193: [streams.find(s => s.id === stream.id)]. *)
Fixpoint find_same_id (stream : value) (streams : list value)
  : option (option value) :=
  match streams with
  | [] => Some None
  | s :: rest =>
    a ← get s "id";
    b ← get stream "id";
    if strict_eq a b then Some (Some s) else find_same_id stream rest
  end.

(** Lines 192-198: one turn of the [reduce]. *)
Definition merge_step (acc : option (list value)) (stream : value)
  : option (list value) :=
  streams ← acc;
  found ← find_same_id stream streams;
  match found with
  | Some s => if truthy s then Some streams else Some (array_concat streams stream)
  | None => Some (array_concat streams stream)
  end.

Definition mergeStreams (taggedStreams kwStreams : list value)
  : option (list value) :=
  fold_left merge_step (taggedStreams ++ kwStreams)%list (Some []).

(** *** The two listings of [Promise.all]

    [getStreamsByTagId] and [getStreamsByKeywords] are both called
    before [Promise.all] waits, so the two walks run side by side: each
    is a filtered listing whose page request is on the wire, or a
    promise that has settled. *)
Inductive walk :=
| Waiting (req : request) (streams : list value)
| Settled (r : settled).

(** Lines 165 and 176, [getStreams(gameIds)]: the request for the first
    page is made at once. *)
Definition walk_start (g : games) (w : world) : walk * world :=
  let req := with_auth (streams_request g VUndefined) w in
  (Waiting req [], log_sent (wire req) w).

(** The reply to the page request of a walk: the continuation of
    [getStreams] asks for the next page, or the listing is complete and
    the filter [f] of line 166 or 177 runs on it.  Without a reply the
    promise never settles. *)
Definition walk_reply (g : games) (f : value → option bool) (k : walk)
    (w : world) : walk * world :=
  match k with
  | Settled _ => (k, w)
  | Waiting req streams =>
    let '(r, w) := receive req 1 w in
    match r with
    | Fulfilled v =>
      match streams_page streams v with
      | NextPage c newStreams =>
        let req := with_auth (streams_request g c) w in
        (Waiting req newStreams, log_sent (wire req) w)
      | LastPage r => (Settled (then_filter f r), w)
      end
    | Rejected => (Settled Rejected, w)
    | Pending => (Settled Pending, w)
    end
  end.

(** A walk that [Promise.all] no longer waits for goes on by itself.
    Its page request was made before the [older] chains onwards were
    detached. *)
Definition left_running (g : games) (k : walk) (older : nat) (w : world)
  : world :=
  match k with
  | Waiting req _ =>
    set_detached (take older (detached w) ++ Listing req g :: drop older (detached w)) w
  | Settled _ => w
  end.

(** One round of replies for the two walks [a] and [b] of
    [Promise.all], [a] started first.  The replies arrive in the order
    of the requests: [a] gets its reply, then [b], and each asks for
    its next page as soon as it has its reply.  [Promise.all] rejects as
    soon as one walk rejects, and the other walk is left running; it
    never settles once a reply fails to come. *)
Inductive round_result :=
| AllSettled (r : settled) (w : world)
| NextRound (a b : walk) (w : world).

Definition round (g : games) (f1 f2 : value → option bool) (a b : walk)
    (w : world) : round_result :=
  let older := length (detached w) in
  let '(a, w) := walk_reply g f1 a w in
  match a with
  | Settled Rejected => AllSettled Rejected (left_running g b older w)
  | Settled Pending => AllSettled Pending w
  | _ =>
    let older := length (detached w) in
    let '(b, w) := walk_reply g f2 b w in
    match b with
    | Settled Rejected => AllSettled Rejected (left_running g a older w)
    | Settled Pending => AllSettled Pending w
    | _ => NextRound a b w
    end
  end.

(** Lines 187-190, [Promise.all] on the two walks: it fulfils with the
    two filtered listings once both walks have fulfilled.  [None] is a
    recursion cut short by [fuel]. *)
Fixpoint all_streams (fuel : nat) (g : games) (f1 f2 : value → option bool)
    (a b : walk) (w : world) : option (settled * world) :=
  match a, b with
  | Settled (Fulfilled x), Settled (Fulfilled y) =>
    Some (Fulfilled (VArr [x; y]), w)
  | _, _ =>
    match fuel with
    | O => None
    | S fuel' =>
      match round g f1 f2 a b w with
      | AllSettled r w => Some (r, w)
      | NextRound a b w => all_streams fuel' g f1 f2 a b w
      end
    end
  end.

(** Lines 187-190: the two listings are started, tags first, and
    [Promise.all] waits for both. *)
Definition listings (fuel : nat) (g : games) (tagIds keywords : list string)
    (w : world) : option (settled * world) :=
  let '(a, w) := walk_start g w in
  let '(b, w) := walk_start g w in
  all_streams fuel g (tag_match tagIds) (keyword_match keywords) a b w.

(** Lines 186-200. *)
Definition getStreamsByMetadata (fuel : nat) (g : games)
    (tagIds keywords : list string) (w : world) : option (settled * world) :=
  '(r, w) ← listings fuel g tagIds keywords w;
  match r with
  | Fulfilled (VArr [VArr taggedStreams; VArr kwStreams]) =>
    match mergeStreams taggedStreams kwStreams with
    | Some l => Some (Fulfilled (VArr l), w)
    | None => Some (Rejected, w)
    end
  | Fulfilled _ => Some (Rejected, w)
  | Rejected => Some (Rejected, w)
  | Pending => Some (Pending, w)
  end.

(** Lines 202-216: the request, and the call with its [.then(log.debug)]. *)
Definition webhook_request (userId : value) (mode : string) : request :=
  {| endpoint := "/webhooks/hub";
     payload :=
       <["hub.callback" := VStr (domain cfg ++ "/streamUpdate/" ++ to_str userId)]>
         (<["hub.mode" := VStr mode]>
            (<["hub.topic" := VStr (URL_BASE ++ "/streams?user_id=" ++ to_str userId)]>
               (<["hub.lease_seconds" := VNum 86400]> ∅)));
     method := "post";
     urlBase := URL_BASE;
     responseType := "text";
     headers := ∅;
     noauth := false |}.

Definition streamWebhookRequest (userId : value) (mode : string) (w : world)
  : settled * world :=
  let '(r, w) := apiRequest (webhook_request userId mode) 1 w in
  (match r with Fulfilled _ => Fulfilled VUndefined | _ => r end, w).

Definition subscribeToUserStream (userId : value) (w : world)
  : settled * world :=
  streamWebhookRequest userId "subscribe" w.

Definition unsubscribeFromUserStream (userId : value) (w : world)
  : settled * world :=
  streamWebhookRequest userId "unsubscribe" w.

(** Lines 226-234. *)
Definition getAllWebhooks (w : world) : settled * world :=
  let '(r, w) := ensureToken w in
  match r with
  | Fulfilled _ => apiRequest (api_get "/webhooks/subscriptions" ∅) 1 w
  | _ => (r, w)
  end.

(** Lines 236-239. *)
Definition getUserId (username : value) (w : world) : settled * world :=
  apiRequest (api_get "/users" (<["login" := username]> ∅)) 1 w.

End Client.

End Twitch.

(** ** The stream lifecycle: [src/models/Stream.js] *)

Module Stream.

(** A number as [date-fns] returns it: an integer, or [NaN] for an
    argument that is not a date. *)
Inductive num :=
| NaN
| Int (z : Z).

(** A write to the [streams] table: [insert(row)], or
    [update(row).where('user_id', key)]. *)
Inductive db_write :=
| Insert (row : obj)
| Update (row : obj) (key : value).

(** The Twitch client, the writes issued to the store, the descriptors
    handed to the notifier, and the number of times the clock was read. *)
Record world := {
  api : Twitch.world;
  writes : list db_write;
  alerts : list obj;
  reads : nat;
}.

Definition set_api (a : Twitch.world) (w : world) : world :=
  {| api := a; writes := writes w; alerts := alerts w; reads := reads w |}.

Definition write (op : db_write) (w : world) : world :=
  {| api := api w; writes := writes w ++ [op]; alerts := alerts w;
     reads := reads w |}.

Definition notify (stream : obj) (w : world) : world :=
  {| api := api w; writes := writes w; alerts := alerts w ++ [stream];
     reads := reads w |}.

Section Lifecycle.

Context {engine : Engine}.
Variable cfg : config.

(** [discordBot.newStreamAlert]: whether the promise it returns for a
    descriptor fulfils. *)
Variable newStreamAlert : obj → bool.

(** The wall clock: the instant (in ms) the n-th [new Date()] returns. *)
Variable clock : nat → Z.

(** [date-fns]: [differenceInHours(now, d)], [differenceInMinutes(now, d)]. *)
Variable differenceInHours : Z → value → num.
Variable differenceInMinutes : Z → value → num.

Definition new_Date (w : world) : Z * world :=
  (clock (reads w),
   {| api := api w; writes := writes w; alerts := alerts w;
      reads := S (reads w) |}).

(** Lines 16-19: the promise of the subscription is dropped. *)
Definition subscribeToStream (stream : obj) (w : world) : world :=
  set_api
    (Twitch.detach
       (Twitch.Call (Twitch.webhook_request cfg (prop stream "user_id") "subscribe") 1)
       (api w))
    w.

(** Line 27, for a title that is a string. *)
Definition keyword_hit (t : string) : bool :=
  (truthy (VStr t) &&
   existsb (λ kw, includes (toLowerCase t) (toLocaleLowerCase kw))
           (bl_keywords (blacklist cfg)))%bool.

(** Line 33; [None] is the TypeError of [includes] on a value that has
    no such method. *)
Definition tag_hit (tids : value) : option bool :=
  if truthy tids then
    match bl_tagIds (blacklist cfg), tids with
    | [], _ => Some false
    | tags, VArr l => Some (existsb (λ tag, arr_includes l (VStr tag)) tags)
    | tags, VStr s => Some (existsb (λ tag, includes s tag) tags)
    | _, _ => None
    end
  else Some false.

(** Line 38. *)
Definition user_hit (uid : value) : bool :=
  (truthy uid &&
   match uid with
   | VStr u => str_in u (bl_userIds (blacklist cfg))
   | _ => false
   end)%bool.

(** Lines 24-44: [true] when the promise fulfils.  The template literal
    of line 26 calls [stream.title.toLowerCase()] before any check. *)
Definition alertStream (stream : obj) (w : world) : bool * world :=
  match prop stream "title" with
  | VStr t =>
    if keyword_hit t then (false, w)
    else
      match tag_hit (prop stream "tag_ids") with
      | Some false =>
        if user_hit (prop stream "user_id") then (false, w)
        else (newStreamAlert stream, notify stream w)
      | _ => (false, w)
      end
  | _ => (false, w)
  end.

(** [v != null ? v : null]. *)
Definition or_null (v : value) : value := if nullish v then VNull else v.

(** Lines 51-64. *)
Definition convertToDStream (istream : obj) : obj :=
  let id := prop istream "id" in
  let dStream := delete "id" istream in
  <["offline_since" := or_null (prop istream "offline_since")]>
    (<["stream_id" := id]>
       (<["lastShoutOut" := or_null (prop istream "lastShoutOut")]>
          (<["isLive" := or_null (prop istream "isLive")]> dStream))).

(** Lines 73-75. *)
Definition setLive (userId : value) (w : world) : world :=
  write (Update (<["isLive" := VBool true]> ∅) userId) w.

(** Lines 76-78. *)
Definition setEnded (userId : value) (w : world) : world :=
  let '(now, w) := new_Date w in
  write (Update (<["isLive" := VBool false]> (<["offline_since" := VDate now]> ∅))
                userId) w.

(** Lines 90-93. *)
Definition create (stream : obj) (w : world) : world :=
  write (Insert (convertToDStream stream)) w.

(** Lines 100-111. *)
Definition update (stream : obj) (upd : option obj) (w : world) : world :=
  let updatedStream :=
    match upd with
    | Some u => spread stream (convertToDStream u)
    | None => stream
    end in
  write (Update stream (prop updatedStream "user_id")) w.

(** Lines 115-117. *)
Definition isWhitelisted (stream : obj) : bool :=
  match prop stream "user_id" with
  | VStr u => str_in u (whitelist_userIds cfg)
  | _ => false
  end.

(** Line 124. *)
Definition merged (stream upd : obj) : obj :=
  <["offline_since" := prop stream "offline_since"]>
    (<["lastShoutOut" := prop stream "lastShoutOut"]>
       (<["isLive" := VBool true]>
          (spread stream (convertToDStream upd)))).

(** Line 128. *)
Definition reconnect_blip (offlineSinceMinutes : option num) : bool :=
  match offlineSinceMinutes with
  | Some (Int m) => m <? reconnect_minutes cfg
  | _ => false
  end.

(** Line 130. *)
Definition already_shouted (lastShoutOutAgeHours : num) (stream : obj) : bool :=
  match lastShoutOutAgeHours with
  | Int h => ((0 <=? h) && (h <? shoutout_hours cfg)
              && negb (isWhitelisted stream))%bool
  | NaN => false
  end.

(** Lines 144-149. *)
Definition try_alert (stream : obj) (w : world) : obj * world :=
  let '(ok, w) := alertStream stream w in
  if ok then
    let '(now, w) := new_Date w in
    (<["lastShoutOut" := VDate now]> stream, w)
  else (stream, w).

(** Lines 122-154. *)
Definition goneLive (stream upd : obj) (w : world) : world :=
  let updatedStream := merged stream upd in
  let '(now, w) := new_Date w in
  let lastShoutOutAgeHours :=
    differenceInHours now (prop updatedStream "lastShoutOut") in
  let '(offlineSinceMinutes, w) :=
    match prop updatedStream "offline_since" with
    | VNull => (None, w)
    | since => let '(now, w) := new_Date w in
               (Some (differenceInMinutes now since), w)
    end in
  let '(updatedStream, w) :=
    if reconnect_blip offlineSinceMinutes then (updatedStream, w)
    else if already_shouted lastShoutOutAgeHours updatedStream
    then (updatedStream, w)
    else try_alert updatedStream w in
  let w := subscribeToStream updatedStream w in
  update updatedStream None w.

(** Line 161. *)
Definition fresh (stream : obj) : obj :=
  <["offline_since" := VNull]>
    (<["lastShoutOut" := VNull]>
       (<["isLive" := VBool true]> stream)).

(** Lines 158-171. *)
Definition addNew (stream : obj) (w : world) : world :=
  let newStream := fresh stream in
  let '(newStream, w) := try_alert newStream w in
  let w := subscribeToStream newStream w in
  create newStream w.

End Lifecycle.

End Stream.

(** ** Auxiliary notions used in the statements *)

Module Scenario.

Import Twitch.

(** A reply that [apiRequest] passes on to its caller: neither a 401 nor
    a failure of the request or of the decoding. *)
Definition healthy (r : reply) : bool :=
  match r with
  | NetError => false
  | Reply status body =>
    (negb (status =? 401)
     && (negb (status =? 200) || match body with Some _ => true | None => false end))%bool
  end.

(** What [apiRequest] puts on the wire for a request. *)
Definition issued (cfg : config) (req : request) (w : world) : sent_request :=
  wire cfg (with_auth req w).


Definition cfg0 : config :=
  {| clientId := "client"; clientSecret := "secret";
     domain := "https://bot.example";
     blacklist := {| bl_keywords := ["spoiler"]; bl_tagIds := ["tag-bad"];
                     bl_userIds := ["666"] |};
     whitelist_userIds := ["7"];
     reconnect_minutes := 5; shoutout_hours := 6 |}.

Definition token_body (t : string) : value :=
  VObj (<["access_token" := VStr t]> ∅).

Definition users_body : value :=
  VObj (<["data" := VArr [VObj (<["id" := VStr "42"]> ∅)]]> ∅).

Definition users_request : request :=
  api_get "/users" (<["login" := VStr "bob"]> ∅).

Definition start (t : value) (replies : list reply) : world :=
  {| token := t; net := replies; sent := []; exited := false; detached := [] |}.

(** One 401, a successful token exchange, then a 200 for the retry. *)
Definition w_retry : world :=
  start (VStr "old")
        [Reply 401 None; Reply 200 (Some (token_body "new"));
         Reply 200 (Some users_body)].

(** Two 401 in a row for the same request, with a successful token
    exchange in between. *)
Definition w_double : world :=
  start (VStr "old")
        [Reply 401 None; Reply 200 (Some (token_body "new"));
         Reply 401 None; Reply 200 (Some users_body)].

(** The token endpoint answers 500, then 200. *)
Definition w_exchange_fails : world :=
  start VUndefined [Reply 500 None; Reply 200 (Some (token_body "B"))].


(** *** Paginated listings *)

(** A page of a listing as the API sends it:
    [{ data: [...], pagination: { cursor } }], with [undefined] for a
    cursor that is not there. *)
Record page := { p_data : list value; p_cursor : value }.

Definition page_body (p : page) : value :=
  VObj (<["data" := VArr (p_data p)]>
          (<["pagination" := VObj (<["cursor" := p_cursor p]> ∅)]> ∅)).

Definition page_reply (p : page) : reply := Reply 200 (Some (page_body p)).

(** The reply a walk ends on: a page, or a bare status code (which
    carries no [data]). *)
Inductive ending :=
| EndPage (p : page)
| EndStatus (status : Z).

Definition ending_reply (e : ending) : reply :=
  match e with
  | EndPage p => page_reply p
  | EndStatus status => Reply status None
  end.

Definition ending_data (e : ending) : list value :=
  match e with
  | EndPage p => p_data p
  | EndStatus _ => []
  end.

(** The two paginated fetches of the client. *)
Inductive listing :=
| Tags
| Streams (g : games).

Definition fetchAll (cfg : config) (k : listing) (fuel : nat) (cursor : value)
    (acc : list value) (w : world) : option (settled * world) :=
  match k with
  | Tags => getAllTags cfg fuel cursor acc w
  | Streams g => getStreams cfg fuel g cursor acc w
  end.

(** The request for the page after [cursor]. *)
Definition page_request (k : listing) (cursor : value) : request :=
  match k with
  | Tags =>
    api_get "/tags/streams" (<["first" := VNum 100]> (<["after" := cursor]> ∅))
  | Streams g =>
    api_get "/streams"
            (<["first" := VNum 100]>
               (<["game_id" := VStr (gameIds_of g)]> (<["after" := cursor]> ∅)))
  end.

(** The rule by which a walk goes on after a page: a cursor for the tag
    catalog; a cursor and a full page for the stream listing. *)
Definition continues (k : listing) (p : page) : bool :=
  match k with
  | Tags => truthy (p_cursor p)
  | Streams _ =>
    (truthy (p_cursor p) && (100 <=? Z.of_nat (length (p_data p))))%bool
  end.

Definition ends (k : listing) (e : ending) : Prop :=
  match e with
  | EndPage p => continues k p = false
  | EndStatus status => status ≠ 200 ∧ status ≠ 401
  end.

(** What a listing accumulates from the items of its pages: the tag
    catalog keeps an [{ id, name }] entry per tag, the stream listing the
    items themselves. *)
Definition items (k : listing) (data : list value) : option (list value) :=
  match k with
  | Tags => mapM tag_entry data
  | Streams _ => Some data
  end.

(** The world after a walk: the requests [reqs] were sent, [rest] is
    what the network still holds. *)
Definition fetched (cfg : config) (reqs : list request) (rest : list reply)
    (w : world) : world :=
  {| token := token w; net := rest;
     sent := sent w ++ map (λ r, issued cfg r w) reqs;
     exited := exited w; detached := detached w |}.

Definition tag (id name : string) : value :=
  VObj (<["tag_id" := VStr id]>
          (<["localization_names" := VObj (<["en-us" := VStr name]> ∅)]> ∅)).

Definition entry (id name : string) : value :=
  VObj (<["id" := VStr id]> (<["name" := VStr name]> ∅)).

(** An empty page that still carries a cursor, then a page of one tag. *)
Definition w_empty_page : world :=
  start (VStr "tok")
        [page_reply {| p_data := []; p_cursor := VStr "c1" |};
         page_reply {| p_data := [tag "t1" "Speedrun"]; p_cursor := VUndefined |}].

Definition stream (id user title : string) (tags : list string) : value :=
  VObj (<["id" := VStr id]>
          (<["user_id" := VStr user]>
             (<["title" := VStr title]>
                (<["tag_ids" := VArr (VStr <$> tags)]> ∅)))).

Definition full_page : page :=
  {| p_data := replicate 100 (stream "1" "10" "any%" []); p_cursor := VStr "c1" |}.

Definition short_page : page :=
  {| p_data := [stream "2" "20" "100%" []]; p_cursor := VStr "c2" |}.

(** A full page, then a short page that still carries a cursor. *)
Definition w_two_pages : world :=
  start (VStr "tok")
        [page_reply full_page; page_reply short_page;
         page_reply {| p_data := [stream "3" "30" "late" []]; p_cursor := VUndefined |}].

(** *** The merged listing *)

(** A walk of [Promise.all] that has fulfilled did so with what its
    filter kept of a listing. *)
Definition listed_by (f : value → option bool) (k : walk) : Prop :=
  match k with
  | Settled (Fulfilled x) =>
    ∃ listed kept, x = VArr kept ∧ filterM f listed = Some kept
  | _ => True
  end.

(** Both walks have fulfilled. *)
Definition both_fulfilled (a b : walk) : Prop :=
  ∃ x y, a = Settled (Fulfilled x) ∧ b = Settled (Fulfilled y).

(** The [id] two streams are compared by at line 193. *)
Definition id_of (v : value) : value :=
  match v with
  | VObj o => prop o "id"
  | _ => VUndefined
  end.

Definition same_id (a b : value) : bool := strict_eq (id_of a) (id_of b).

Definition is_obj (v : value) : Prop := ∃ o, v = VObj o.

(** First-seen-wins on a list of stream objects: an item is appended
    unless an item with the same id was kept before it. *)
Definition dedupe_step (acc : list value) (x : value) : list value :=
  if existsb (λ s, same_id s x) acc then acc else (acc ++ [x])%list.

Definition dedupe_from (acc l : list value) : list value :=
  fold_left dedupe_step l acc.

Fixpoint distinct_ids (l : list value) : Prop :=
  match l with
  | [] => True
  | x :: l' => (∀ y, y ∈ l' → same_id x y = false) ∧ distinct_ids l'
  end.

Definition viewers (n : Z) (s : value) : value :=
  match s with
  | VObj o => VObj (<["viewer_count" := VNum n]> o)
  | _ => s
  end.

(** The two listings of the same game, of one page each: stream 1
    carries a wanted tag and a wanted keyword, stream 2 only the tag,
    stream 3 only the keyword. *)
Definition w_metadata : world :=
  start (VStr "tok")
        [page_reply {| p_data := [viewers 10 (stream "1" "10" "Any% run" ["tag-x"]);
                                  stream "2" "20" "chill" ["tag-x"];
                                  stream "3" "30" "ANY% practice" []];
                       p_cursor := VUndefined |};
         page_reply {| p_data := [viewers 11 (stream "1" "10" "Any% run" ["tag-x"]);
                                  stream "2" "20" "chill" ["tag-x"];
                                  stream "3" "30" "ANY% practice" []];
                       p_cursor := VUndefined |}].

(** The tag listing has two pages and the keyword listing one.  The
    first page of the tag listing holds the same stream a hundred times;
    stream 1 carries the wanted tag and the wanted keyword, stream 2
    only the tag, stream 3 only the keyword. *)
Definition w_side_by_side : world :=
  start (VStr "tok")
        [page_reply {| p_data := replicate 100 (stream "1" "10" "Any% run" ["tag-x"]);
                       p_cursor := VStr "c1" |};
         page_reply {| p_data := [viewers 11 (stream "1" "10" "Any% run" ["tag-x"]);
                                  stream "3" "30" "ANY% practice" []];
                       p_cursor := VUndefined |};
         page_reply {| p_data := [stream "2" "20" "chill" ["tag-x"]];
                       p_cursor := VUndefined |}].

(** Channel 10 as the two listings see it when it restarts its stream
    between the two replies: under stream id [s1] in the tag listing,
    under [s2] in the keyword listing. *)
Definition w_restarted : world :=
  start (VStr "tok")
        [page_reply {| p_data := [stream "s1" "10" "Any% run" ["tag-x"]];
                       p_cursor := VUndefined |};
         page_reply {| p_data := [stream "s2" "10" "Any% run" ["tag-x"]];
                       p_cursor := VUndefined |}].

End Scenario.

Module StreamScenario.

Import Stream.

(** [date-fns] on two instants: the elapsed time in whole units, rounded
    toward zero; [NaN] when the second argument is not a date. *)
Definition difference (unit now : Z) (d : value) : num :=
  match d with
  | VDate ms => Int (Z.quot (now - ms) unit)
  | _ => NaN
  end.

Definition differenceInHours : Z → value → num := difference 3600000.
Definition differenceInMinutes : Z → value → num := difference 60000.

(** A clock that starts at [t0] and advances 1 ms per reading. *)
Definition t0 : Z := 1600000000000.
Definition clock0 (n : nat) : Z := t0 + Z.of_nat n.

Definition minutes (n : Z) : Z := n * 60000.
Definition hours (n : Z) : Z := n * 3600000.

(** A notifier that delivers everything. *)
Definition delivers (_ : obj) : bool := true.

Definition w0 : world :=
  {| api := Scenario.start (VStr "tok") []; writes := []; alerts := [];
     reads := 0 |}.

(** The minutes and hours [goneLive] computes at lines 125-126, and the
    world once the clock has been read for them. *)
Definition lastShoutOutAgeHours (clock : nat → Z) (dH : Z → value → num)
    (stream : obj) (w : world) : num :=
  dH (clock (reads w)) (prop stream "lastShoutOut").

Definition offlineSinceMinutes (clock : nat → Z) (dM : Z → value → num)
    (stream : obj) (w : world) : option num :=
  match prop stream "offline_since" with
  | VNull => None
  | since => Some (dM (clock (S (reads w))) since)
  end.

Definition timed (stream : obj) (w : world) : world :=
  {| api := api w; writes := writes w; alerts := alerts w;
     reads := match prop stream "offline_since" with
              | VNull => S (reads w)
              | _ => S (S (reads w))
              end |}.

(** The subscription request for channel [uid] was started. *)
Definition subscribed (cfg : config) (uid : value) (w w' : world) : Prop :=
  Twitch.detached (api w')
  = (Twitch.detached (api w)
     ++ [Twitch.Call (Twitch.webhook_request cfg uid "subscribe") 1])%list.

(** A stream the blacklist applies to: a non-empty title that, put in
    lower case by the engine, contains a blacklisted keyword put in lower
    case under the host locale; a tag among the blacklisted tags; a
    non-empty channel id among the blacklisted users. *)
Definition blacklisted {engine : Engine} (cfg : config) (stream : obj) : Prop :=
  (∃ t kw, prop stream "title" = VStr t ∧ t ≠ EmptyString
           ∧ kw ∈ bl_keywords (blacklist cfg)
           ∧ includes (toLowerCase t) (toLocaleLowerCase kw) = true)
  ∨ (∃ l tag, prop stream "tag_ids" = VArr l ∧ VStr tag ∈ l
              ∧ tag ∈ bl_tagIds (blacklist cfg))
  ∨ (∃ u, prop stream "user_id" = VStr u ∧ u ≠ EmptyString
          ∧ u ∈ bl_userIds (blacklist cfg)).

(** A stream the blacklist lets through: its title is a string that is
    empty or contains no blacklisted keyword (compared as above), it has
    no tags or an array of tags none of which is blacklisted, and its
    channel id is not a non-empty string among the blacklisted users. *)
Definition passes_blacklist {engine : Engine} (cfg : config) (stream : obj)
  : Prop :=
  (∃ t, prop stream "title" = VStr t
        ∧ (t = EmptyString
           ∨ ∀ kw, kw ∈ bl_keywords (blacklist cfg) →
                   includes (toLowerCase t) (toLocaleLowerCase kw) = false))
  ∧ (nullish (prop stream "tag_ids") = true
     ∨ ∃ l, prop stream "tag_ids" = VArr l
            ∧ ∀ tag, tag ∈ bl_tagIds (blacklist cfg) → VStr tag ∉ l)
  ∧ (∀ u, prop stream "user_id" = VStr u →
          u = EmptyString ∨ u ∉ bl_userIds (blacklist cfg)).

(** The channel is on the whitelist: its id is one of the configured
    ids. *)
Definition whitelisted (cfg : config) (stream : obj) : Prop :=
  ∃ u, prop stream "user_id" = VStr u ∧ u ∈ whitelist_userIds cfg.

(** The record of a known channel and an observation of it. *)
Definition known (lastShoutOut offline_since : value) : obj :=
  <["user_id" := VStr "10"]>
    (<["user_name" := VStr "bob"]>
       (<["title" := VStr "yesterday"]>
          (<["stream_id" := VStr "s1"]>
             (<["isLive" := VBool false]>
                (<["lastShoutOut" := lastShoutOut]>
                   (<["offline_since" := offline_since]> ∅)))))).

Definition observed (user title : string) (tags : list string) : obj :=
  <["id" := VStr "s2"]>
    (<["user_id" := VStr user]>
       (<["user_name" := VStr "bob"]>
          (<["title" := VStr title]>
             (<["tag_ids" := VArr (VStr <$> tags)]> ∅)))).

(** A blacklist whose one keyword is the empty string. *)
Definition cfg_empty_keyword : config :=
  {| clientId := "client"; clientSecret := "secret";
     domain := "https://bot.example";
     blacklist := {| bl_keywords := [EmptyString]; bl_tagIds := []; bl_userIds := [] |};
     whitelist_userIds := [];
     reconnect_minutes := 5; shoutout_hours := 6 |}.

(** A blacklist whose one keyword is written in capitals. *)
Definition cfg_capitals : config :=
  {| clientId := "client"; clientSecret := "secret";
     domain := "https://bot.example";
     blacklist := {| bl_keywords := ["SPOILER"]; bl_tagIds := []; bl_userIds := [] |};
     whitelist_userIds := [];
     reconnect_minutes := 5; shoutout_hours := 6 |}.

End StreamScenario.


(** ** Further scenarios *)

Module Coverage.

Import Twitch Scenario.

(** [n] rounds of a 401 followed by a token exchange answered with
    [tok], then [rest]. *)
Fixpoint refused (n : nat) (tok : value) (rest : list reply) : list reply :=
  match n with
  | O => rest
  | S n' => Reply 401 None :: Reply 200 (Some tok) :: refused n' tok rest
  end.

(** What [apiRequest] fulfils with on a reply it passes on: the status
    code, or the decoded body of a 200. *)
Definition passed_on (r : reply) : settled :=
  match r with
  | Reply status body =>
    if status =? 200
    then match body with
         | Some v => Fulfilled v
         | None => Fulfilled VUndefined
         end
    else Fulfilled (VNum status)
  | NetError => Fulfilled VUndefined
  end.

(** The cursors a walk asks its pages with, and the cursor it holds
    after them. *)
Fixpoint walk_cursors (cursor : value) (pages : list page) : list value :=
  match pages with
  | [] => []
  | p :: rest => cursor :: walk_cursors (p_cursor p) rest
  end.

Fixpoint walk_cursor (cursor : value) (pages : list page) : value :=
  match pages with
  | [] => cursor
  | p :: rest => walk_cursor (p_cursor p) rest
  end.

(** A stream object that carries a wanted tag, and one whose non-empty
    title, put in lower case by the engine, has a wanted keyword, put in
    lower case under the host locale, as a substring. *)
Definition has_tag (tagIds : list string) (stream : value) : Prop :=
  ∃ o l t, stream = VObj o ∧ prop o "tag_ids" = VArr l
           ∧ VStr t ∈ l ∧ t ∈ tagIds.

Definition has_keyword {engine : Engine} (keywords : list string)
    (stream : value) : Prop :=
  ∃ o title kw pre post,
    stream = VObj o ∧ prop o "title" = VStr title ∧ title ≠ EmptyString
    ∧ kw ∈ keywords
    ∧ toLowerCase title = pre ++ toLocaleLowerCase kw ++ post.

(** A configuration with other blacklisted keywords. *)
Definition with_keywords (kws : list string) (cfg : config) : config :=
  {| clientId := clientId cfg; clientSecret := clientSecret cfg;
     domain := domain cfg;
     blacklist := {| bl_keywords := kws;
                     bl_tagIds := bl_tagIds (blacklist cfg);
                     bl_userIds := bl_userIds (blacklist cfg) |};
     whitelist_userIds := whitelist_userIds cfg;
     reconnect_minutes := reconnect_minutes cfg;
     shoutout_hours := shoutout_hours cfg |}.

End Coverage.
(** * Properties of the API client *)

Module TwitchProofs.

Import Twitch Scenario.

Section Client.

Variable cfg : config.

Implicit Types (w : world) (req : request) (retries : Z).

(** The reply half of [apiRequest], reply by reply. *)
Lemma receive_ok req retries w v rest :
  net w = Reply 200 (Some v) :: rest →
  receive cfg req retries w = (Fulfilled v, set_net rest w).
Proof. intros Hn. unfold receive. rewrite Hn. reflexivity. Qed.

Lemma receive_status req retries w status body rest :
  net w = Reply status body :: rest →
  status ≠ 401 → status ≠ 200 →
  receive cfg req retries w = (Fulfilled (VNum status), set_net rest w).
Proof.
  intros Hn H401 H200. unfold receive. rewrite Hn.
  destruct (Z.eqb_spec status 401); [contradiction|].
  destruct (Z.eqb_spec status 200); [contradiction|]. reflexivity.
Qed.

Lemma receive_401_retry req retries w body rest :
  net w = Reply 401 body :: rest →
  retries ≠ 0 →
  receive cfg req retries w
  = on_rejected cfg req retries (set_token VNull (set_net rest w)).
Proof.
  intros Hn Hr. unfold receive. rewrite Hn. simpl.
  destruct (Z.eqb_spec retries 0); [contradiction|]. reflexivity.
Qed.

Lemma receive_healthy req retries w r rest :
  net w = r :: rest → healthy r = true →
  snd (receive cfg req retries w) = set_net rest w.
Proof.
  intros Hn Hh. destruct r as [|status body]; [discriminate|].
  simpl in Hh. apply andb_prop in Hh as [H401 Hb].
  apply negb_true_iff, Z.eqb_neq in H401.
  destruct (Z.eq_dec status 200) as [->|H200].
  - destruct body as [v|]; [|discriminate].
    erewrite receive_ok by eassumption. reflexivity.
  - erewrite receive_status by eassumption. reflexivity.
Qed.

Lemma apiRequest_ok req retries w v rest :
  net w = Reply 200 (Some v) :: rest →
  apiRequest cfg req retries w
  = (Fulfilled v, set_net rest (log_sent (issued cfg req w) w)).
Proof.
  intros Hn. unfold apiRequest. erewrite receive_ok; [reflexivity|exact Hn].
Qed.

Lemma apiRequest_status req retries w status body rest :
  net w = Reply status body :: rest →
  status ≠ 401 → status ≠ 200 →
  apiRequest cfg req retries w
  = (Fulfilled (VNum status), set_net rest (log_sent (issued cfg req w) w)).
Proof.
  intros Hn H401 H200. unfold apiRequest.
  erewrite receive_status; [reflexivity|exact Hn|assumption..].
Qed.

(** A 401 with retries left: the token is cleared, the handler puts the
    token request on the wire and detaches the chain that waits for its
    reply. *)
Lemma apiRequest_401_retry req retries w body rest :
  net w = Reply 401 body :: rest →
  retries ≠ 0 →
  apiRequest cfg req retries w
  = (Fulfilled VUndefined,
     detach (Reauth (retry_of (with_auth req w)) (retries - 1))
            (log_sent (wire cfg (token_request cfg))
               (set_token VNull (set_token VNull
                  (set_net rest (log_sent (issued cfg req w) w)))))).
Proof.
  intros Hn Hr. unfold apiRequest.
  erewrite receive_401_retry; [reflexivity|exact Hn|exact Hr].
Qed.

Lemma apiRequest_401_exit req w body rest :
  net w = Reply 401 body :: rest →
  apiRequest cfg req 0 w
  = (Pending, exit (set_token VNull (set_net rest (log_sent (issued cfg req w) w)))).
Proof. intros Hn. unfold apiRequest, receive. simpl. rewrite Hn. reflexivity. Qed.

(** Dealing with a reply puts at most one request on the wire: the
    token request of the rejection handler. *)
Lemma receive_sends req retries w :
  sent (snd (receive cfg req retries w)) = sent w
  ∨ sent (snd (receive cfg req retries w))
    = (sent w ++ [wire cfg (token_request cfg)])%list.
Proof.
  unfold receive. destruct (net w) as [|[|status body] rest]; simpl; auto.
  destruct (status =? 401); [destruct (retries =? 0); simpl; auto|].
  destruct (negb (status =? 200)); simpl; auto.
  destruct body; simpl; auto.
Qed.

(** Whatever the reply, the request goes on the wire first; the one
    request that can follow it before the call settles is the token
    request of the rejection handler. *)
Lemma apiRequest_sends req retries w :
  ∃ later,
    sent (snd (apiRequest cfg req retries w))
    = (sent w ++ issued cfg req w :: later)%list
    ∧ (later = [] ∨ later = [wire cfg (token_request cfg)]).
Proof.
  unfold apiRequest.
  destruct (receive_sends (with_auth req w) retries
              (log_sent (wire cfg (with_auth req w)) w)) as [-> | ->].
  - exists []. split; [reflexivity|by left].
  - exists [wire cfg (token_request cfg)]. simpl. rewrite <- app_assoc.
    split; [reflexivity|by right].
Qed.

(** A detached call is made when the event loop gets to it. *)
Lemma detached_call_sends req retries rest w :
  exited w = false → detached w = Call req retries :: rest →
  ∃ later,
    sent (step cfg w) = (sent w ++ issued cfg req w :: later)%list
    ∧ (later = [] ∨ later = [wire cfg (token_request cfg)]).
Proof.
  intros He Hd. unfold step. rewrite He, Hd. cbn [run_task].
  apply (apiRequest_sends req retries (set_detached rest w)).
Qed.


(** A request that is answered by a healthy reply leaves the token, the
    exit flag and the detached chains alone. *)
Lemma apiRequest_healthy req retries w r rest :
  net w = r :: rest → healthy r = true →
  snd (apiRequest cfg req retries w)
  = set_net rest (log_sent (issued cfg req w) w).
Proof.
  intros Hn Hh. unfold apiRequest.
  erewrite receive_healthy; [reflexivity|exact Hn|exact Hh].
Qed.





(** With an empty cache, [ensureToken] makes exactly the client-credentials
    request; a 200 with an [access_token] is cached and returned. *)
Lemma ensureToken_exchange w v t rest :
  truthy (token w) = false →
  net w = Reply 200 (Some v) :: rest →
  get v "access_token" = Some t →
  ensureToken cfg w
  = (Fulfilled t,
     set_token t (set_net rest (log_sent (wire cfg (token_request cfg)) w))).
Proof.
  intros Ht Hn Hv. unfold ensureToken. rewrite Ht.
  erewrite apiRequest_ok by eassumption. simpl. rewrite Hv. reflexivity.
Qed.

Lemma step_exited w : exited w = true → step cfg w = w.
Proof. intros He. unfold step. rewrite He. reflexivity. Qed.

Lemma run_exited n : ∀ w, exited w = true → run cfg n w = w.
Proof.
  induction n as [|n IH]; intros w He; [reflexivity|].
  simpl. rewrite step_exited by assumption. apply IH, He.
Qed.

(** A turn of the event loop on a re-authentication whose token request
    is answered 200 with an [access_token]: the token is stored and the
    request is made again. *)
Lemma reauth_step req retries more w v t rest :
  exited w = false → detached w = Reauth req retries :: more →
  net w = Reply 200 (Some v) :: rest →
  get v "access_token" = Some t →
  step cfg w
  = snd (apiRequest cfg req retries
           (set_token t (set_net rest (set_detached more w)))).
Proof.
  intros He Hd Hn Hv. unfold step. rewrite He, Hd. cbn [run_task].
  erewrite receive_ok by exact Hn. simpl. rewrite Hv. reflexivity.
Qed.

(** The retry budget: with [retries = 1], a 401, a successful token
    exchange and a second 401 end in [process.exit]; no request is made
    after that. *)
Lemma retry_401_exits req w b1 v t b2 rest :
  exited w = false → detached w = [] →
  net w = Reply 401 b1 :: Reply 200 (Some v) :: Reply 401 b2 :: rest →
  get v "access_token" = Some t →
  let w1 := run cfg 1 (snd (apiRequest cfg req 1 w)) in
  exited w1 = true ∧ net w1 = rest
  ∧ length (sent w1) = (length (sent w) + 3)%nat
  ∧ ∀ n, run cfg n w1 = w1.
Proof.
  intros He Hd Hn Hv w1.
  assert (Hex : exited w1 = true ∧ net w1 = rest
                ∧ length (sent w1) = (length (sent w) + 3)%nat).
  { subst w1. erewrite apiRequest_401_retry by (eassumption || lia).
    cbn [run snd]. erewrite reauth_step;
      [|exact He|cbn; rewrite Hd; reflexivity|reflexivity|exact Hv].
    erewrite apiRequest_401_exit by reflexivity.
    simpl. rewrite !length_app. simpl. repeat split; lia. }
  destruct Hex as (Hx & Hnet & Hlen). repeat split; try assumption.
  intros n. apply run_exited, Hx.
Qed.

(** ** C8 (as amended) *)



End Client.



(** ** C1 *)

(** C1, at the input where it fails: with [retries = 1], a 401 followed
    (after the token exchange) by a 200, the promise [apiRequest]
    returned fulfils with [undefined], not with the decoded body; the
    retry does run, detached, and its body is dropped. *)
Theorem apiRequest_retry_result_dropped :
  fst (apiRequest cfg0 users_request 1 w_retry) = Fulfilled VUndefined
  ∧ fst (apiRequest cfg0 users_request 1 w_retry) ≠ Fulfilled users_body
  ∧ let w := run cfg0 1 (snd (apiRequest cfg0 users_request 1 w_retry)) in
    net w = [] ∧ exited w = false ∧ length (sent w) = 3%nat
    ∧ detached w = [].
Proof. vm_compute. repeat split; congruence. Qed.

(** The other half of C1 at a concrete input: two 401 in a row exit the
    process and the fourth reply is never asked for. *)
Example double_401_exits :
  let w := run cfg0 5 (snd (apiRequest cfg0 users_request 1 w_double)) in
  exited w = true ∧ net w = [Reply 200 (Some users_body)]
  ∧ length (sent w) = 3%nat.
Proof.
  pose proof (retry_401_exits cfg0 users_request w_double None
                (token_body "new") (VStr "new") None
                [Reply 200 (Some users_body)]
                eq_refl eq_refl eq_refl eq_refl) as (He & Hn & Hl & Hrun).
  cbv zeta. change 5%nat with (1 + 4)%nat.
  replace (run cfg0 (1 + 4) (snd (apiRequest cfg0 users_request 1 w_double)))
    with (run cfg0 4 (run cfg0 1 (snd (apiRequest cfg0 users_request 1 w_double))))
    by reflexivity.
  rewrite Hrun. repeat split; assumption.
Qed.

End TwitchProofs.
(** * Pagination and the merged listing *)

Module ListingProofs.

Import Twitch Scenario TwitchProofs.

Section Listing.

Variable cfg : config.

Lemma fetched_step r reqs rest n w :
  fetched cfg reqs rest (set_net n (log_sent (issued cfg r w) w))
  = fetched cfg (r :: reqs) rest w.
Proof.
  unfold fetched. simpl. f_equal. rewrite <- app_assoc. reflexivity.
Qed.

Lemma fetched_one r rest w :
  set_net rest (log_sent (issued cfg r w) w) = fetched cfg [r] rest w.
Proof. reflexivity. Qed.

Lemma mapM_app_Some {A B} (f : A → option B) l1 l2 r :
  mapM f (l1 ++ l2) = Some r →
  ∃ r1 r2, mapM f l1 = Some r1 ∧ mapM f l2 = Some r2 ∧ r = (r1 ++ r2)%list.
Proof.
  rewrite mapM_Some. intros H.
  apply Forall2_app_inv_l in H as (r1 & r2 & H1 & H2 & ->).
  exists r1, r2. rewrite !mapM_Some. auto.
Qed.

Lemma page_body_data p : get (page_body p) "data" = Some (VArr (p_data p)).
Proof. reflexivity. Qed.

Lemma page_body_pagination p :
  get (page_body p) "pagination" = Some (VObj (<["cursor" := p_cursor p]> ∅)).
Proof. reflexivity. Qed.

Lemma getAllTags_walk pages : ∀ e rest w cursor acc entries fuel,
  net w = (map page_reply pages ++ ending_reply e :: rest)%list →
  Forall (λ p, continues Tags p = true) pages →
  ends Tags e →
  mapM tag_entry (concat (map p_data pages) ++ ending_data e) = Some entries →
  (length pages < fuel)%nat →
  getAllTags cfg fuel cursor acc w
  = Some (Fulfilled (VArr (acc ++ entries)),
          fetched cfg (map (page_request Tags) (cursor :: map p_cursor pages))
                  rest w).
Proof.
  induction pages as [|p pages IH];
    intros e rest w cursor acc entries fuel Hn Hc He Hi Hf;
    (destruct fuel as [|fuel]; [simpl in Hf; lia|]).
  - simpl in Hn, Hi. destruct e as [q|status]; simpl in He, Hi, Hn.
    + cbn [getAllTags]. erewrite apiRequest_ok by eassumption.
      rewrite page_body_data, page_body_pagination. cbn [truthy negb].
      rewrite Hi. cbn [get]. unfold prop. rewrite lookup_insert_eq.
      cbn [default from_option]. unfold id. rewrite He. reflexivity.
    + destruct He as [H200 H401]. injection Hi as <-.
      cbn [getAllTags]. erewrite apiRequest_status by eassumption.
      cbn. rewrite app_nil_r. reflexivity.
  - simpl in Hn, Hi. inversion Hc as [|? ? Hp Hps]; subst.
    rewrite <- app_assoc in Hi.
    apply mapM_app_Some in Hi as (r1 & r2 & H1 & H2 & ->).
    cbn [getAllTags]. erewrite apiRequest_ok by eassumption.
    rewrite page_body_data, page_body_pagination. cbn [truthy negb].
    rewrite H1. cbn [get]. unfold prop. rewrite lookup_insert_eq.
    cbn [default from_option]. unfold id. simpl in Hp. rewrite Hp.
    erewrite IH; try eassumption; [|reflexivity|simpl in Hf; lia].
    rewrite fetched_step, app_assoc. reflexivity.
Qed.

Lemma getStreams_walk g pages : ∀ e rest w cursor acc fuel,
  net w = (map page_reply pages ++ ending_reply e :: rest)%list →
  Forall (λ p, continues (Streams g) p = true) pages →
  ends (Streams g) e →
  (length pages < fuel)%nat →
  getStreams cfg fuel g cursor acc w
  = Some (Fulfilled (VArr (acc ++ concat (map p_data pages) ++ ending_data e)),
          fetched cfg (map (page_request (Streams g)) (cursor :: map p_cursor pages))
                  rest w).
Proof.
  induction pages as [|p pages IH];
    intros e rest w cursor acc fuel Hn Hc He Hf;
    (destruct fuel as [|fuel]; [simpl in Hf; lia|]).
  - simpl in Hn. destruct e as [q|status]; simpl in He, Hn.
    + cbn [getStreams]. erewrite apiRequest_ok by eassumption.
      rewrite page_body_data, page_body_pagination. cbn [truthy negb].
      cbn [get]. unfold prop. rewrite lookup_insert_eq.
      cbn [default from_option]. unfold id. cbn [js_length].
      rewrite He. reflexivity.
    + destruct He as [H200 H401].
      cbn [getStreams]. erewrite apiRequest_status by eassumption.
      cbn. rewrite app_nil_r. reflexivity.
  - simpl in Hn. inversion Hc as [|? ? Hp Hps]; subst.
    cbn [getStreams]. erewrite apiRequest_ok by eassumption.
    rewrite page_body_data, page_body_pagination. cbn [truthy negb].
    cbn [get]. unfold prop. rewrite lookup_insert_eq.
    cbn [default from_option]. unfold id. cbn [js_length].
    simpl in Hp. rewrite Hp.
    erewrite IH; try eassumption; [|reflexivity|simpl in Hf; lia].
    rewrite fetched_step. cbn [array_concat map concat].
    rewrite <- !app_assoc. reflexivity.
Qed.

(** ** C4 (as amended) *)

(** C4, amended.  Both paginated fetches ask for the first page with the
    caller's cursor and for every further page with the cursor of the
    previous response.  A walk goes on while a page comes with a cursor
    (and, for the stream listing, holds at least 100 items); it stops at
    the first page without a cursor, at a page of fewer than 100 items
    for the stream listing, or at a response that carries no data (a bare
    status code).  An empty page that comes with a cursor does not stop
    the tag catalog.  The result is what was accumulated before, followed
    by the items of all pages up to and including the one the walk stops
    at (for the tag catalog, their [{ id, name }] entries), and nothing
    is requested after the stop. *)
Theorem fetchAll_follows_cursor_until_stop
    k pages e rest w cursor acc entries fuel :
  net w = (map page_reply pages ++ ending_reply e :: rest)%list →
  Forall (λ p, continues k p = true) pages →
  ends k e →
  items k (concat (map p_data pages) ++ ending_data e) = Some entries →
  (length pages < fuel)%nat →
  fetchAll cfg k fuel cursor acc w
  = Some (Fulfilled (VArr (acc ++ entries)),
          fetched cfg (map (page_request k) (cursor :: map p_cursor pages))
                  rest w).
Proof.
  intros Hn Hc He Hi Hf. destruct k as [|g]; simpl in Hi |- *.
  - eapply getAllTags_walk; eassumption.
  - injection Hi as <-. apply getStreams_walk; assumption.
Qed.

End Listing.

(** The stream listing on a full page with a cursor followed by a short
    page that still has a cursor: the walk stops at the short page, and
    the third page is left on the network. *)
Lemma fetchAll_follows_cursor_until_stop_witness :
  fetchAll cfg0 (Streams (GameList ["g1"; "g2"])) 2 VUndefined [] w_two_pages
  = Some (Fulfilled (VArr (p_data full_page ++ p_data short_page)),
          fetched cfg0
            (map (page_request (Streams (GameList ["g1"; "g2"])))
                 [VUndefined; VStr "c1"])
            [page_reply {| p_data := [stream "3" "30" "late" []];
                           p_cursor := VUndefined |}]
            w_two_pages).
Proof.
  apply (fetchAll_follows_cursor_until_stop cfg0
           (Streams (GameList ["g1"; "g2"])) [full_page] (EndPage short_page)
           [page_reply {| p_data := [stream "3" "30" "late" []];
                          p_cursor := VUndefined |}]
           w_two_pages VUndefined []
           (p_data full_page ++ p_data short_page) 2).
  - reflexivity.
  - repeat constructor.
  - reflexivity.
  - reflexivity.
  - simpl. lia.
Defined.

(** C4, as stated, fails for the tag catalog: an empty page that comes
    with a cursor does not stop the walk.  The next page is requested
    and its tag is part of the result. *)
Lemma getAllTags_walks_past_empty_page :
  ∃ w', getAllTags cfg0 3 VUndefined [] w_empty_page
        = Some (Fulfilled (VArr [entry "t1" "Speedrun"]), w')
        ∧ length (sent w') = 2%nat ∧ net w' = [].
Proof. eexists. vm_compute. repeat split. Qed.

(** ** Filters and the merge *)

Lemma strict_eq_eq a b : strict_eq a b = true → a = b.
Proof.
  destruct a, b; simpl; try discriminate; intros H; try reflexivity.
  - apply Bool.eqb_prop in H. congruence.
  - apply Z.eqb_eq in H. congruence.
  - apply String.eqb_eq in H. congruence.
Qed.

Lemma strict_eq_sym a b : strict_eq a b = strict_eq b a.
Proof.
  destruct a, b; simpl; try reflexivity.
  - destruct b0, b; reflexivity.
  - apply Z.eqb_sym.
  - apply String.eqb_sym.
Qed.

Lemma same_id_sym a b : same_id a b = same_id b a.
Proof. apply strict_eq_sym. Qed.

Lemma same_id_true a b c : same_id a b = true → same_id a c = same_id b c.
Proof.
  unfold same_id. intros H. apply strict_eq_eq in H. rewrite H. reflexivity.
Qed.

Lemma startsWith_spec needle : ∀ hay,
  startsWith needle hay = true ↔ ∃ post, hay = needle ++ post.
Proof.
  induction needle as [|a needle IH]; intros hay; simpl.
  - split; [intros _; by exists hay|reflexivity].
  - destruct hay as [|b hay]; simpl.
    + split; [discriminate|]. intros [post H]. discriminate.
    + rewrite andb_true_iff, IH. split.
      * intros [Hab [post ->]]. apply Ascii.eqb_eq in Hab as ->. by exists post.
      * intros [post [= -> ->]]. split; [apply Ascii.eqb_refl|by exists post].
Qed.

(** [includes] is the substring test. *)
Lemma includes_spec needle : ∀ hay,
  includes hay needle = true ↔ ∃ pre post, hay = pre ++ needle ++ post.
Proof.
  induction hay as [|c hay IH].
  - simpl. rewrite orb_false_r, startsWith_spec. split.
    + intros [post H]. by exists EmptyString, post.
    + intros (pre & post & H). destruct pre; [by exists post|discriminate].
  - cbn [includes]. rewrite orb_true_iff, startsWith_spec, IH. split.
    + intros [[post H]|(pre & post & H)].
      * by exists EmptyString, post.
      * exists (String c pre), post. simpl. by rewrite H.
    + intros (pre & post & H). destruct pre as [|c' pre]; simpl in H.
      * left. by exists post.
      * right. injection H as -> ->. by exists pre, post.
Qed.

Lemma str_in_spec s l : str_in s l = true ↔ s ∈ l.
Proof.
  unfold str_in. rewrite existsb_exists. split.
  - intros (x & Hx & He). apply String.eqb_eq in He as ->. by apply list_elem_of_In.
  - intros H. exists s. split; [by apply list_elem_of_In|apply String.eqb_refl].
Qed.

(** [some] over a list sees its elements only through what the callback
    makes of them. *)
Lemma existsb_fmap {A B} (f : A → B) (p : B → bool) (l : list A) :
  existsb (λ x, p (f x)) l = existsb p (f <$> l).
Proof. induction l as [|x l IH]; [reflexivity|]. simpl. by rewrite IH. Qed.

(** Only objects pass the filters: a primitive has neither [tag_ids] nor
    [title], and [null] makes the callback throw. *)
Lemma tag_match_obj tagIds x : tag_match tagIds x = Some true → is_obj x.
Proof. destruct x; simpl; try discriminate. intros _. eexists; reflexivity. Qed.

Lemma keyword_match_obj {engine : Engine} kws x :
  keyword_match kws x = Some true → is_obj x.
Proof. destruct x; simpl; try discriminate. intros _. eexists; reflexivity. Qed.

Lemma filterM_spec f : (∀ x, f x = Some true → is_obj x) →
  ∀ l r, filterM f l = Some r → Forall is_obj r ∧ sublist r l.
Proof.
  intros Hf. induction l as [|x l IH]; intros r; simpl.
  - intros [= <-]. split; constructor.
  - destruct (f x) as [b|] eqn:Hx; [|discriminate]. simpl.
    destruct (filterM f l) as [r'|]; [|discriminate]. simpl.
    destruct (IH r' eq_refl) as [Ho Hs]. intros [= <-]. destruct b.
    + split; [constructor; auto|]. by apply sublist_skip.
    + split; [assumption|]. by apply sublist_cons.
Qed.

Lemma find_same_id_objs x acc :
  Forall is_obj acc → is_obj x →
  find_same_id x acc = Some (List.find (λ s, same_id s x) acc).
Proof.
  intros Ha [o ->]. induction Ha as [|s acc [os ->] _ IH]; [reflexivity|].
  simpl. unfold same_id at 1. simpl.
  destruct (strict_eq (prop os "id") (prop o "id")); [reflexivity|exact IH].
Qed.

Lemma merge_step_objs acc x :
  Forall is_obj acc → is_obj x →
  merge_step (Some acc) x = Some (dedupe_step acc x).
Proof.
  intros Ha Hx. unfold merge_step, dedupe_step. simpl.
  rewrite find_same_id_objs by assumption. simpl.
  destruct (List.find (λ s, same_id s x) acc) as [s|] eqn:Hfind.
  - apply find_some in Hfind as [Hin Hs].
    assert (is_obj s) as [os ->].
    { rewrite Forall_forall in Ha. apply Ha, list_elem_of_In, Hin. }
    simpl. replace (existsb (λ s, same_id s x) acc) with true; [reflexivity|].
    symmetry. apply existsb_exists. eauto.
  - replace (existsb (λ s, same_id s x) acc) with false.
    + destruct Hx as [o ->]. reflexivity.
    + symmetry. apply not_true_is_false. intros He.
      apply existsb_exists in He as (s & Hin & Hs).
      eapply find_none in Hfind; [|exact Hin]. simpl in Hfind. congruence.
Qed.

Lemma dedupe_step_objs acc x :
  Forall is_obj acc → is_obj x → Forall is_obj (dedupe_step acc x).
Proof.
  intros Ha Hx. unfold dedupe_step.
  destruct (existsb _ acc); [assumption|].
  apply Forall_app. split; [assumption|]. by constructor.
Qed.

Lemma merge_objs l : ∀ acc,
  Forall is_obj acc → Forall is_obj l →
  fold_left merge_step l (Some acc) = Some (dedupe_from acc l).
Proof.
  induction l as [|x l IH]; intros acc Ha Hl; [reflexivity|].
  inversion Hl; subst. cbn [fold_left].
  change (dedupe_from acc (x :: l)) with (dedupe_from (dedupe_step acc x) l).
  rewrite merge_step_objs by assumption.
  apply IH; [by apply dedupe_step_objs|assumption].
Qed.

Lemma existsb_same_id_false acc x :
  existsb (λ s, same_id s x) acc = false →
  ∀ a, a ∈ acc → same_id a x = false.
Proof.
  intros He a Ha. apply not_true_is_false. intros Hs.
  assert (existsb (λ s, same_id s x) acc = true); [|congruence].
  apply existsb_exists. exists a. split; [by apply list_elem_of_In|exact Hs].
Qed.

(** What first-seen-wins keeps of [l] after [acc]: a sublist of [l] with
    pairwise distinct ids, none of them an id of [acc], and every item of
    [l] is kept or has its id among the items kept. *)
Lemma dedupe_from_spec l : ∀ acc, ∃ l2,
  dedupe_from acc l = (acc ++ l2)%list
  ∧ sublist l2 l
  ∧ distinct_ids l2
  ∧ (∀ a x, a ∈ acc → x ∈ l2 → same_id a x = false)
  ∧ (∀ s, s ∈ l → ∃ x, x ∈ (acc ++ l2)%list ∧ (x = s ∨ same_id x s = true)).
Proof.
  induction l as [|x l IH]; intros acc.
  - exists []. rewrite app_nil_r. repeat split; try constructor.
    + intros a y _ Hy. inversion Hy.
    + intros s Hs. inversion Hs.
  - change (dedupe_from acc (x :: l)) with (dedupe_from (dedupe_step acc x) l).
    unfold dedupe_step. destruct (existsb (λ s, same_id s x) acc) eqn:He.
    + destruct (IH acc) as (l2 & Heq & Hsub & Hd & Hcross & Hrep).
      exists l2. repeat split; try assumption.
      * by apply sublist_cons.
      * intros s Hs. apply elem_of_cons in Hs as [->|Hs]; [|by apply Hrep].
        apply existsb_exists in He as (a & Ha & Hax).
        exists a. split; [|by right].
        apply elem_of_app. left. by apply list_elem_of_In.
    + destruct (IH (acc ++ [x])%list) as (l2 & Heq & Hsub & Hd & Hcross & Hrep).
      exists (x :: l2). rewrite Heq, <- app_assoc. repeat split.
      * by apply sublist_skip.
      * intros y Hy. apply Hcross; [|exact Hy]. set_solver.
      * exact Hd.
      * intros a y Ha Hy. apply elem_of_cons in Hy as [->|Hy].
        -- by eapply existsb_same_id_false.
        -- apply Hcross; [|exact Hy]. set_solver.
      * intros s Hs. apply elem_of_cons in Hs as [->|Hs].
        -- exists x. split; [set_solver|by left].
        -- destruct (Hrep s Hs) as (y & Hy & Hys).
           exists y. split; [|exact Hys].
           rewrite <- app_assoc in Hy. exact Hy.
Qed.

Lemma distinct_ids_app l1 l2 :
  distinct_ids l1 → distinct_ids l2 →
  (∀ a x, a ∈ l1 → x ∈ l2 → same_id a x = false) →
  distinct_ids (l1 ++ l2).
Proof.
  induction l1 as [|a l1 IH]; intros H1 H2 Hc; [exact H2|].
  destruct H1 as [Ha H1]. simpl. split.
  - intros y Hy. apply elem_of_app in Hy as [Hy|Hy]; [by apply Ha|].
    apply Hc; [set_solver|exact Hy].
  - apply IH; [assumption..|]. intros b x Hb Hx. apply Hc; [set_solver|exact Hx].
Qed.

Lemma distinct_ids_lookup l : distinct_ids l →
  ∀ i j x y, i ≠ j → l !! i = Some x → l !! j = Some y → same_id x y = false.
Proof.
  induction l as [|a l IH]; intros Hd i j x y Hij Hi Hj; [discriminate|].
  destruct Hd as [Ha Hd]. destruct i as [|i], j as [|j]; simpl in Hi, Hj.
  - congruence.
  - injection Hi as <-. apply Ha. eapply list_elem_of_lookup_2, Hj.
  - injection Hj as <-. rewrite same_id_sym. apply Ha.
    eapply list_elem_of_lookup_2, Hi.
  - eapply (IH Hd i j); [congruence|eassumption..].
Qed.

(** Each entry that first-seen-wins keeps is the first item of [l] with
    its id, and no item of [acc] has that id. *)
Lemma dedupe_from_first l : ∀ acc l2,
  dedupe_from acc l = (acc ++ l2)%list →
  ∀ x, x ∈ l2 →
    (∀ a, a ∈ acc → same_id a x = false)
    ∧ ∃ pre post, l = (pre ++ x :: post)%list
                  ∧ ∀ y, y ∈ pre → same_id y x = false.
Proof.
  induction l as [|y l IH]; intros acc l2 Heq x Hx.
  - change (dedupe_from acc []) with acc in Heq.
    rewrite <- (app_nil_r acc) in Heq at 1. apply app_inv_head in Heq.
    subst l2. inversion Hx.
  - change (dedupe_from acc (y :: l)) with (dedupe_from (dedupe_step acc y) l)
      in Heq.
    unfold dedupe_step in Heq.
    destruct (existsb (λ s, same_id s y) acc) eqn:He.
    + destruct (IH acc l2 Heq x Hx) as (Hcross & pre & post & Hl & Hpre).
      split; [exact Hcross|]. exists (y :: pre), post.
      split; [by rewrite Hl|].
      intros z Hz. apply elem_of_cons in Hz as [->|Hz]; [|by apply Hpre].
      apply existsb_exists in He as (a & Ha & Hay).
      rewrite <- (same_id_true a y x Hay). apply Hcross.
      by apply list_elem_of_In.
    + destruct (dedupe_from_spec l (acc ++ [y])) as (l2' & Heq' & _).
      rewrite Heq', <- app_assoc in Heq. apply app_inv_head in Heq.
      simpl in Heq. subst l2.
      apply elem_of_cons in Hx as [->|Hx].
      * split; [by apply existsb_same_id_false|].
        exists [], l. split; [reflexivity|]. intros z Hz. inversion Hz.
      * destruct (IH (acc ++ [y])%list l2' Heq' x Hx)
          as (Hcross & pre & post & Hl & Hpre).
        split; [intros a Ha; apply Hcross, elem_of_app; by left|].
        exists (y :: pre), post. split; [by rewrite Hl|].
        intros z Hz. apply elem_of_cons in Hz as [->|Hz]; [|by apply Hpre].
        apply Hcross, elem_of_app. right. by left.
Qed.

(** ** The two listings side by side *)

Section Metadata.

Context {engine : Engine}.
Variable cfg : config.

Implicit Types (w : world) (g : games) (f : value → option bool) (k : walk).

Lemma then_filter_inv f r x :
  then_filter f r = Fulfilled x →
  ∃ listed kept, r = Fulfilled (VArr listed) ∧ x = VArr kept
                 ∧ filterM f listed = Some kept.
Proof.
  destruct r as [[]| |]; simpl; try discriminate.
  destruct (filterM f l) as [kept|] eqn:Hf; [|discriminate].
  intros [= <-]. eauto.
Qed.

Lemma filtered_inv f res l w' :
  (∀ x, f x = Some true → is_obj x) →
  filtered f res = Some (Fulfilled (VArr l), w') →
  Forall is_obj l.
Proof.
  intros Hf. unfold filtered. destruct res as [[r w]|]; [|discriminate]. simpl.
  intros [= Hr <-]. apply then_filter_inv in Hr as (listed & kept & _ & [= <-] & Hk).
  eapply filterM_spec; eassumption.
Qed.

(** A walk on a page that makes it go on, and on the page it ends
    with. *)
Lemma walk_reply_more g f req streams w p rest :
  net w = page_reply p :: rest →
  continues (Streams g) p = true →
  walk_reply cfg g f (Waiting req streams) w
  = (Waiting (with_auth (streams_request g (p_cursor p)) w)
             (streams ++ p_data p),
     fetched cfg [page_request (Streams g) (p_cursor p)] rest w).
Proof.
  intros Hn Hc. unfold walk_reply. erewrite receive_ok by exact Hn.
  unfold streams_page. rewrite page_body_data, page_body_pagination.
  cbn [truthy negb get]. unfold prop. rewrite lookup_insert_eq.
  cbn [default from_option]. unfold id. cbn [js_length].
  simpl in Hc. rewrite Hc. reflexivity.
Qed.

Lemma walk_reply_last g f req streams w p rest :
  net w = page_reply p :: rest →
  continues (Streams g) p = false →
  walk_reply cfg g f (Waiting req streams) w
  = (Settled (then_filter f (Fulfilled (VArr (streams ++ p_data p)))),
     set_net rest w).
Proof.
  intros Hn Hc. unfold walk_reply. erewrite receive_ok by exact Hn.
  unfold streams_page. rewrite page_body_data, page_body_pagination.
  cbn [truthy negb get]. unfold prop. rewrite lookup_insert_eq.
  cbn [default from_option]. unfold id. cbn [js_length].
  simpl in Hc. rewrite Hc. reflexivity.
Qed.

(** A walk fulfils only with what its filter kept of a listing. *)
Lemma walk_reply_kept g f k w :
  listed_by f k → listed_by f (fst (walk_reply cfg g f k w)).
Proof.
  intros Hk. destruct k as [req streams|r]; [|exact Hk].
  unfold walk_reply. destruct (receive cfg req 1 w) as [r w1].
  destruct r as [v| |]; try exact I.
  destruct (streams_page streams v) as [c newStreams|r]; [exact I|].
  cbn [fst listed_by]. destruct (then_filter f r) as [x| |] eqn:Hx; try exact I.
  apply then_filter_inv in Hx as (listed & kept & _ & -> & Hf). eauto.
Qed.

Lemma both_fulfilled_dec a b : both_fulfilled a b ∨ ¬ both_fulfilled a b.
Proof.
  destruct a as [?|[x| |]], b as [?|[y| |]];
    try (right; intros (x' & y' & Ha & Hb); discriminate).
  left. by exists x, y.
Qed.

Lemma all_streams_done g f1 f2 fuel x y w :
  all_streams cfg fuel g f1 f2 (Settled (Fulfilled x)) (Settled (Fulfilled y)) w
  = Some (Fulfilled (VArr [x; y]), w).
Proof. destruct fuel; reflexivity. Qed.

Lemma all_streams_round g f1 f2 fuel a b w :
  ¬ both_fulfilled a b →
  all_streams cfg (S fuel) g f1 f2 a b w
  = match round cfg g f1 f2 a b w with
    | AllSettled r w => Some (r, w)
    | NextRound a b w => all_streams cfg fuel g f1 f2 a b w
    end.
Proof.
  intros Hnot. destruct a as [?|[x| |]], b as [?|[y| |]]; try reflexivity.
  destruct Hnot. by exists x, y.
Qed.

Lemma all_streams_no_fuel g f1 f2 a b w :
  ¬ both_fulfilled a b → all_streams cfg 0 g f1 f2 a b w = None.
Proof.
  intros Hnot. destruct a as [?|[x| |]], b as [?|[y| |]]; try reflexivity.
  destruct Hnot. by exists x, y.
Qed.

(** A round fulfils nothing by itself, and the walks it hands on have
    fulfilled only with what their filters kept. *)
Lemma round_inv g f1 f2 a b w :
  listed_by f1 a → listed_by f2 b →
  match round cfg g f1 f2 a b w with
  | AllSettled r _ => r = Rejected ∨ r = Pending
  | NextRound a' b' _ => listed_by f1 a' ∧ listed_by f2 b'
  end.
Proof.
  intros Ha Hb. unfold round.
  pose proof (walk_reply_kept g f1 a w Ha) as Ha'.
  destruct (walk_reply cfg g f1 a w) as [a' w1]. cbn [fst] in Ha'.
  pose proof (walk_reply_kept g f2 b w1 Hb) as Hb'.
  destruct (walk_reply cfg g f2 b w1) as [b' w2]. cbn [fst] in Hb'.
  destruct a' as [?|[?| |]]; auto; destruct b' as [?|[?| |]]; auto.
Qed.

(** When [Promise.all] fulfils, it does so with what the two filters
    kept of two listings. *)
Lemma all_streams_inv g f1 f2 fuel : ∀ a b w v w',
  listed_by f1 a → listed_by f2 b →
  all_streams cfg fuel g f1 f2 a b w = Some (Fulfilled v, w') →
  ∃ l1 l2 tagged kw,
    v = VArr [VArr tagged; VArr kw]
    ∧ filterM f1 l1 = Some tagged ∧ filterM f2 l2 = Some kw.
Proof.
  induction fuel as [|fuel IH]; intros a b w v w' Ha Hb H;
    (destruct (both_fulfilled_dec a b) as [(x & y & -> & ->)|Hnot];
     [rewrite all_streams_done in H; injection H as <- <-;
      destruct Ha as (l1 & tagged & -> & H1), Hb as (l2 & kw & -> & H2);
      exists l1, l2, tagged, kw; auto|]).
  - rewrite all_streams_no_fuel in H by exact Hnot. discriminate.
  - rewrite all_streams_round in H by exact Hnot.
    pose proof (round_inv g f1 f2 a b w Ha Hb) as Hr.
    destruct (round cfg g f1 f2 a b w) as [r w1|a' b' w1].
    + injection H as -> <-. destruct Hr; discriminate.
    + destruct Hr as [Ha' Hb']. eapply IH; eassumption.
Qed.

Lemma getStreamsByMetadata_inv fuel g tagIds keywords w l w' :
  getStreamsByMetadata cfg fuel g tagIds keywords w = Some (Fulfilled (VArr l), w') →
  ∃ l1 l2 tagged kw,
    listings cfg fuel g tagIds keywords w
    = Some (Fulfilled (VArr [VArr tagged; VArr kw]), w')
    ∧ filterM (tag_match tagIds) l1 = Some tagged
    ∧ filterM (keyword_match keywords) l2 = Some kw
    ∧ mergeStreams tagged kw = Some l.
Proof.
  unfold getStreamsByMetadata. intros H.
  destruct (listings cfg fuel g tagIds keywords w) as [[r w1]|] eqn:Hl;
    [|discriminate].
  simpl in H. destruct r as [v| |]; try discriminate.
  pose proof Hl as Hinv. unfold listings in Hinv.
  apply all_streams_inv in Hinv as (l1 & l2 & tagged & kw & -> & H1 & H2);
    [|exact I..].
  destruct (mergeStreams tagged kw) as [m|] eqn:Hm; [|discriminate].
  injection H as <- <-. exists l1, l2, tagged, kw. auto.
Qed.

(** The merge of two filtered listings never throws: it is
    first-seen-wins over tag results followed by keyword results. *)
Lemma mergeStreams_filtered tagIds keywords l1 l2 tagged kw :
  filterM (tag_match tagIds) l1 = Some tagged →
  filterM (keyword_match keywords) l2 = Some kw →
  mergeStreams tagged kw = Some (dedupe_from [] (tagged ++ kw)).
Proof.
  intros H1 H2. unfold mergeStreams.
  rewrite merge_objs; [reflexivity|constructor|].
  apply Forall_app. split.
  - eapply filterM_spec; [apply tag_match_obj|exact H1].
  - eapply filterM_spec; [apply keyword_match_obj|exact H2].
Qed.

(** ** C5 (as amended) *)

(** C5, amended.  Whenever [getStreamsByMetadata] delivers a list, it is
    first-seen-wins, by the [id] property that line 193 compares with
    [===], over what the tag filter kept of its listing followed by what
    the keyword filter kept of its own: the kept tag matches, then the
    kept keyword matches, each in their order; no two entries have the
    same id; every stream that passed a filter is in the list or has its
    id in it; every entry is the first item with its id in the
    concatenation; and a keyword match is kept only when no tag match
    has its id, so for an id matched by both filters the one entry is a
    tag-matched copy. *)
Theorem getStreamsByMetadata_dedup fuel g tagIds keywords w l w' :
  getStreamsByMetadata cfg fuel g tagIds keywords w
  = Some (Fulfilled (VArr l), w') →
  ∃ listed1 listed2 tagged kw l1 l2,
    listings cfg fuel g tagIds keywords w
    = Some (Fulfilled (VArr [VArr tagged; VArr kw]), w')
    ∧ filterM (tag_match tagIds) listed1 = Some tagged
    ∧ filterM (keyword_match keywords) listed2 = Some kw
    ∧ l = (l1 ++ l2)%list ∧ sublist l1 tagged ∧ sublist l2 kw
    ∧ (∀ i j x y, i ≠ j → l !! i = Some x → l !! j = Some y →
                  same_id x y = false)
    ∧ (∀ s, s ∈ (tagged ++ kw)%list →
            ∃ x, x ∈ l ∧ (x = s ∨ same_id x s = true))
    ∧ (∀ x, x ∈ l →
            ∃ pre post, (tagged ++ kw)%list = (pre ++ x :: post)%list
                        ∧ ∀ y, y ∈ pre → same_id y x = false)
    ∧ (∀ t x, t ∈ tagged → x ∈ l2 → same_id t x = false).
Proof.
  intros H.
  apply getStreamsByMetadata_inv in H
    as (listed1 & listed2 & tagged & kw & Hl & Hf1 & Hf2 & Hm).
  rewrite (mergeStreams_filtered _ _ _ _ _ _ Hf1 Hf2) in Hm.
  injection Hm as <-.
  pose proof (dedupe_from_first (tagged ++ kw) [] (dedupe_from [] (tagged ++ kw))
                eq_refl) as Hfirst.
  change (dedupe_from [] (tagged ++ kw))
    with (fold_left dedupe_step (tagged ++ kw) []) in Hfirst |- *.
  rewrite fold_left_app in Hfirst |- *.
  change (fold_left dedupe_step tagged []) with (dedupe_from [] tagged)
    in Hfirst |- *.
  destruct (dedupe_from_spec tagged []) as (l1 & E1 & S1 & D1 & _ & R1).
  rewrite E1 in Hfirst |- *. simpl in R1, Hfirst |- *.
  change (fold_left dedupe_step kw l1) with (dedupe_from l1 kw) in Hfirst |- *.
  destruct (dedupe_from_spec kw l1) as (l2 & E2 & S2 & D2 & C2 & R2).
  rewrite E2 in Hfirst |- *.
  exists listed1, listed2, tagged, kw, l1, l2. repeat split; try assumption.
  - apply distinct_ids_lookup, distinct_ids_app; assumption.
  - intros s Hs. apply elem_of_app in Hs as [Hs|Hs]; [|by apply R2].
    destruct (R1 s Hs) as (x & Hx & Hxs). exists x. split; [|exact Hxs].
    apply elem_of_app. by left.
  - intros x Hx. by apply Hfirst.
  - intros t x Ht' Hx. destruct (R1 t Ht') as (r & Hr & [->|Hrt]).
    + by apply C2.
    + rewrite <- (same_id_true r t x Hrt). by apply C2.
Qed.

End Metadata.

(** ** The theorems at concrete inputs *)

Section Concrete.

#[local] Existing Instance ascii_engine.

(** The tag listing has two pages, the keyword listing one.  The three
    requests are the two first pages and then the second page of the tag
    listing, so the second reply is the page of the keyword listing.
    Stream 1, a hundred times in the tag listing and once more in the
    keyword listing, is listed once, as the first copy the tag listing
    delivered; stream 2 comes from the tag filter, stream 3 from the
    keyword filter. *)
Lemma getStreamsByMetadata_dedup_witness :
  let g := GameOne "g1" in
  let l := [stream "1" "10" "Any% run" ["tag-x"];
            stream "2" "20" "chill" ["tag-x"];
            stream "3" "30" "ANY% practice" []] in
  getStreamsByMetadata cfg0 2 g ["tag-x"] ["any%"] w_side_by_side
  = Some (Fulfilled (VArr l),
          fetched cfg0 [page_request (Streams g) VUndefined;
                        page_request (Streams g) VUndefined;
                        page_request (Streams g) (VStr "c1")] [] w_side_by_side)
  ∧ ∃ listed1 listed2 tagged kw l1 l2,
      listings cfg0 2 g ["tag-x"] ["any%"] w_side_by_side
      = Some (Fulfilled (VArr [VArr tagged; VArr kw]),
              fetched cfg0 [page_request (Streams g) VUndefined;
                            page_request (Streams g) VUndefined;
                            page_request (Streams g) (VStr "c1")] [] w_side_by_side)
      ∧ filterM (tag_match ["tag-x"]) listed1 = Some tagged
      ∧ filterM (keyword_match ["any%"]) listed2 = Some kw
      ∧ l = (l1 ++ l2)%list ∧ sublist l1 tagged ∧ sublist l2 kw
      ∧ (∀ i j x y, i ≠ j → l !! i = Some x → l !! j = Some y →
                    same_id x y = false)
      ∧ (∀ s, s ∈ (tagged ++ kw)%list →
              ∃ x, x ∈ l ∧ (x = s ∨ same_id x s = true))
      ∧ (∀ x, x ∈ l →
              ∃ pre post, (tagged ++ kw)%list = (pre ++ x :: post)%list
                          ∧ ∀ y, y ∈ pre → same_id y x = false)
      ∧ (∀ t x, t ∈ tagged → x ∈ l2 → same_id t x = false).
Proof.
  intros g l.
  assert (getStreamsByMetadata cfg0 2 g ["tag-x"] ["any%"] w_side_by_side
          = Some (Fulfilled (VArr l),
                  fetched cfg0 [page_request (Streams g) VUndefined;
                                page_request (Streams g) VUndefined;
                                page_request (Streams g) (VStr "c1")] []
                          w_side_by_side)) as H
    by (vm_compute; reflexivity).
  split; [exact H|].
  exact (getStreamsByMetadata_dedup cfg0 2 g ["tag-x"] ["any%"] w_side_by_side
           l _ H).
Defined.

(** C5, as stated, fails: the merge compares the [id] of the stream, not
    the id of the channel.  Channel 10 is listed under stream id [s1] by
    the tag listing and under [s2] by the keyword listing; both entries
    are in the result, so the channel id occurs twice. *)
Lemma getStreamsByMetadata_lists_channel_twice :
  let a := stream "s1" "10" "Any% run" ["tag-x"] in
  let b := stream "s2" "10" "Any% run" ["tag-x"] in
  fst <$> getStreamsByMetadata cfg0 2 (GameOne "g1") ["tag-x"] ["any%"] w_restarted
  = Some (Fulfilled (VArr [a; b]))
  ∧ get a "user_id" = Some (VStr "10") ∧ get b "user_id" = Some (VStr "10")
  ∧ get a "id" = Some (VStr "s1") ∧ get b "id" = Some (VStr "s2").
Proof. vm_compute. repeat split. Qed.

End Concrete.

End ListingProofs.
(** * Properties of the stream lifecycle *)

Module StreamProofs.

Import Stream StreamScenario.

Section Lifecycle.

Context {engine : Engine}.
Variable cfg : config.
Variable newStreamAlert : obj → bool.
Variable clock : nat → Z.
Variable dH dM : Z → value → num.

Implicit Types (stream upd : obj) (w : world).

Lemma merged_offline_since stream upd :
  prop (merged stream upd) "offline_since" = prop stream "offline_since".
Proof. unfold merged, prop. rewrite lookup_insert_eq. reflexivity. Qed.

Lemma merged_lastShoutOut stream upd :
  prop (merged stream upd) "lastShoutOut" = prop stream "lastShoutOut".
Proof.
  unfold merged, prop. rewrite lookup_insert_ne by discriminate.
  rewrite lookup_insert_eq. reflexivity.
Qed.

Lemma merged_isLive stream upd :
  prop (merged stream upd) "isLive" = VBool true.
Proof.
  unfold merged, prop. rewrite !lookup_insert_ne by discriminate.
  rewrite lookup_insert_eq. reflexivity.
Qed.

(** The observation decides every property but the five that
    [convertToDStream] and line 124 set. *)
Lemma merged_observed stream upd k v :
  upd !! k = Some v →
  k ≠ "id" → k ≠ "isLive" → k ≠ "lastShoutOut" → k ≠ "stream_id" →
  k ≠ "offline_since" →
  prop (merged stream upd) k = v.
Proof.
  intros Hk ? ? ? ? ?. unfold merged, prop, spread, convertToDStream.
  rewrite !lookup_insert_ne by congruence.
  erewrite lookup_union_Some_l; [reflexivity|].
  rewrite !lookup_insert_ne by congruence.
  rewrite lookup_delete_ne by congruence. exact Hk.
Qed.

(** [goneLive], branch by branch. *)
Lemma goneLive_cases stream upd w :
  goneLive cfg newStreamAlert clock dH dM stream upd w
  = let m := merged stream upd in
    let w1 := timed stream w in
    if reconnect_blip cfg (offlineSinceMinutes clock dM stream w)
    then update m None (subscribeToStream cfg m w1)
    else if already_shouted cfg (lastShoutOutAgeHours clock dH stream w) m
    then update m None (subscribeToStream cfg m w1)
    else let '(m', w2) := try_alert cfg newStreamAlert clock m w1 in
         update m' None (subscribeToStream cfg m' w2).
Proof.
  unfold goneLive, offlineSinceMinutes, lastShoutOutAgeHours, timed.
  rewrite merged_offline_since, merged_lastShoutOut.
  cbn [new_Date reads].
  destruct (prop stream "offline_since");
    cbn [reconnect_blip api writes alerts reads];
    repeat match goal with
           | |- context [if ?b then _ else _] => destruct b
           end; reflexivity.
Qed.

(** The tail of both [goneLive] and [addNew]: subscribe, then write. *)
Lemma update_after_subscribe m w :
  let w' := update m None (subscribeToStream cfg m w) in
  alerts w' = alerts w
  ∧ writes w' = (writes w ++ [Update m (prop m "user_id")])%list
  ∧ reads w' = reads w
  ∧ subscribed cfg (prop m "user_id") w w'.
Proof. repeat split. Qed.

Lemma create_after_subscribe m w :
  let w' := create m (subscribeToStream cfg m w) in
  alerts w' = alerts w
  ∧ writes w' = (writes w ++ [Insert (convertToDStream m)])%list
  ∧ reads w' = reads w
  ∧ subscribed cfg (prop m "user_id") w w'.
Proof. repeat split. Qed.

Lemma try_alert_failed m w :
  alertStream cfg newStreamAlert m w = (false, w) →
  try_alert cfg newStreamAlert clock m w = (m, w).
Proof. intros H. unfold try_alert. rewrite H. reflexivity. Qed.

(** [alertStream] either leaves the world alone or hands the stream to
    the notifier. *)
Lemma alertStream_world m w :
  snd (alertStream cfg newStreamAlert m w) = w
  ∨ snd (alertStream cfg newStreamAlert m w) = notify m w.
Proof.
  unfold alertStream. destruct (prop m "title"); auto.
  destruct (keyword_hit cfg s); auto.
  destruct (tag_hit cfg (prop m "tag_ids")) as [[]|]; auto.
  destruct (user_hit cfg (prop m "user_id")); auto.
Qed.

(** A suppressed alert: rules 1 and 2 of [goneLive]. *)
Lemma goneLive_suppressed stream upd w :
  reconnect_blip cfg (offlineSinceMinutes clock dM stream w) = true
  ∨ already_shouted cfg (lastShoutOutAgeHours clock dH stream w)
                    (merged stream upd) = true →
  goneLive cfg newStreamAlert clock dH dM stream upd w
  = update (merged stream upd) None
           (subscribeToStream cfg (merged stream upd) (timed stream w)).
Proof.
  intros H. rewrite goneLive_cases. cbv zeta.
  destruct (reconnect_blip cfg _); [reflexivity|].
  destruct H as [H|H]; [discriminate|]. rewrite H. reflexivity.
Qed.

(** An attempted alert: rule 3. *)
Lemma goneLive_attempted stream upd w :
  reconnect_blip cfg (offlineSinceMinutes clock dM stream w) = false →
  already_shouted cfg (lastShoutOutAgeHours clock dH stream w)
                  (merged stream upd) = false →
  goneLive cfg newStreamAlert clock dH dM stream upd w
  = let '(m, w1) := try_alert cfg newStreamAlert clock (merged stream upd)
                              (timed stream w) in
    update m None (subscribeToStream cfg m w1).
Proof.
  intros H1 H2. rewrite goneLive_cases. cbv zeta. rewrite H1, H2. reflexivity.
Qed.

(** Whatever the rule, a failed alert leaves the same trace as a
    suppressed one. *)
Lemma goneLive_no_alert stream upd w :
  (∀ w1, alertStream cfg newStreamAlert (merged stream upd) w1 = (false, w1)) →
  goneLive cfg newStreamAlert clock dH dM stream upd w
  = update (merged stream upd) None
           (subscribeToStream cfg (merged stream upd) (timed stream w)).
Proof.
  intros Hfail. rewrite goneLive_cases. cbv zeta.
  destruct (reconnect_blip cfg _); [reflexivity|].
  destruct (already_shouted cfg _ _); [reflexivity|].
  rewrite try_alert_failed by apply Hfail. reflexivity.
Qed.

Lemma addNew_no_alert stream w :
  alertStream cfg newStreamAlert (fresh stream) w = (false, w) →
  addNew cfg newStreamAlert clock stream w
  = create (fresh stream) (subscribeToStream cfg (fresh stream) w).
Proof.
  intros Hfail. unfold addNew. rewrite try_alert_failed by exact Hfail.
  reflexivity.
Qed.

Lemma fresh_prop stream k :
  k ≠ "offline_since" → k ≠ "lastShoutOut" → k ≠ "isLive" →
  prop (fresh stream) k = prop stream k.
Proof.
  intros. unfold fresh, prop. rewrite !lookup_insert_ne by congruence.
  reflexivity.
Qed.

Lemma convert_fresh_isLive stream :
  prop (convertToDStream (fresh stream)) "isLive" = VBool true
  ∧ prop (convertToDStream (fresh stream)) "lastShoutOut" = VNull
  ∧ prop (convertToDStream (fresh stream)) "offline_since" = VNull.
Proof.
  unfold convertToDStream, fresh, prop. repeat split.
  - rewrite !lookup_insert_ne by discriminate. rewrite lookup_insert_eq.
    rewrite !lookup_insert_ne by discriminate. rewrite lookup_insert_eq.
    reflexivity.
  - rewrite !lookup_insert_ne by discriminate. rewrite lookup_insert_eq.
    rewrite !lookup_insert_ne by discriminate. rewrite lookup_insert_eq.
    reflexivity.
  - rewrite lookup_insert_eq. rewrite lookup_insert_eq. reflexivity.
Qed.

Lemma prop_Some (o : obj) k v : prop o k = v → v ≠ VUndefined → o !! k = Some v.
Proof.
  unfold prop. destruct (o !! k); simpl; intros; congruence.
Qed.

(** ** The blacklist *)

Lemma blacklisted_rejected m w :
  blacklisted cfg m → alertStream cfg newStreamAlert m w = (false, w).
Proof.
  intros Hb. unfold alertStream.
  destruct (prop m "title") as [| | | |t| | |] eqn:Ht; try reflexivity.
  destruct (keyword_hit cfg t) eqn:Hk; [reflexivity|].
  destruct (tag_hit cfg (prop m "tag_ids")) as [[]|] eqn:Hg; try reflexivity.
  destruct (user_hit cfg (prop m "user_id")) eqn:Hu; [reflexivity|].
  exfalso. destruct Hb as [(t' & kw & Ht' & Hne & Hkw & Hinc)
                          |[(l & tag & Hl & Htag & Hbl)|(u & Hu' & Hne & Hbl)]].
  - rewrite Ht in Ht'. injection Ht' as <-. unfold keyword_hit in Hk.
    apply andb_false_iff in Hk as [Hk|Hk].
    + simpl in Hk. apply negb_false_iff, String.eqb_eq in Hk. contradiction.
    + assert (existsb (λ kw, includes (toLowerCase t) (toLocaleLowerCase kw))
                      (bl_keywords (blacklist cfg)) = true); [|congruence].
      apply existsb_exists. exists kw. split; [by apply list_elem_of_In|exact Hinc].
  - rewrite Hl in Hg. unfold tag_hit in Hg. simpl in Hg.
    destruct (bl_tagIds (blacklist cfg)) as [|b bs] eqn:Hbs; [inversion Hbl|].
    injection Hg as Hg.
    assert (existsb (λ tag, arr_includes l (VStr tag)) (b :: bs) = true)
      as Hex; [|simpl in Hex; congruence].
    apply existsb_exists. exists tag. split; [by apply list_elem_of_In|].
    unfold arr_includes. apply existsb_exists. exists (VStr tag).
    split; [by apply list_elem_of_In|]. simpl. apply String.eqb_refl.
  - rewrite Hu' in Hu. unfold user_hit in Hu.
    apply andb_false_iff in Hu as [Hu|Hu].
    + simpl in Hu. apply negb_false_iff, String.eqb_eq in Hu. contradiction.
    + assert (str_in u (bl_userIds (blacklist cfg)) = true); [|congruence].
      apply existsb_exists. exists u.
      split; [by apply list_elem_of_In|apply String.eqb_refl].
Qed.

Lemma blacklisted_fresh stream :
  blacklisted cfg stream → blacklisted cfg (fresh stream).
Proof.
  unfold blacklisted. rewrite !fresh_prop by discriminate. auto.
Qed.

Lemma blacklisted_merged rec upd :
  blacklisted cfg upd → blacklisted cfg (merged rec upd).
Proof.
  intros [(t & kw & Ht & H)|[(l & tag & Hl & H)|(u & Hu & H)]].
  - left. exists t, kw. split; [|exact H].
    apply merged_observed; [|discriminate..]. by apply prop_Some.
  - right; left. exists l, tag. split; [|exact H].
    apply merged_observed; [|discriminate..]. by apply prop_Some.
  - right; right. exists u. split; [|exact H].
    apply merged_observed; [|discriminate..]. by apply prop_Some.
Qed.

(** C7, amended.  For a stream whose non-empty title, put in lower case
    by the engine ([toLowerCase]), contains a blacklisted keyword put in
    lower case under the locale of the host ([toLocaleLowerCase]), or
    one of whose tags is blacklisted, or whose non-empty channel id is
    among the blacklisted users, the notifier is not called, neither by
    [addNew] nor by [goneLive]; the record is still inserted, or
    updated, as live and the subscription to the channel is still made.
    This holds for every engine and every host locale. *)
Theorem blacklisted_stream_never_alerted stream rec upd w1 w2 :
  blacklisted cfg stream →
  blacklisted cfg upd →
  let new := addNew cfg newStreamAlert clock stream w1 in
  let live := goneLive cfg newStreamAlert clock dH dM rec upd w2 in
  let row := merged rec upd in
  (alerts new = alerts w1
   ∧ writes new = (writes w1 ++ [Insert (convertToDStream (fresh stream))])%list
   ∧ prop (convertToDStream (fresh stream)) "isLive" = VBool true
   ∧ subscribed cfg (prop stream "user_id") w1 new)
  ∧ (alerts live = alerts w2
     ∧ writes live = (writes w2 ++ [Update row (prop row "user_id")])%list
     ∧ prop row "isLive" = VBool true
     ∧ subscribed cfg (prop row "user_id") w2 live).
Proof.
  intros Hs Hu new live row. split.
  - subst new. rewrite addNew_no_alert
      by (apply blacklisted_rejected, blacklisted_fresh, Hs).
    destruct (create_after_subscribe (fresh stream) w1) as (Ha & Hw & _ & Hsub).
    rewrite fresh_prop in Hsub by discriminate.
    repeat split; try assumption. apply convert_fresh_isLive.
  - subst live row. rewrite goneLive_no_alert
      by (intros; apply blacklisted_rejected, blacklisted_merged, Hu).
    destruct (update_after_subscribe (merged rec upd) (timed rec w2))
      as (Ha & Hw & _ & Hsub).
    repeat split; try assumption. apply merged_isLive.
Qed.

(** ** Streams without a title *)

Lemma titleless_rejected m w :
  nullish (prop m "title") = true →
  alertStream cfg newStreamAlert m w = (false, w).
Proof.
  intros Ht. unfold alertStream. destruct (prop m "title"); try reflexivity.
  discriminate.
Qed.

(** C10.  For a stream whose title is [null] or [undefined],
    [alertStream] rejects at the first log statement: no blacklist check
    is made and the notifier is not called.  [addNew] and [goneLive]
    catch the rejection: the notifier is not called, [lastShoutOut] stays
    [null] (for a new channel) or what the record had (for a known one),
    the channel is subscribed to and the record is written as live. *)
Theorem titleless_stream_never_alerted stream rec upd w1 w2 :
  nullish (prop stream "title") = true →
  nullish (prop (merged rec upd) "title") = true →
  let new := addNew cfg newStreamAlert clock stream w1 in
  let live := goneLive cfg newStreamAlert clock dH dM rec upd w2 in
  let row := merged rec upd in
  alertStream cfg newStreamAlert stream w1 = (false, w1)
  ∧ (alerts new = alerts w1
     ∧ writes new = (writes w1 ++ [Insert (convertToDStream (fresh stream))])%list
     ∧ prop (convertToDStream (fresh stream)) "isLive" = VBool true
     ∧ prop (convertToDStream (fresh stream)) "lastShoutOut" = VNull
     ∧ subscribed cfg (prop stream "user_id") w1 new)
  ∧ (alerts live = alerts w2
     ∧ writes live = (writes w2 ++ [Update row (prop row "user_id")])%list
     ∧ prop row "isLive" = VBool true
     ∧ prop row "lastShoutOut" = prop rec "lastShoutOut"
     ∧ subscribed cfg (prop row "user_id") w2 live).
Proof.
  intros Hs Hm new live row. split; [by apply titleless_rejected|]. split.
  - subst new. rewrite addNew_no_alert
      by (apply titleless_rejected; rewrite fresh_prop by discriminate; exact Hs).
    destruct (create_after_subscribe (fresh stream) w1) as (Ha & Hw & _ & Hsub).
    rewrite fresh_prop in Hsub by discriminate.
    destruct (convert_fresh_isLive stream) as (Hl & Hso & _).
    repeat split; assumption.
  - subst live row. rewrite goneLive_no_alert
      by (intros; apply titleless_rejected, Hm).
    destruct (update_after_subscribe (merged rec upd) (timed rec w2))
      as (Ha & Hw & _ & Hsub).
    repeat split; try assumption.
    + apply merged_isLive.
    + apply merged_lastShoutOut.
Qed.

(** The writes that mark a channel live or ended: [setLive] leaves the
    [offline_since] column alone, [setEnded] stamps it. *)
Lemma setLive_setEnded_writes userId w :
  writes (setLive userId w)
  = (writes w ++ [Update (<["isLive" := VBool true]> ∅) userId])%list
  ∧ (<["isLive" := VBool true]> ∅ : obj) !! "offline_since" = None
  ∧ writes (setEnded clock userId w)
    = (writes w ++ [Update (<["isLive" := VBool false]>
                              (<["offline_since" := VDate (clock (reads w))]> ∅))
                           userId])%list.
Proof. repeat split. Qed.

(** ** The suppression rules of [goneLive] *)

Lemma offlineSinceMinutes_not_null rec w n :
  offlineSinceMinutes clock dM rec w = Some n → prop rec "offline_since" ≠ VNull.
Proof.
  unfold offlineSinceMinutes. destruct (prop rec "offline_since"); congruence.
Qed.

(** C2, amended.  When a known channel is seen live and its persisted
    [offline_since] is less than [reconnect_minutes] ago, the notifier is
    not called and [lastShoutOut] is left as it was; the channel is
    subscribed to and the record is written as live, with
    [offline_since] left at its persisted value, which is not [null]. *)
Theorem goneLive_reconnect_blip rec upd w m :
  offlineSinceMinutes clock dM rec w = Some (Int m) →
  m < reconnect_minutes cfg →
  let row := merged rec upd in
  let live := goneLive cfg newStreamAlert clock dH dM rec upd w in
  alerts live = alerts w
  ∧ writes live = (writes w ++ [Update row (prop row "user_id")])%list
  ∧ subscribed cfg (prop row "user_id") w live
  ∧ prop row "isLive" = VBool true
  ∧ prop row "lastShoutOut" = prop rec "lastShoutOut"
  ∧ prop row "offline_since" = prop rec "offline_since"
  ∧ prop rec "offline_since" ≠ VNull.
Proof.
  intros Hm Hlt row live. subst live row.
  rewrite goneLive_suppressed.
  - destruct (update_after_subscribe (merged rec upd) (timed rec w))
      as (Ha & Hw & _ & Hsub).
    repeat split; try assumption.
    + apply merged_isLive.
    + apply merged_lastShoutOut.
    + apply merged_offline_since.
    + eapply offlineSinceMinutes_not_null, Hm.
  - left. rewrite Hm. simpl. apply Z.ltb_lt, Hlt.
Qed.

Lemma lastShoutOut_set m t k :
  k ≠ "lastShoutOut" → prop (<["lastShoutOut" := t]> m) k = prop m k.
Proof. intros. unfold prop. rewrite lookup_insert_ne by congruence. reflexivity. Qed.

(** The whitelist test of line 116 is membership of the channel id. *)
Lemma isWhitelisted_spec m : isWhitelisted cfg m = true ↔ whitelisted cfg m.
Proof.
  unfold isWhitelisted, whitelisted. split.
  - destruct (prop m "user_id") as [| | | |u| | |]; try discriminate.
    intros H. exists u. split; [reflexivity|].
    by apply ListingProofs.str_in_spec.
  - intros (u & -> & Hu). by apply ListingProofs.str_in_spec.
Qed.

(** Outside the reconnect window rule 1 does not match. *)
Lemma outside_reconnect_window rec w :
  match offlineSinceMinutes clock dM rec w with
  | Some (Int m) => reconnect_minutes cfg ≤ m
  | _ => True
  end →
  reconnect_blip cfg (offlineSinceMinutes clock dM rec w) = false.
Proof.
  destruct (offlineSinceMinutes clock dM rec w) as [[|m]|]; try reflexivity.
  intros H. simpl. by apply Z.ltb_ge.
Qed.

(** A stream the blacklist lets through is handed to the notifier. *)
Lemma passing_stream_notified m w :
  passes_blacklist cfg m →
  alertStream cfg newStreamAlert m w = (newStreamAlert m, notify m w).
Proof.
  intros ((t & Ht & Hkw) & Htags & Huser). unfold alertStream. rewrite Ht.
  assert (keyword_hit cfg t = false) as ->.
  { unfold keyword_hit. destruct Hkw as [->|Hkw]; [reflexivity|].
    apply andb_false_iff. right. apply not_true_is_false. intros He.
    apply existsb_exists in He as (kw & Hin & Hinc).
    rewrite (Hkw kw) in Hinc; [discriminate|by apply list_elem_of_In]. }
  assert (tag_hit cfg (prop m "tag_ids") = Some false) as ->.
  { unfold tag_hit. destruct Htags as [Hn|(l & -> & Hl)].
    - destruct (prop m "tag_ids"); try discriminate; reflexivity.
    - destruct (bl_tagIds (blacklist cfg)) as [|b bs] eqn:Hbs;
        [reflexivity|].
      change (Some (existsb (λ tag, arr_includes l (VStr tag)) (b :: bs))
              = Some false).
      f_equal. apply not_true_is_false. intros He.
      apply existsb_exists in He as (tag & Hin & Hinc).
      unfold arr_includes in Hinc.
      apply existsb_exists in Hinc as (y & Hy & Heq).
      apply ListingProofs.strict_eq_eq in Heq. subst y.
      apply (Hl tag); by apply list_elem_of_In. }
  assert (user_hit cfg (prop m "user_id") = false) as ->; [|reflexivity].
  unfold user_hit. destruct (prop m "user_id") as [| | | |u| | |] eqn:Hu;
    try reflexivity; try apply andb_false_r.
  destruct (Huser u eq_refl) as [->|Hnot]; [reflexivity|].
  apply andb_false_iff. right. apply not_true_is_false. intros He.
  by apply ListingProofs.str_in_spec in He.
Qed.

(** Rule 3 of [goneLive] on a stream the blacklist lets through: the
    notifier is called once, and [lastShoutOut] is the time read after a
    delivered alert. *)
Lemma goneLive_alerted rec upd w :
  reconnect_blip cfg (offlineSinceMinutes clock dM rec w) = false →
  already_shouted cfg (lastShoutOutAgeHours clock dH rec w)
                  (merged rec upd) = false →
  passes_blacklist cfg (merged rec upd) →
  let m := merged rec upd in
  let live := goneLive cfg newStreamAlert clock dH dM rec upd w in
  alerts live = (alerts w ++ [m])%list
  ∧ writes live
    = (writes w
       ++ [Update (if newStreamAlert m
                   then <["lastShoutOut" := VDate (clock (reads (timed rec w)))]> m
                   else m)
                  (prop m "user_id")])%list.
Proof.
  intros Hblip Hdue Hpass m live. subst live m.
  rewrite goneLive_attempted by assumption.
  unfold try_alert. rewrite passing_stream_notified by exact Hpass.
  destruct (newStreamAlert (merged rec upd)); cbn; [|auto].
  split; [reflexivity|]. by rewrite lastShoutOut_set by discriminate.
Qed.

(** C6.  When a known channel is seen live outside the reconnect window
    (it has no [offline_since], or the minutes since then are at least
    [reconnect_minutes] or not a number) and its last alert is less than
    [shoutout_hours] ago: if the channel id is not on the whitelist, the
    notifier is not called and the record is written with
    [lastShoutOut] as it was.  If it is on the whitelist, the alert is
    attempted: a stream that the blacklist lets through is handed to the
    notifier, once, and the record is written with [lastShoutOut] set to
    the time the clock shows after a delivered alert, and as it was
    after an alert that failed; a blacklisted stream is not handed to
    the notifier, whitelist or not. *)
Theorem goneLive_repeat_shoutout rec upd w h :
  match offlineSinceMinutes clock dM rec w with
  | Some (Int m) => reconnect_minutes cfg ≤ m
  | _ => True
  end →
  lastShoutOutAgeHours clock dH rec w = Int h →
  0 ≤ h < shoutout_hours cfg →
  let row := merged rec upd in
  let live := goneLive cfg newStreamAlert clock dH dM rec upd w in
  let now := clock (reads (timed rec w)) in
  (¬ whitelisted cfg row →
   alerts live = alerts w
   ∧ writes live = (writes w ++ [Update row (prop row "user_id")])%list
   ∧ prop row "isLive" = VBool true
   ∧ prop row "lastShoutOut" = prop rec "lastShoutOut")
  ∧ (whitelisted cfg row →
     (passes_blacklist cfg row →
      alerts live = (alerts w ++ [row])%list
      ∧ writes live
        = (writes w
           ++ [Update (if newStreamAlert row
                       then <["lastShoutOut" := VDate now]> row else row)
                      (prop row "user_id")])%list
      ∧ prop row "isLive" = VBool true)
     ∧ (blacklisted cfg row →
        alerts live = alerts w
        ∧ writes live = (writes w ++ [Update row (prop row "user_id")])%list)).
Proof.
  intros Hwin Hh [H0 Hlt] row live now. subst row live now.
  apply outside_reconnect_window in Hwin. split.
  - intros Hnot. rewrite goneLive_suppressed.
    + destruct (update_after_subscribe (merged rec upd) (timed rec w))
        as (Ha & Hw & _ & _).
      repeat split; try assumption.
      * apply merged_isLive.
      * apply merged_lastShoutOut.
    + right. rewrite Hh. unfold already_shouted.
      rewrite !andb_true_iff. repeat split.
      * apply Z.leb_le, H0.
      * apply Z.ltb_lt, Hlt.
      * apply negb_true_iff, not_true_is_false.
        intros Hw. by apply isWhitelisted_spec in Hw.
  - intros Hwl. apply isWhitelisted_spec in Hwl. split.
    + intros Hpass.
      destruct (goneLive_alerted rec upd w) as [Ha Hw]; try assumption.
      * rewrite Hh. unfold already_shouted. rewrite Hwl. apply andb_false_r.
      * repeat split; try assumption. apply merged_isLive.
    + intros Hbl. rewrite goneLive_no_alert
        by (intros; by apply blacklisted_rejected).
      destruct (update_after_subscribe (merged rec upd) (timed rec w))
        as (Ha & Hw & _ & _).
      split; assumption.
Qed.

(** A negative number of hours since the last alert never suppresses:
    outside the reconnect window the alert is attempted. *)
Lemma goneLive_negative_hours rec upd w h :
  reconnect_blip cfg (offlineSinceMinutes clock dM rec w) = false →
  lastShoutOutAgeHours clock dH rec w = Int h →
  h < 0 →
  goneLive cfg newStreamAlert clock dH dM rec upd w
  = let '(m, w1) := try_alert cfg newStreamAlert clock (merged rec upd)
                              (timed rec w) in
    update m None (subscribeToStream cfg m w1).
Proof.
  intros Hblip Hh Hneg. apply goneLive_attempted; [assumption|].
  rewrite Hh. unfold already_shouted.
  replace (0 <=? h) with false; [reflexivity|].
  symmetry. apply Z.leb_gt, Hneg.
Qed.

End Lifecycle.

(** ** C9 *)

(** C9.  [update(stream, update)] with an update argument writes its
    first argument as it is: the merged object only supplies the key of
    the [where] clause, so a property that only the update argument has
    is in the merged object and not in the row written. *)
Theorem update_writes_first_argument (stream u : obj) (w : world) :
  let updatedStream := spread stream (convertToDStream u) in
  let w' := update stream (Some u) w in
  writes w' = (writes w ++ [Update stream (prop updatedStream "user_id")])%list
  ∧ alerts w' = alerts w
  ∧ ∀ k v, stream !! k = None → convertToDStream u !! k = Some v →
           updatedStream !! k = Some v ∧ stream !! k = None.
Proof.
  repeat split; [|assumption].
  unfold spread. by apply lookup_union_Some_l.
Qed.

(** ** The theorems at concrete inputs *)

Section Concrete.

Import Scenario.

#[local] Existing Instance ascii_engine.

(** A channel that went offline 3 minutes ago, with
    [reconnect_minutes = 5]. *)
Lemma goneLive_reconnect_blip_witness :
  let rec := known (VDate (t0 - hours 30)) (VDate (t0 - minutes 3)) in
  let upd := observed "10" "Any% run" [] in
  let row := merged rec upd in
  let live := goneLive cfg0 delivers clock0 differenceInHours differenceInMinutes
                       rec upd w0 in
  alerts live = alerts w0
  ∧ writes live = (writes w0 ++ [Update row (prop row "user_id")])%list
  ∧ subscribed cfg0 (prop row "user_id") w0 live
  ∧ prop row "isLive" = VBool true
  ∧ prop row "lastShoutOut" = prop rec "lastShoutOut"
  ∧ prop row "offline_since" = prop rec "offline_since"
  ∧ prop rec "offline_since" ≠ VNull.
Proof.
  intros rec upd.
  apply (goneLive_reconnect_blip cfg0 delivers clock0 differenceInHours
           differenceInMinutes rec upd w0 3).
  - vm_compute. reflexivity.
  - vm_compute. reflexivity.
Defined.

(** C2, as stated, fails: in the scenario of the specification (offline
    for 3 minutes, [reconnect_minutes = 5]) no alert is made and the
    record is written as live, but its [offline_since] is the instant the
    channel went offline, not [null]. *)
Lemma goneLive_keeps_offline_since :
  let rec := known (VDate (t0 - hours 30)) (VDate (t0 - minutes 3)) in
  let upd := observed "10" "Any% run" [] in
  let live := goneLive cfg0 delivers clock0 differenceInHours differenceInMinutes
                       rec upd w0 in
  offlineSinceMinutes clock0 differenceInMinutes rec w0 = Some (Int 3)
  ∧ reconnect_minutes cfg0 = 5
  ∧ alerts live = []
  ∧ ∃ row key, writes live = [Update row key]
               ∧ prop row "isLive" = VBool true
               ∧ prop row "offline_since" = VDate (t0 - minutes 3)
               ∧ prop row "offline_since" ≠ VNull.
Proof.
  cbv zeta. split; [vm_compute; reflexivity|]. split; [reflexivity|].
  split; [vm_compute; reflexivity|].
  exists (merged (known (VDate (t0 - hours 30)) (VDate (t0 - minutes 3)))
                 (observed "10" "Any% run" [])), (VStr "10").
  vm_compute. repeat split; congruence.
Qed.

(** C3, at the input where it fails: the record says the channel went
    offline 10 minutes in the future.  The minutes since then are
    negative, hence below [reconnect_minutes], and the alert is
    suppressed, although the last alert is 30 hours old and nothing
    about the stream is blacklisted. *)
Theorem goneLive_negative_minutes_suppressed :
  let rec := known (VDate (t0 - hours 30)) (VDate (t0 + minutes 10)) in
  let upd := observed "10" "Any% run" [] in
  let live := goneLive cfg0 delivers clock0 differenceInHours differenceInMinutes
                       rec upd w0 in
  offlineSinceMinutes clock0 differenceInMinutes rec w0 = Some (Int (-9))
  ∧ lastShoutOutAgeHours clock0 differenceInHours rec w0 = Int 30
  ∧ fst (alertStream cfg0 delivers (merged rec upd) w0) = true
  ∧ alerts live = []
  ∧ ∃ row key, writes live = [Update row key]
               ∧ prop row "lastShoutOut" = VDate (t0 - hours 30).
Proof.
  cbv zeta. split; [vm_compute; reflexivity|]. split; [vm_compute; reflexivity|].
  split; [vm_compute; reflexivity|]. split; [vm_compute; reflexivity|].
  exists (merged (known (VDate (t0 - hours 30)) (VDate (t0 + minutes 10)))
                 (observed "10" "Any% run" [])), (VStr "10").
  split; vm_compute; reflexivity.
Qed.

(** The other half of C3 at a concrete input: a last alert 2 hours in
    the future gives a negative number of hours, and the alert is made. *)
Example goneLive_negative_hours_alerted :
  let rec := known (VDate (t0 + hours 2)) VNull in
  let upd := observed "10" "Any% run" [] in
  let live := goneLive cfg0 delivers clock0 differenceInHours differenceInMinutes
                       rec upd w0 in
  lastShoutOutAgeHours clock0 differenceInHours rec w0 = Int (-2)
  ∧ alerts live = [merged rec upd]
  ∧ ∃ row key, writes live = [Update row key]
               ∧ prop row "lastShoutOut" = VDate (t0 + 1).
Proof.
  cbv zeta. split; [vm_compute; reflexivity|]. split; [vm_compute; reflexivity|].
  exists (<["lastShoutOut" := VDate (t0 + 1)]>
            (merged (known (VDate (t0 + hours 2)) VNull)
                    (observed "10" "Any% run" []))), (VStr "10").
  split; vm_compute; reflexivity.
Qed.

(** A channel alerted 2 hours ago with [shoutout_hours = 6] and never
    seen offline.  Channel 10 is not on the whitelist: no alert, and the
    row keeps the time of the last alert.  Channel 7 is: the notifier
    gets the merged row and the row is written with the time read after
    the alert, one millisecond after the first reading of the clock.
    With a blacklisted keyword in its title, channel 7 gets no alert
    either. *)
Lemma goneLive_repeat_shoutout_witness :
  let rec := known (VDate (t0 - hours 2)) VNull in
  let live10 := goneLive cfg0 delivers clock0 differenceInHours differenceInMinutes
                         rec (observed "10" "Any% run" []) w0 in
  let row10 := merged rec (observed "10" "Any% run" []) in
  let live7 := goneLive cfg0 delivers clock0 differenceInHours differenceInMinutes
                        rec (observed "7" "Any% run" []) w0 in
  let row7 := merged rec (observed "7" "Any% run" []) in
  let spoiler7 := goneLive cfg0 delivers clock0 differenceInHours differenceInMinutes
                           rec (observed "7" "SPOILERS ahead" []) w0 in
  let spoiler_row7 := merged rec (observed "7" "SPOILERS ahead" []) in
  (alerts live10 = []
   ∧ writes live10 = [Update row10 (VStr "10")]
   ∧ prop row10 "isLive" = VBool true
   ∧ prop row10 "lastShoutOut" = VDate (t0 - hours 2))
  ∧ (alerts live7 = [row7]
     ∧ writes live7 = [Update (<["lastShoutOut" := VDate (t0 + 1)]> row7) (VStr "7")]
     ∧ prop row7 "isLive" = VBool true)
  ∧ (alerts spoiler7 = []
     ∧ writes spoiler7 = [Update spoiler_row7 (VStr "7")]).
Proof.
  intros rec live10 row10 live7 row7 spoiler7 spoiler_row7.
  assert (match offlineSinceMinutes clock0 differenceInMinutes rec w0 with
          | Some (Int m) => reconnect_minutes cfg0 ≤ m
          | _ => True
          end) as Hwin by exact I.
  assert (lastShoutOutAgeHours clock0 differenceInHours rec w0 = Int 2) as Hh
    by (vm_compute; reflexivity).
  assert (0 ≤ 2 < shoutout_hours cfg0) as Hlt by (simpl; lia).
  split; [|split].
  - apply (goneLive_repeat_shoutout cfg0 delivers clock0 differenceInHours
             differenceInMinutes rec (observed "10" "Any% run" []) w0 2
             Hwin Hh Hlt).
    intros (u & Hu & Hin). vm_compute in Hu. injection Hu as <-.
    vm_compute in Hin. apply list_elem_of_singleton in Hin. discriminate.
  - apply (goneLive_repeat_shoutout cfg0 delivers clock0 differenceInHours
             differenceInMinutes rec (observed "7" "Any% run" []) w0 2
             Hwin Hh Hlt).
    + exists "7". split; [reflexivity|]. vm_compute. constructor.
    + split; [|split].
      * exists "Any% run". split; [reflexivity|]. right. intros kw Hkw.
        vm_compute in Hkw. apply list_elem_of_singleton in Hkw. subst kw.
        vm_compute. reflexivity.
      * right. exists []. split; [reflexivity|]. intros tag _ Hin. inversion Hin.
      * intros u Hu. vm_compute in Hu. injection Hu as <-. right.
        vm_compute. intros Hin. apply list_elem_of_singleton in Hin. discriminate.
  - apply (goneLive_repeat_shoutout cfg0 delivers clock0 differenceInHours
             differenceInMinutes rec (observed "7" "SPOILERS ahead" []) w0 2
             Hwin Hh Hlt).
    + exists "7". split; [reflexivity|]. vm_compute. constructor.
    + left. exists "SPOILERS ahead", "spoiler". split; [reflexivity|].
      split; [discriminate|]. split; [vm_compute; constructor|reflexivity].
Defined.

(** The two cases of C6 spelled out: no alert for channel 10; for the
    whitelisted channel 7 the notifier gets the stream and the record is
    written with the time of the alert. *)
Example goneLive_repeat_shoutout_values :
  let rec := known (VDate (t0 - hours 2)) VNull in
  let live10 := goneLive cfg0 delivers clock0 differenceInHours differenceInMinutes
                         rec (observed "10" "Any% run" []) w0 in
  let live7 := goneLive cfg0 delivers clock0 differenceInHours differenceInMinutes
                        rec (observed "7" "Any% run" []) w0 in
  alerts live10 = []
  ∧ alerts live7 = [merged rec (observed "7" "Any% run" [])]
  ∧ (∃ row key, writes live10 = [Update row key]
                ∧ prop row "lastShoutOut" = VDate (t0 - hours 2))
  ∧ (∃ row key, writes live7 = [Update row key]
                ∧ prop row "lastShoutOut" = VDate (t0 + 1)).
Proof.
  cbv zeta. split; [vm_compute; reflexivity|]. split; [vm_compute; reflexivity|].
  split.
  - exists (merged (known (VDate (t0 - hours 2)) VNull)
                   (observed "10" "Any% run" [])), (VStr "10").
    split; vm_compute; reflexivity.
  - exists (<["lastShoutOut" := VDate (t0 + 1)]>
              (merged (known (VDate (t0 - hours 2)) VNull)
                      (observed "7" "Any% run" []))), (VStr "7").
    split; vm_compute; reflexivity.
Qed.

(** A channel seen for the first time: the notifier gets the stream,
    and the record is inserted as live with the time of the alert. *)
Example addNew_alerts_new_channel :
  let stream := observed "10" "Any% run" [] in
  let new := addNew cfg0 delivers clock0 stream w0 in
  alerts new = [fresh stream]
  ∧ subscribed cfg0 (VStr "10") w0 new
  ∧ ∃ row, writes new = [Insert row]
           ∧ prop row "isLive" = VBool true
           ∧ prop row "lastShoutOut" = VDate t0
           ∧ prop row "offline_since" = VNull
           ∧ prop row "stream_id" = VStr "s2".
Proof.
  cbv zeta. split; [vm_compute; reflexivity|]. split; [vm_compute; reflexivity|].
  exists (convertToDStream
            (<["lastShoutOut" := VDate t0]> (fresh (observed "10" "Any% run" [])))).
  vm_compute. repeat split.
Qed.

(** A title with a blacklisted keyword in other letter case, for a new
    channel; a blacklisted tag and a blacklisted channel id, for a known
    one. *)
Lemma blacklisted_stream_never_alerted_witness :
  let stream := observed "10" "No SPOILERS please" [] in
  let rec := known VNull VNull in
  let upd := observed "666" "Any% run" ["tag-bad"] in
  let new := addNew cfg0 delivers clock0 stream w0 in
  let live := goneLive cfg0 delivers clock0 differenceInHours differenceInMinutes
                       rec upd w0 in
  let row := merged rec upd in
  (alerts new = alerts w0
   ∧ writes new = (writes w0 ++ [Insert (convertToDStream (fresh stream))])%list
   ∧ prop (convertToDStream (fresh stream)) "isLive" = VBool true
   ∧ subscribed cfg0 (prop stream "user_id") w0 new)
  ∧ (alerts live = alerts w0
     ∧ writes live = (writes w0 ++ [Update row (prop row "user_id")])%list
     ∧ prop row "isLive" = VBool true
     ∧ subscribed cfg0 (prop row "user_id") w0 live).
Proof.
  intros stream rec upd.
  apply (blacklisted_stream_never_alerted cfg0 delivers clock0 differenceInHours
           differenceInMinutes stream rec upd w0 w0).
  - left. exists "No SPOILERS please", "spoiler".
    split; [reflexivity|]. split; [discriminate|].
    split; [vm_compute; constructor|reflexivity].
  - right; left. exists [VStr "tag-bad"], "tag-bad".
    split; [reflexivity|]. split; vm_compute; constructor.
Defined.

(** C7, as stated, fails twice.  On the empty title: with the empty
    string among the blacklisted keywords, every title contains a
    blacklisted keyword; the check is skipped for an empty title, and
    the notifier is called, for a new channel and for a known one.  On
    the case of the letters: the keyword is lower-cased under the locale
    of the host, the title is not; on a host with a Turkish locale the
    blacklisted keyword [SPOILER] becomes [spo], dotless i, [ler], which
    the title [SPOILER alert] does not contain once it is in lower case,
    although it contains the keyword letter for letter; the notifier is
    called. *)
Lemma keyword_blacklist_escapes :
  let stream := observed "10" EmptyString [] in
  let rec := known VNull VNull in
  let alert := observed "10" "SPOILER alert" [] in
  (EmptyString ∈ bl_keywords (blacklist cfg_empty_keyword)
   ∧ includes EmptyString EmptyString = true
   ∧ alerts (addNew cfg_empty_keyword delivers clock0 stream w0) = [fresh stream]
   ∧ alerts (goneLive cfg_empty_keyword delivers clock0 differenceInHours
                      differenceInMinutes rec stream w0)
     = [merged rec stream])
  ∧ ("SPOILER" ∈ bl_keywords (blacklist cfg_capitals)
     ∧ includes "SPOILER alert" "SPOILER" = true
     ∧ toLocaleLowerCase (Engine := turkish_engine) "SPOILER"
       = "spo" ++ dotless_i ++ "ler"
     ∧ alerts (addNew (engine := turkish_engine) cfg_capitals delivers clock0
                      alert w0)
       = [fresh alert]
     ∧ alerts (goneLive (engine := turkish_engine) cfg_capitals delivers clock0
                        differenceInHours differenceInMinutes rec alert w0)
       = [merged rec alert]).
Proof.
  cbv zeta. split.
  - split; [vm_compute; constructor|]. split; [reflexivity|].
    split; vm_compute; reflexivity.
  - split; [vm_compute; constructor|]. split; [reflexivity|].
    split; [reflexivity|]. split; vm_compute; reflexivity.
Qed.

(** An observation whose title is [null], for a new channel and for a
    known one. *)
Lemma titleless_stream_never_alerted_witness :
  let stream := <["title" := VNull]> (observed "10" EmptyString []) in
  let rec := known VNull VNull in
  let new := addNew cfg0 delivers clock0 stream w0 in
  let live := goneLive cfg0 delivers clock0 differenceInHours differenceInMinutes
                       rec stream w0 in
  let row := merged rec stream in
  alertStream cfg0 delivers stream w0 = (false, w0)
  ∧ (alerts new = alerts w0
     ∧ writes new = (writes w0 ++ [Insert (convertToDStream (fresh stream))])%list
     ∧ prop (convertToDStream (fresh stream)) "isLive" = VBool true
     ∧ prop (convertToDStream (fresh stream)) "lastShoutOut" = VNull
     ∧ subscribed cfg0 (prop stream "user_id") w0 new)
  ∧ (alerts live = alerts w0
     ∧ writes live = (writes w0 ++ [Update row (prop row "user_id")])%list
     ∧ prop row "isLive" = VBool true
     ∧ prop row "lastShoutOut" = prop rec "lastShoutOut"
     ∧ subscribed cfg0 (prop row "user_id") w0 live).
Proof.
  intros stream rec.
  apply (titleless_stream_never_alerted cfg0 delivers clock0 differenceInHours
           differenceInMinutes stream rec stream w0 w0).
  - vm_compute. reflexivity.
  - vm_compute. reflexivity.
Defined.

(** The observation has a [title], the record does not: the merged
    object has it, the row written does not. *)
Lemma update_writes_first_argument_witness :
  let stream : obj := <["user_id" := VStr "10"]> (<["isLive" := VBool true]> ∅) in
  let u := observed "10" "Any% run" [] in
  writes (update stream (Some u) w0)
  = [Update stream (VStr "10")]
  ∧ spread stream (convertToDStream u) !! "title" = Some (VStr "Any% run")
  ∧ stream !! "title" = None.
Proof.
  intros stream u.
  pose proof (update_writes_first_argument stream u w0) as (Hw & _ & Hk).
  split; [exact Hw|].
  apply (Hk "title" (VStr "Any% run")); vm_compute; reflexivity.
Defined.

End Concrete.

End StreamProofs.

(** * Further properties of the API client *)

Module ClientCoverage.

Import Twitch Scenario Coverage TwitchProofs.

Section Client.

Variable cfg : config.

Implicit Types (w : world) (req : request) (retries : Z).

Lemma apiRequest_never_rejects_aux req retries w :
  fst (apiRequest cfg req retries w) ≠ Rejected
  ∧ (fst (apiRequest cfg req retries w) = Pending →
     net w = [] ∨ exited (snd (apiRequest cfg req retries w)) = true).
Proof.
  unfold apiRequest, receive. simpl. destruct (net w) as [|[|status body] rest]; simpl.
  - split; [discriminate|auto].
  - split; discriminate.
  - destruct (status =? 401).
    + destruct (retries =? 0); simpl; split; try discriminate; auto.
    + destruct (negb (status =? 200)); simpl; [split; discriminate|].
      destruct body; simpl; split; discriminate.
Qed.

(** X1.  [apiRequest] never rejects, whatever the reply: a caller's
    rejection handler never runs, also when the request fails or the
    body does not decode.  It fulfils with [undefined] where it started
    a re-authentication, and its promise stays pending only when no
    reply comes or when the process exits. *)
Theorem apiRequest_never_rejects req retries w :
  let r := apiRequest cfg req retries w in
  fst r ≠ Rejected
  ∧ (fst r = Pending → net w = [] ∨ exited (snd r) = true)
  ∧ (length (detached (snd r)) ≠ length (detached w) →
     fst r = Fulfilled VUndefined ∧ token (snd r) = VNull).
Proof.
  cbv zeta. destruct (apiRequest_never_rejects_aux req retries w) as [H1 H2].
  split; [exact H1|]. split; [exact H2|].
  unfold apiRequest, receive. simpl. destruct (net w) as [|[|status body] rest]; simpl.
  - congruence.
  - auto.
  - destruct (status =? 401).
    + destruct (retries =? 0); simpl; [congruence|auto].
    + destruct (negb (status =? 200)); simpl; [congruence|].
      destruct body; simpl; [congruence|auto].
Qed.

(** X2.  [process.exit] is reached by a 401 that finds no retries left, and
    by nothing else: no other status, no failed request and no 401 with
    a budget other than 0 ends the process. *)
Theorem apiRequest_exits_only_on_spent_401 req retries w :
  exited (snd (apiRequest cfg req retries w)) = true
  ↔ exited w = true ∨ (retries = 0 ∧ ∃ body rest, net w = Reply 401 body :: rest).
Proof.
  unfold apiRequest, receive. simpl. destruct (net w) as [|[|status body] rest]; simpl.
  - split; [auto|]. intros [H|(_ & b & r & H)]; [exact H|discriminate].
  - split; [auto|]. intros [H|(_ & b & r & H)]; [exact H|discriminate].
  - destruct (Z.eqb_spec status 401) as [->|Hs].
    + destruct (Z.eqb_spec retries 0) as [->|Hr]; simpl.
      * split; [|reflexivity]. intros _. right. eauto.
      * split; [auto|]. intros [H|(H & _)]; [exact H|contradiction].
    + assert (exited w = true
              ↔ exited w = true
                ∨ retries = 0 ∧ (∃ b r, Reply status body :: rest = Reply 401 b :: r))
        as Hiff.
      { split; [auto|]. intros [H|(_ & b & r & H)]; [exact H|congruence]. }
      destruct (negb (status =? 200)); simpl; [exact Hiff|].
      destruct body; simpl; exact Hiff.
Qed.

(** X3.  The retry budget, for any budget [n]: after [n] rounds of a 401 and
    a successful token exchange, one more 401 exits the process.  The
    request was then made [n + 1] times and the token exchanged [n]
    times, and nothing is asked of the network afterwards. *)
Theorem retry_budget_is_spent n : ∀ req w tok t body rest,
  exited w = false → detached w = [] →
  get tok "access_token" = Some t →
  net w = refused n tok (Reply 401 body :: rest) →
  let w' := run cfg n (snd (apiRequest cfg req (Z.of_nat n) w)) in
  exited w' = true ∧ net w' = rest
  ∧ length (sent w') = (length (sent w) + (2 * n + 1))%nat.
Proof.
  induction n as [|n IH]; intros req w tok t body rest He Hd Ht Hn w'; subst w'.
  - simpl in Hn. cbn [run Z.of_nat].
    erewrite apiRequest_401_exit by eassumption. simpl.
    rewrite length_app. simpl. repeat split; lia.
  - cbn [refused] in Hn.
    erewrite apiRequest_401_retry by (eassumption || lia).
    cbn [run snd]. erewrite reauth_step;
      [|exact He|cbn; rewrite Hd; reflexivity|reflexivity|exact Ht].
    replace (Z.of_nat (S n) - 1) with (Z.of_nat n) by lia.
    match goal with
    | |- context [apiRequest cfg ?r (Z.of_nat n) ?w0] =>
      destruct (IH r w0 tok t body rest) as (Hx & Hnet & Hlen);
        [assumption|reflexivity|assumption|reflexivity|]
    end.
    repeat split; [exact Hx|exact Hnet|].
    rewrite Hlen. simpl. rewrite !length_app. simpl. lia.
Qed.

(** X4.  A request that fails, or a 200 whose body does not decode, is
    handled like a 401 that has retries left, whatever the budget: the
    promise fulfils with [undefined], the token is dropped and a
    re-authentication is detached with the budget lowered by one.  With
    the budget at 0 the retry runs with -1, and the 401 it then gets does
    not exit the process but starts yet another re-authentication. *)
Theorem failed_request_spends_retry_budget req retries w r tok t body rest :
  r = NetError ∨ r = Reply 200 None →
  exited w = false → detached w = [] →
  get tok "access_token" = Some t →
  net w = r :: Reply 200 (Some tok) :: Reply 401 body :: rest →
  let w1 := snd (apiRequest cfg req retries w) in
  let w2 := run cfg 1 w1 in
  fst (apiRequest cfg req retries w) = Fulfilled VUndefined
  ∧ token w1 = VNull
  ∧ detached w1 = [Reauth (retry_of (with_auth req w)) (retries - 1)]
  ∧ (retries = 0 →
     exited w2 = false ∧ net w2 = rest
     ∧ ∃ req', detached w2 = [Reauth req' (-2)]).
Proof.
  intros Hr He Hd Ht Hn w1 w2.
  assert (apiRequest cfg req retries w
          = on_rejected cfg (with_auth req w) retries
              (set_net (Reply 200 (Some tok) :: Reply 401 body :: rest)
                       (log_sent (issued cfg req w) w))) as Hcall.
  { unfold apiRequest, receive. simpl. rewrite Hn.
    destruct Hr as [-> | ->]; reflexivity. }
  subst w2 w1. rewrite Hcall. unfold on_rejected. simpl.
  rewrite Hd. split; [reflexivity|]. split; [reflexivity|].
  split; [reflexivity|]. intros ->.
  cbn [run]. erewrite reauth_step;
    [|exact He|cbn; rewrite Hd; reflexivity|reflexivity|exact Ht].
  erewrite apiRequest_401_retry by (reflexivity || lia). simpl.
  split; [exact He|]. split; [reflexivity|]. eexists. reflexivity.
Qed.

(** X5.  Every call puts its request on the wire, whatever is answered, and
    makes no other request but, where the rejection handler runs, the
    token request of the handler: none after a reply that is passed on,
    that one after a 401 with retries left.  Unless [noauth] is set, the
    [Authorization] header of the request is
    ['Bearer '] followed by the text of the token cached at that moment
    (so ['Bearer undefined'] before any exchange), and it replaces an
    [Authorization] header of the caller; [Client-ID] and [Content-Type]
    are defaults that the caller's headers override.  The payload goes
    in the query when the method, in capitals, is [GET], in the body
    when it is [POST], and nowhere for any other method. *)
Theorem apiRequest_on_the_wire req retries w :
  ∃ s later,
       sent (snd (apiRequest cfg req retries w)) = (sent w ++ s :: later)%list
       ∧ (later = [] ∨ later = [wire cfg (token_request cfg)])
       ∧ (∀ r rest, net w = r :: rest → healthy r = true → later = [])
       ∧ (∀ body rest, net w = Reply 401 body :: rest → retries ≠ 0 →
            later = [wire cfg (token_request cfg)])
       ∧ s_url s = urlBase req ++ endpoint req
       ∧ s_method s = method req
       ∧ s_headers s !! "Authorization"
         = (if noauth req then headers req !! "Authorization"
            else Some (VStr ("Bearer " ++ to_str (token w))))
       ∧ s_headers s !! "Client-ID"
         = Some (default (VStr (clientId cfg)) (headers req !! "Client-ID"))
       ∧ s_headers s !! "Content-Type"
         = Some (default (VStr "application/json") (headers req !! "Content-Type"))
       ∧ s_query s
         = (if String.eqb (toUpperCase (method req)) "GET"
            then Some (payload req) else None)
       ∧ s_body s
         = (if String.eqb (toUpperCase (method req)) "POST"
            then Some (payload req) else None)
       ∧ (s_query s = None ∨ s_body s = None).
Proof.
  destruct (apiRequest_sends cfg req retries w) as (later & Hs & Hl).
  exists (issued cfg req w), later. split; [exact Hs|]. split; [exact Hl|].
  split.
  { intros r rest Hn Hh.
    rewrite (apiRequest_healthy cfg req retries w r rest Hn Hh) in Hs.
    cbn [sent set_net log_sent] in Hs. apply app_inv_head in Hs.
    by injection Hs as <-. }
  split.
  { intros body rest Hn Hr.
    rewrite (apiRequest_401_retry cfg req retries w body rest Hn Hr) in Hs.
    cbn [snd sent detach set_token set_net log_sent] in Hs.
    rewrite <- app_assoc in Hs. apply app_inv_head in Hs.
    by injection Hs as <-. }
  clear Hs Hl. unfold issued, wire, with_auth, spread.
  destruct (noauth req) eqn:Hna; cbn [s_url s_method s_headers s_query s_body
    endpoint urlBase method headers payload]; repeat split.
  - rewrite lookup_union. rewrite !lookup_insert_ne by discriminate.
    rewrite lookup_empty. destruct (headers req !! "Authorization"); reflexivity.
  - rewrite lookup_union, lookup_insert_eq.
    destruct (headers req !! "Client-ID"); reflexivity.
  - rewrite lookup_union. rewrite lookup_insert_ne by discriminate.
    rewrite lookup_insert_eq.
    destruct (headers req !! "Content-Type"); reflexivity.
  - destruct (String.eqb_spec (toUpperCase (method req)) "GET") as [->|]; auto.
  - rewrite lookup_union, lookup_insert_eq.
    rewrite !lookup_insert_ne by discriminate. rewrite lookup_empty. reflexivity.
  - rewrite lookup_union. rewrite lookup_insert_ne by discriminate.
    rewrite lookup_insert_eq.
    destruct (headers req !! "Client-ID"); reflexivity.
  - rewrite lookup_union. rewrite lookup_insert_ne by discriminate.
    rewrite lookup_insert_ne by discriminate.
    rewrite lookup_insert_eq.
    destruct (headers req !! "Content-Type"); reflexivity.
  - destruct (String.eqb_spec (toUpperCase (method req)) "GET") as [->|]; auto.
Qed.

(** What [ensureToken] does with an empty cache when the exchange is
    answered 401, fails, or does not decode: the destructuring of the
    continuation throws on [undefined], so the promise rejects. *)
Lemma ensureToken_rejects w r rest :
  r = NetError ∨ r = Reply 200 None ∨ (∃ body, r = Reply 401 body) →
  truthy (token w) = false →
  net w = r :: rest →
  ensureToken cfg w
  = (Rejected,
     detach (Reauth (retry_of (token_request cfg)) 0)
            (log_sent (wire cfg (token_request cfg))
               (set_token VNull
                  (set_net rest (log_sent (wire cfg (token_request cfg)) w))))).
Proof.
  intros Hr Ht Hn. unfold ensureToken. rewrite Ht.
  unfold apiRequest, receive. simpl. rewrite Hn.
  destruct Hr as [-> | [-> | [body ->]]]; reflexivity.
Qed.

(** A re-authentication whose token request is answered 401: the
    handler of that request asks for a token again, and the chain ends
    there, its retry never made. *)
Lemma refused_reauth_step req retries w body rest :
  exited w = false → detached w = [Reauth req retries] →
  net w = Reply 401 body :: rest →
  step cfg w
  = detach (Reauth (retry_of (token_request cfg)) 0)
           (log_sent (wire cfg (token_request cfg))
              (set_token VNull (set_net rest (set_detached [] w)))).
Proof.
  intros He Hd Hn. unfold step. rewrite He, Hd. cbn [run_task].
  erewrite receive_401_retry by (exact Hn || lia). reflexivity.
Qed.

Lemma refused_reauth_loop n : ∀ w req retries rest,
  exited w = false → detached w = [Reauth req retries] →
  net w = (replicate (S n) (Reply 401 None) ++ rest)%list →
  let w' := run cfg (S n) w in
  exited w' = false ∧ net w' = rest ∧ token w' = VNull
  ∧ detached w' = [Reauth (retry_of (token_request cfg)) 0]
  ∧ sent w' = (sent w ++ replicate (S n) (wire cfg (token_request cfg)))%list.
Proof.
  induction n as [|n IH]; intros w req retries rest He Hd Hn w'; subst w'.
  - cbn [replicate app] in Hn. cbn [run].
    erewrite refused_reauth_step by eassumption.
    cbn. repeat split; assumption || reflexivity.
  - change (run cfg (S (S n)) w) with (run cfg (S n) (step cfg w)).
    change (replicate (S (S n)) (Reply 401 None) ++ rest)%list
      with (Reply 401 None :: (replicate (S n) (Reply 401 None) ++ rest))%list
      in Hn.
    erewrite refused_reauth_step by eassumption.
    match goal with
    | |- context [run cfg (S n) ?w0] =>
      destruct (IH w0 (retry_of (token_request cfg)) 0 rest)
        as (Hx & Hnet & Htok & Hdet & Hs);
        [assumption|reflexivity|reflexivity|]
    end.
    repeat split; try assumption.
    rewrite Hs. cbn [sent detach log_sent set_token set_net set_detached].
    rewrite <- app_assoc. reflexivity.
Qed.

(** X6.  A token endpoint that answers 401 (wrong credentials) never ends the
    process.  [ensureToken] makes the token request and rejects on the
    401, and by then the handler of that request has asked again; each
    turn of the event loop gets one more 401 and asks once more, for as
    long as the endpoint answers.  Every request made is the token
    request: two by the time [ensureToken] rejects, one more per
    turn. *)
Theorem refused_exchange_never_exits n : ∀ w rest,
  exited w = false → detached w = [] →
  truthy (token w) = false →
  net w = (replicate (S n) (Reply 401 None) ++ rest)%list →
  let w' := run cfg n (snd (ensureToken cfg w)) in
  fst (ensureToken cfg w) = Rejected
  ∧ sent (snd (ensureToken cfg w))
    = (sent w ++ replicate 2 (wire cfg (token_request cfg)))%list
  ∧ exited w' = false ∧ net w' = rest ∧ token w' = VNull
  ∧ detached w' = [Reauth (retry_of (token_request cfg)) 0]
  ∧ sent w' = (sent w ++ replicate (S (S n)) (wire cfg (token_request cfg)))%list.
Proof.
  intros w rest He Hd Ht Hn w'. subst w'.
  change (replicate (S n) (Reply 401 None) ++ rest)%list
    with (Reply 401 None :: (replicate n (Reply 401 None) ++ rest))%list in Hn.
  erewrite ensureToken_rejects; [|eauto|assumption|eassumption].
  split; [reflexivity|]. split; [cbn; by rewrite <- app_assoc|].
  destruct n as [|n].
  - cbn. rewrite Hd, <- app_assoc. repeat split; assumption.
  - match goal with
    | |- context [run cfg (S n) ?w0] =>
      destruct (refused_reauth_loop n w0 (retry_of (token_request cfg)) 0 rest)
        as (Hx & Hnet & Htok & Hdet & Hs);
        [assumption|cbn; by rewrite Hd|reflexivity|]
    end.
    repeat split; try assumption.
    rewrite Hs. cbn [snd sent detach log_sent set_token set_net].
    rewrite <- !app_assoc. reflexivity.
Qed.

(** X7.  When the exchange is answered by a status other than 200 and 401,
    [ensureToken] does not fail: it fulfils with [undefined], caches
    [undefined] and detaches nothing, so the callers go on without a
    token and the next call exchanges again. *)
Theorem ensureToken_failed_exchange w status body rest :
  truthy (token w) = false →
  net w = Reply status body :: rest →
  status ≠ 200 → status ≠ 401 →
  ∃ w1, ensureToken cfg w = (Fulfilled VUndefined, w1)
        ∧ token w1 = VUndefined ∧ truthy (token w1) = false
        ∧ net w1 = rest ∧ detached w1 = detached w ∧ exited w1 = exited w
        ∧ sent w1 = (sent w ++ [wire cfg (token_request cfg)])%list.
Proof.
  intros Ht Hn H200 H401. unfold ensureToken. rewrite Ht.
  erewrite apiRequest_status by eassumption. simpl.
  eexists. split; [reflexivity|]. repeat split.
Qed.

(** X8.  [getAllWebhooks] is the one call that asks for a token first.  With
    an empty cache and an exchange answered 200, it makes two requests:
    the exchange, then [GET /webhooks/subscriptions] carrying the token
    just fetched; what it fulfils with is what the second reply gives.
    When the exchange is answered 401 it rejects, with the token request
    made twice (the second time by the rejection handler), and the
    subscriptions are never asked for. *)
Theorem getAllWebhooks_authenticates_first w v t r rest w' body rest' :
  truthy (token w) = false →
  net w = Reply 200 (Some v) :: r :: rest →
  get v "access_token" = Some t →
  healthy r = true →
  truthy (token w') = false →
  net w' = Reply 401 body :: rest' →
  (∃ w1 s, getAllWebhooks cfg w = (passed_on r, w1)
           ∧ token w1 = t ∧ net w1 = rest
           ∧ sent w1 = (sent w ++ [wire cfg (token_request cfg); s])%list
           ∧ s_url s = URL_BASE ++ "/webhooks/subscriptions"
           ∧ s_headers s !! "Authorization" = Some (VStr ("Bearer " ++ to_str t)))
  ∧ fst (getAllWebhooks cfg w') = Rejected
  ∧ sent (snd (getAllWebhooks cfg w'))
    = (sent w' ++ replicate 2 (wire cfg (token_request cfg)))%list.
Proof.
  intros Ht Hn Hv Hh Ht' Hn'. split; [|split].
  - unfold getAllWebhooks.
    erewrite ensureToken_exchange by eassumption.
    match goal with
    | |- context [apiRequest cfg ?q 1 ?w0] =>
      pose proof (apiRequest_healthy cfg q 1 w0 r rest eq_refl Hh) as Hw;
        assert (fst (apiRequest cfg q 1 w0) = passed_on r) as Hf
    end.
    { unfold apiRequest, receive. cbn [net set_token set_net log_sent].
      destruct r as [|status b]; [discriminate|]. simpl in Hh.
      apply andb_prop in Hh as [H401 Hb].
      apply negb_true_iff in H401. rewrite H401. simpl.
      destruct (Z.eqb_spec status 200) as [->|H200]; simpl.
      - destruct b; [reflexivity|discriminate].
      - reflexivity. }
    match goal with
    | |- context [apiRequest cfg ?q 1 ?w0] =>
      destruct (apiRequest cfg q 1 w0) as [r1 w1]
    end.
    simpl in Hw, Hf. subst r1.
    eexists w1, _. split; [reflexivity|]. rewrite Hw. simpl.
    rewrite <- app_assoc. repeat split.
  - unfold getAllWebhooks.
    erewrite ensureToken_rejects; [reflexivity|eauto|assumption|eassumption].
  - unfold getAllWebhooks.
    erewrite ensureToken_rejects; [|eauto|assumption|eassumption].
    cbn. by rewrite <- app_assoc.
Qed.

(** X9.  Subscribing and unsubscribing never report a failure: whatever
    status the hub answers, the promise fulfils with [undefined] (the
    value of [log.debug]); it never rejects and never carries the
    status.  It stays pending only when no reply comes or the process
    exits. *)
Theorem streamWebhookRequest_hides_the_outcome userId mode w :
  let r := streamWebhookRequest cfg userId mode w in
  fst r = Fulfilled VUndefined
  ∨ (fst r = Pending ∧ (net w = [] ∨ exited (snd r) = true)).
Proof.
  unfold streamWebhookRequest.
  pose proof (apiRequest_never_rejects_aux (webhook_request cfg userId mode) 1 w)
    as [Hnr Hp].
  destruct (apiRequest cfg (webhook_request cfg userId mode) 1 w) as [r w1].
  simpl in *. destruct r; [left; reflexivity|contradiction|right; auto].
Qed.

End Client.

(** A request that is answered 401 with a retry left. *)
Lemma apiRequest_never_rejects_witness :
  fst (apiRequest cfg0 users_request 1 w_retry) ≠ Rejected
  ∧ fst (apiRequest cfg0 users_request 1 w_retry) = Fulfilled VUndefined
  ∧ token (snd (apiRequest cfg0 users_request 1 w_retry)) = VNull.
Proof.
  destruct (apiRequest_never_rejects cfg0 users_request 1 w_retry) as (H1 & _ & H3).
  split; [exact H1|]. apply H3. vm_compute. congruence.
Defined.

(** A 401 with the budget at 0. *)
Lemma apiRequest_exits_only_on_spent_401_witness :
  exited (snd (apiRequest cfg0 users_request 0 (start (VStr "old") [Reply 401 None])))
  = true.
Proof.
  apply (proj2 (apiRequest_exits_only_on_spent_401 cfg0 users_request 0
                  (start (VStr "old") [Reply 401 None]))).
  right. split; [reflexivity|]. exists None, []. reflexivity.
Defined.

(** A budget of 2: two rounds of 401 and exchange, then the 401 that
    exits, after 5 requests. *)
Lemma retry_budget_is_spent_witness :
  let w := start (VStr "old")
                 (refused 2 (token_body "new")
                          [Reply 401 None; Reply 200 (Some users_body)]) in
  let w' := run cfg0 2 (snd (apiRequest cfg0 users_request (Z.of_nat 2) w)) in
  exited w' = true ∧ net w' = [Reply 200 (Some users_body)]
  ∧ length (sent w') = (length (sent w) + (2 * 2 + 1))%nat.
Proof.
  intros w.
  apply (retry_budget_is_spent cfg0 2 users_request w (token_body "new")
           (VStr "new") None [Reply 200 (Some users_body)]); reflexivity.
Defined.

(** A request that fails with the budget at 0, then an exchange and a
    401 for the retry. *)
Lemma failed_request_spends_retry_budget_witness :
  let w := start (VStr "old")
                 [NetError; Reply 200 (Some (token_body "new")); Reply 401 None] in
  let w1 := snd (apiRequest cfg0 users_request 0 w) in
  let w2 := run cfg0 1 w1 in
  fst (apiRequest cfg0 users_request 0 w) = Fulfilled VUndefined
  ∧ token w1 = VNull
  ∧ detached w1 = [Reauth (retry_of (with_auth users_request w)) (-1)]
  ∧ (0 = 0 → exited w2 = false ∧ net w2 = []
             ∧ ∃ req', detached w2 = [Reauth req' (-2)]).
Proof.
  intros w.
  apply (failed_request_spends_retry_budget cfg0 users_request 0 w NetError
           (token_body "new") (VStr "new") None []);
    [left; reflexivity|reflexivity..].
Defined.

(** A token endpoint that answers 401 three times. *)
Lemma refused_exchange_never_exits_witness :
  let w := start VUndefined
                 (replicate 3 (Reply 401 None)
                  ++ [Reply 200 (Some (token_body "A"))])%list in
  let w' := run cfg0 2 (snd (ensureToken cfg0 w)) in
  fst (ensureToken cfg0 w) = Rejected
  ∧ sent (snd (ensureToken cfg0 w))
    = (sent w ++ replicate 2 (wire cfg0 (token_request cfg0)))%list
  ∧ exited w' = false ∧ net w' = [Reply 200 (Some (token_body "A"))]
  ∧ token w' = VNull
  ∧ detached w' = [Reauth (retry_of (token_request cfg0)) 0]
  ∧ sent w' = (sent w ++ replicate 4 (wire cfg0 (token_request cfg0)))%list.
Proof.
  intros w.
  apply (refused_exchange_never_exits cfg0 2 w [Reply 200 (Some (token_body "A"))]);
    reflexivity.
Defined.

(** The token endpoint answers 500. *)
Lemma ensureToken_failed_exchange_witness :
  ∃ w1, ensureToken cfg0 w_exchange_fails = (Fulfilled VUndefined, w1)
        ∧ token w1 = VUndefined ∧ truthy (token w1) = false
        ∧ net w1 = [Reply 200 (Some (token_body "B"))]
        ∧ detached w1 = detached w_exchange_fails
        ∧ exited w1 = exited w_exchange_fails
        ∧ sent w1 = (sent w_exchange_fails ++ [wire cfg0 (token_request cfg0)])%list.
Proof.
  apply (ensureToken_failed_exchange cfg0 w_exchange_fails 500 None
           [Reply 200 (Some (token_body "B"))]); [reflexivity|reflexivity|lia|lia].
Defined.

(** An empty cache: once the exchange is answered, once it is refused. *)
Lemma getAllWebhooks_authenticates_first_witness :
  let w := start VUndefined
                 [Reply 200 (Some (token_body "A")); Reply 200 (Some users_body)] in
  let w' := start VUndefined [Reply 401 None] in
  (∃ w1 s, getAllWebhooks cfg0 w = (passed_on (Reply 200 (Some users_body)), w1)
           ∧ token w1 = VStr "A" ∧ net w1 = []
           ∧ sent w1 = (sent w ++ [wire cfg0 (token_request cfg0); s])%list
           ∧ s_url s = URL_BASE ++ "/webhooks/subscriptions"
           ∧ s_headers s !! "Authorization"
             = Some (VStr ("Bearer " ++ to_str (VStr "A"))))
  ∧ fst (getAllWebhooks cfg0 w') = Rejected
  ∧ sent (snd (getAllWebhooks cfg0 w'))
    = (sent w' ++ replicate 2 (wire cfg0 (token_request cfg0)))%list.
Proof.
  intros w w'.
  apply (getAllWebhooks_authenticates_first cfg0 w (token_body "A") (VStr "A")
           (Reply 200 (Some users_body)) [] w' None []); reflexivity.
Defined.

End ClientCoverage.

(** * Further properties of the listings *)

Module ListingCoverage.

Import Twitch Scenario Coverage TwitchProofs ListingProofs.

Section Listing.

Variable cfg : config.

Lemma fetched_nothing w : fetched cfg [] (net w) w = w.
Proof. destruct w. unfold fetched. simpl. rewrite app_nil_r. reflexivity. Qed.

(** A walk over pages that all make it go on is the walk resumed after
    them: from the last cursor, with their items accumulated. *)
Lemma getAllTags_prefix pages : ∀ tail w cursor acc entries fuel,
  net w = (map page_reply pages ++ tail)%list →
  Forall (λ p, continues Tags p = true) pages →
  mapM tag_entry (concat (map p_data pages)) = Some entries →
  getAllTags cfg (length pages + fuel) cursor acc w
  = getAllTags cfg fuel (walk_cursor cursor pages) (acc ++ entries)
      (fetched cfg (map (page_request Tags) (walk_cursors cursor pages)) tail w).
Proof.
  induction pages as [|p pages IH]; intros tail w cursor acc entries fuel Hn Hc Hi.
  - simpl in Hn, Hi. injection Hi as <-. simpl.
    rewrite app_nil_r, <- Hn, fetched_nothing. reflexivity.
  - simpl in Hn, Hi. inversion Hc as [|? ? Hp Hps]; subst.
    apply mapM_app_Some in Hi as (r1 & r2 & H1 & H2 & ->).
    change (length (p :: pages) + fuel)%nat with (S (length pages + fuel)).
    cbn [getAllTags]. erewrite apiRequest_ok by eassumption.
    rewrite page_body_data, page_body_pagination. cbn [truthy negb].
    rewrite H1. cbn [get]. unfold prop. rewrite lookup_insert_eq.
    cbn [default from_option]. unfold id. simpl in Hp. rewrite Hp.
    erewrite IH; try eassumption; [|reflexivity].
    cbn [walk_cursor walk_cursors map].
    rewrite fetched_step, app_assoc. reflexivity.
Qed.

Lemma getStreams_prefix g pages : ∀ tail w cursor acc fuel,
  net w = (map page_reply pages ++ tail)%list →
  Forall (λ p, continues (Streams g) p = true) pages →
  getStreams cfg (length pages + fuel) g cursor acc w
  = getStreams cfg fuel g (walk_cursor cursor pages)
      (acc ++ concat (map p_data pages))
      (fetched cfg (map (page_request (Streams g)) (walk_cursors cursor pages))
               tail w).
Proof.
  induction pages as [|p pages IH]; intros tail w cursor acc fuel Hn Hc.
  - simpl in Hn. simpl.
    rewrite app_nil_r, <- Hn, fetched_nothing. reflexivity.
  - simpl in Hn. inversion Hc as [|? ? Hp Hps]; subst.
    change (length (p :: pages) + fuel)%nat with (S (length pages + fuel)).
    cbn [getStreams]. erewrite apiRequest_ok by eassumption.
    rewrite page_body_data, page_body_pagination. cbn [truthy negb].
    cbn [get]. unfold prop. rewrite lookup_insert_eq.
    cbn [default from_option]. unfold id. cbn [js_length].
    simpl in Hp. rewrite Hp.
    erewrite IH; try eassumption; [|reflexivity].
    cbn [walk_cursor walk_cursors map array_concat concat].
    rewrite fetched_step, <- app_assoc. reflexivity.
Qed.

Lemma fetchAll_prefix k pages tail w cursor acc entries fuel :
  net w = (map page_reply pages ++ tail)%list →
  Forall (λ p, continues k p = true) pages →
  items k (concat (map p_data pages)) = Some entries →
  fetchAll cfg k (length pages + fuel) cursor acc w
  = fetchAll cfg k fuel (walk_cursor cursor pages) (acc ++ entries)
      (fetched cfg (map (page_request k) (walk_cursors cursor pages)) tail w).
Proof.
  intros Hn Hc Hi. destruct k as [|g]; simpl in Hi |- *.
  - by apply getAllTags_prefix.
  - injection Hi as <-. by apply getStreams_prefix.
Qed.

Lemma walk_cursors_length cursor pages :
  length (walk_cursors cursor pages) = length pages.
Proof.
  revert cursor. induction pages as [|p pages IH]; intros cursor; simpl;
    [reflexivity|]. by rewrite IH.
Qed.

(** The first step of either walk on a reply that makes [apiRequest]
    fulfil with [undefined]: the destructuring throws. *)
Lemma fetchAll_undefined k fuel cursor acc w w1 :
  apiRequest cfg (page_request k cursor) 1 w = (Fulfilled VUndefined, w1) →
  fetchAll cfg k (S fuel) cursor acc w = Some (Rejected, w1).
Proof.
  intros H. destruct k as [|g]; cbn [fetchAll getAllTags getStreams];
    cbn [page_request] in H; rewrite H; reflexivity.
Qed.

(** X10.  A 401 in the middle of a walk rejects the whole fetch: the pages
    accumulated so far are dropped, the token is cleared, the rejection
    handler asks for a new token at once (the last request made, after
    the page requests) and a re-authentication is detached, whose retry
    nobody waits for. *)
Theorem fetchAll_rejects_on_401 k pages body rest w cursor acc entries fuel :
  net w = (map page_reply pages ++ Reply 401 body :: rest)%list →
  Forall (λ p, continues k p = true) pages →
  items k (concat (map p_data pages)) = Some entries →
  (length pages < fuel)%nat →
  ∃ w', fetchAll cfg k fuel cursor acc w = Some (Rejected, w')
        ∧ token w' = VNull ∧ net w' = rest
        ∧ sent w'
          = (sent w
             ++ map (λ r, issued cfg r w)
                    (map (page_request k) (walk_cursors cursor pages)
                     ++ [page_request k (walk_cursor cursor pages)])
             ++ [wire cfg (token_request cfg)])%list
        ∧ length (sent w') = (length (sent w) + S (S (length pages)))%nat
        ∧ ∃ req, detached w' = (detached w ++ [Reauth req 0])%list
                 ∧ payload req = payload (page_request k (walk_cursor cursor pages)).
Proof.
  intros Hn Hc Hi Hf.
  replace fuel with (length pages + S (fuel - length pages - 1))%nat by lia.
  erewrite fetchAll_prefix by eassumption.
  eexists. split.
  - eapply fetchAll_undefined.
    eapply (apiRequest_401_retry _ _ _ _ body rest); [reflexivity|lia].
  - cbn [token net sent detached detach set_token set_net log_sent fetched].
    split; [reflexivity|]. split; [reflexivity|]. split.
    { rewrite map_app, <- !app_assoc. reflexivity. }
    rewrite !length_app, !length_map, walk_cursors_length.
    split; [simpl; lia|]. eexists. split; [reflexivity|].
    destruct k; reflexivity.
Qed.

(** X11.  A page that has data but no [pagination] object rejects the fetch:
    [pagination.cursor] is read unguarded.  The pages before it are
    dropped; the token and the detached chains are left alone. *)
Theorem fetchAll_rejects_without_pagination
    k pages o l these rest w cursor acc entries fuel :
  net w = (map page_reply pages ++ Reply 200 (Some (VObj o)) :: rest)%list →
  Forall (λ p, continues k p = true) pages →
  items k (concat (map p_data pages)) = Some entries →
  prop o "data" = VArr l →
  items k l = Some these →
  nullish (prop o "pagination") = true →
  (length pages < fuel)%nat →
  ∃ w', fetchAll cfg k fuel cursor acc w = Some (Rejected, w')
        ∧ net w' = rest ∧ token w' = token w ∧ detached w' = detached w.
Proof.
  intros Hn Hc Hi Hd Hl Hp Hf.
  replace fuel with (length pages + S (fuel - length pages - 1))%nat by lia.
  erewrite fetchAll_prefix by eassumption.
  destruct k as [|g]; cbn [fetchAll getAllTags getStreams];
    erewrite apiRequest_ok by reflexivity; cbn [get]; rewrite Hd;
    cbn [truthy negb]; simpl in Hl.
  - rewrite Hl. destruct (prop o "pagination"); try discriminate;
      (eexists; split; [reflexivity|repeat split]).
  - destruct (prop o "pagination"); try discriminate;
      (eexists; split; [reflexivity|repeat split]).
Qed.

(** X12.  One tag without [localization_names] rejects the whole tag catalog,
    pages fetched before it included. *)
Theorem getAllTags_rejects_on_tag_without_names
    pages p t rest w cursor acc entries fuel :
  net w = (map page_reply pages ++ page_reply p :: rest)%list →
  Forall (λ p, continues Tags p = true) pages →
  mapM tag_entry (concat (map p_data pages)) = Some entries →
  VObj t ∈ p_data p →
  nullish (prop t "localization_names") = true →
  (length pages < fuel)%nat →
  ∃ w', getAllTags cfg fuel cursor acc w = Some (Rejected, w') ∧ net w' = rest.
Proof.
  intros Hn Hc Hi Ht Hnames Hf.
  replace fuel with (length pages + S (fuel - length pages - 1))%nat by lia.
  erewrite getAllTags_prefix by eassumption.
  cbn [getAllTags]. erewrite apiRequest_ok by reflexivity.
  rewrite page_body_data, page_body_pagination. cbn [truthy negb].
  destruct (mapM tag_entry (p_data p)) as [es|] eqn:Hm.
  - exfalso. assert (is_Some (mapM tag_entry (p_data p))) as Hs by eauto.
    rewrite mapM_is_Some, Forall_forall in Hs.
    destruct (Hs _ Ht) as [e He]. unfold tag_entry in He. simpl in He.
    destruct (prop t "localization_names"); discriminate.
  - eexists. split; reflexivity.
Qed.

End Listing.

(** ** The two filters *)

Lemma tag_match_spec tagIds x : tag_match tagIds x = Some true ↔ has_tag tagIds x.
Proof.
  split.
  - intros H. destruct (tag_match_obj _ _ H) as [o ->].
    unfold tag_match in H. simpl in H.
    destruct (prop o "tag_ids") as [| | | | | |l|] eqn:Ht; simpl in H;
      try discriminate; repeat case_match; try discriminate.
    injection H as H. apply existsb_exists in H as (i & Hi & Hs).
    destruct i; try discriminate. apply str_in_spec in Hs.
    exists o, l, s. repeat split; [exact Ht|by apply list_elem_of_In|exact Hs].
  - intros (o & l & t & -> & Ht & Hl & Hin). unfold tag_match. simpl.
    rewrite Ht. simpl. f_equal. apply existsb_exists.
    exists (VStr t). split; [by apply list_elem_of_In|by apply str_in_spec].
Qed.

Lemma keyword_match_spec {engine : Engine} kws x :
  keyword_match kws x = Some true ↔ has_keyword kws x.
Proof.
  split.
  - intros H. destruct (keyword_match_obj _ _ H) as [o ->].
    unfold keyword_match in H. simpl in H.
    destruct kws as [|k ks];
      [destruct (truthy (prop o "title")); discriminate|].
    destruct (prop o "title") as [| | | |t| | |] eqn:Ht; simpl in H;
      try discriminate; try (destruct b; discriminate);
      try (destruct (n =? 0); discriminate).
    destruct (String.eqb t EmptyString) eqn:Hte; simpl in H; [discriminate|].
    injection H as H.
    change (existsb (λ kw, includes (toLowerCase t) (toLocaleLowerCase kw))
                    (k :: ks) = true) in H.
    apply existsb_exists in H as (kw & Hkw & Hinc).
    apply includes_spec in Hinc as (pre & post & Hinc).
    exists o, t, kw, pre, post. repeat split; try assumption.
    + intros ->. discriminate.
    + by apply list_elem_of_In.
  - intros (o & t & kw & pre & post & -> & Ht & Hne & Hkw & Heq).
    unfold keyword_match. simpl. rewrite Ht. simpl.
    destruct t as [|c t]; [contradiction|]. cbn [String.eqb negb].
    destruct kws as [|k kws]; [inversion Hkw|].
    f_equal. apply existsb_exists. exists kw.
    split; [by apply list_elem_of_In|]. apply includes_spec. eauto.
Qed.

Lemma filterM_elem f : ∀ l r,
  filterM f l = Some r → ∀ x, x ∈ r ↔ x ∈ l ∧ f x = Some true.
Proof.
  induction l as [|y l IH]; intros r; simpl.
  - intros [= <-] x. split; [inversion 1|intros [H _]; inversion H].
  - destruct (f y) as [b|] eqn:Hy; [|discriminate]. simpl.
    destruct (filterM f l) as [r'|]; [|discriminate]. simpl.
    intros [= <-] x. specialize (IH r' eq_refl x). destruct b.
    + rewrite !elem_of_cons, IH. split.
      * intros [->|[H1 H2]]; auto.
      * intros [[->|H1] H2]; auto.
    + rewrite elem_of_cons, IH. split.
      * intros [H1 H2]; auto.
      * intros [[->|H1] H2]; [congruence|auto].
Qed.

Section Filters.

Context {engine : Engine}.
Variable cfg : config.

Lemma filtered_spec f fuel g w r w' :
  filtered f (getStreams cfg fuel g VUndefined [] w) = Some (Fulfilled (VArr r), w') →
  ∃ listing,
    getStreams cfg fuel g VUndefined [] w = Some (Fulfilled (VArr listing), w')
    ∧ filterM f listing = Some r.
Proof.
  unfold filtered.
  destruct (getStreams cfg fuel g VUndefined [] w) as [[o w1]|]; [|discriminate].
  simpl. intros [= Hr <-].
  apply then_filter_inv in Hr as (listing & kept & -> & [= <-] & Hf). eauto.
Qed.

(** X13.  The tag filter keeps, in the order of the listing, exactly the
    stream objects that carry one of the wanted tag ids.  A stream
    without [tag_ids] is left out without an error. *)
Theorem getStreamsByTagId_keeps_tagged fuel g tagIds w r w' :
  getStreamsByTagId cfg fuel g tagIds w = Some (Fulfilled (VArr r), w') →
  ∃ listing,
    getStreams cfg fuel g VUndefined [] w = Some (Fulfilled (VArr listing), w')
    ∧ sublist r listing
    ∧ ∀ x, x ∈ r ↔ x ∈ listing ∧ has_tag tagIds x.
Proof.
  intros H. apply filtered_spec in H as (listing & Hl & Hf).
  exists listing. split; [exact Hl|]. split.
  - eapply filterM_spec; [apply tag_match_obj|exact Hf].
  - intros x. rewrite (filterM_elem _ _ _ Hf), tag_match_spec. reflexivity.
Qed.

(** X14.  The keyword filter keeps, in the order of the listing, exactly the
    stream objects with a non-empty title such that the title put
    through [toLowerCase] contains, as a substring, a wanted keyword put
    through [toLocaleLowerCase]; this for whatever the two case mappings
    of the engine are. *)
Theorem getStreamsByKeywords_keeps_titled fuel g keywords w r w' :
  getStreamsByKeywords cfg fuel g keywords w = Some (Fulfilled (VArr r), w') →
  ∃ listing,
    getStreams cfg fuel g VUndefined [] w = Some (Fulfilled (VArr listing), w')
    ∧ sublist r listing
    ∧ ∀ x, x ∈ r ↔ x ∈ listing ∧ has_keyword keywords x.
Proof.
  intros H. apply filtered_spec in H as (listing & Hl & Hf).
  exists listing. split; [exact Hl|]. split.
  - eapply filterM_spec; [apply keyword_match_obj|exact Hf].
  - intros x. rewrite (filterM_elem _ _ _ Hf), keyword_match_spec. reflexivity.
Qed.

(** X15.  The keyword filter sees a keyword only through
    [toLocaleLowerCase] and a title only through [toLowerCase]: two
    lists of keywords with the same lower-cased keywords, in the same
    order, keep the same streams and throw on the same streams, and a
    title can be replaced by another with the same lower-cased text
    (both empty or both not).  So the filter ignores the case of the
    letters exactly as far as the two mappings of the engine do. *)
Theorem keyword_filter_compares_lowered_text
    keywords keywords' (o : obj) t t' fuel g w :
  toLocaleLowerCase <$> keywords' = toLocaleLowerCase <$> keywords →
  prop o "title" = VStr t →
  toLowerCase t' = toLowerCase t →
  (t' = EmptyString ↔ t = EmptyString) →
  (∀ x, keyword_match keywords' x = keyword_match keywords x)
  ∧ keyword_match keywords (VObj (<["title" := VStr t']> o))
    = keyword_match keywords (VObj o)
  ∧ getStreamsByKeywords cfg fuel g keywords' w
    = getStreamsByKeywords cfg fuel g keywords w.
Proof.
  intros Hk Ht Hl He.
  assert (∀ x, keyword_match keywords' x = keyword_match keywords x) as Hm.
  { intros x. unfold keyword_match.
    destruct (get x "title") as [title|]; [|reflexivity]. simpl.
    destruct (truthy title); [|reflexivity].
    destruct keywords' as [|k' ks'], keywords as [|k ks]; try discriminate;
      [reflexivity|].
    destruct title; try reflexivity. f_equal.
    rewrite (existsb_fmap toLocaleLowerCase (includes (toLowerCase s)) (k' :: ks')),
            (existsb_fmap toLocaleLowerCase (includes (toLowerCase s)) (k :: ks)).
    by rewrite Hk. }
  split; [exact Hm|]. split.
  - unfold keyword_match. simpl. unfold prop at 1. rewrite lookup_insert_eq.
    rewrite Ht. simpl.
    assert (String.eqb t' EmptyString = String.eqb t EmptyString) as ->.
    { destruct (String.eqb_spec t' EmptyString) as [E|E],
               (String.eqb_spec t EmptyString) as [E'|E']; try reflexivity;
        [destruct E'; by apply He|destruct E; by apply He]. }
    destruct (String.eqb t EmptyString); [reflexivity|]. simpl.
    destruct keywords; [reflexivity|].
    unfold prop. rewrite lookup_insert_eq. cbn [default from_option]. unfold id.
    by rewrite Hl.
  - unfold getStreamsByKeywords, filtered.
    destruct (getStreams cfg fuel g VUndefined [] w) as [[r w1]|]; [|reflexivity].
    simpl. destruct r as [v| |]; try reflexivity. destruct v; try reflexivity.
    simpl. replace (filterM (keyword_match keywords') l)
      with (filterM (keyword_match keywords) l); [reflexivity|].
    induction l as [|x l IH]; [reflexivity|]. simpl. by rewrite Hm, IH.
Qed.

Lemma no_elements {A} (l : list A) : (∀ x, x ∉ l) → l = [].
Proof. destruct l as [|x l]; [reflexivity|]. intros H. destruct (H x). by left. Qed.

(** X16.  With no tag ids and no keywords to look for, nothing is listed,
    whatever the two listings hold. *)
Theorem getStreamsByMetadata_without_criteria fuel g w l w' :
  getStreamsByMetadata cfg fuel g [] [] w = Some (Fulfilled (VArr l), w') →
  l = [].
Proof.
  intros H.
  apply getStreamsByMetadata_inv in H as (l1 & l2 & tagged & kw & _ & Hf1 & Hf2 & Hm).
  assert (tagged = []) as ->.
  { apply no_elements. intros x Hx.
    apply (filterM_elem _ _ _ Hf1) in Hx as [_ Hx].
    apply tag_match_spec in Hx as (o & l' & t & _ & _ & _ & Hin). inversion Hin. }
  assert (kw = []) as ->.
  { apply no_elements. intros x Hx.
    apply (filterM_elem _ _ _ Hf2) in Hx as [_ Hx].
    apply keyword_match_spec in Hx as (o & t & k & pre & post & _ & _ & _ & Hin & _).
    inversion Hin. }
  by injection Hm as <-.
Qed.

Lemma fetched_twice r1 r2 tail rest w :
  fetched cfg [r2] rest (fetched cfg [r1] tail w) = fetched cfg [r1; r2] rest w.
Proof. unfold fetched. simpl. rewrite <- app_assoc. reflexivity. Qed.

(** X17.  The listing is fetched twice, once for each filter: on listings of
    one page each, the tag filter sees the first reply and the keyword
    filter the second, two identical requests are made, and the result
    is the merge of what the two filters kept. *)
Theorem getStreamsByMetadata_fetches_twice
    g tagIds keywords p1 p2 rest w tagged kw fuel :
  net w = page_reply p1 :: page_reply p2 :: rest →
  continues (Streams g) p1 = false →
  continues (Streams g) p2 = false →
  filterM (tag_match tagIds) (p_data p1) = Some tagged →
  filterM (keyword_match keywords) (p_data p2) = Some kw →
  (0 < fuel)%nat →
  ∃ l, mergeStreams tagged kw = Some l
       ∧ getStreamsByMetadata cfg fuel g tagIds keywords w
         = Some (Fulfilled (VArr l),
                 fetched cfg [page_request (Streams g) VUndefined;
                              page_request (Streams g) VUndefined] rest w).
Proof.
  intros Hn H1 H2 Hf1 Hf2 Hfuel.
  exists (dedupe_from [] (tagged ++ kw)). split.
  { eapply mergeStreams_filtered; eassumption. }
  destruct fuel as [|fuel]; [lia|].
  unfold getStreamsByMetadata, listings, walk_start.
  rewrite all_streams_round by (intros (x & y & Ha & _); discriminate).
  unfold round.
  erewrite walk_reply_last by (exact Hn || exact H1).
  cbn [then_filter app]. rewrite Hf1.
  erewrite walk_reply_last by (reflexivity || exact H2).
  cbn [then_filter app]. rewrite Hf2.
  rewrite all_streams_done. cbn [mbind option_bind].
  erewrite mergeStreams_filtered by eassumption.
  unfold fetched, set_net, log_sent. cbn [token net sent exited detached].
  rewrite <- app_assoc. reflexivity.
Qed.

End Filters.

(** ** The merge *)

Lemma distinct_ids_before acc x l :
  distinct_ids (acc ++ x :: l) → ∀ a, a ∈ acc → same_id a x = false.
Proof.
  induction acc as [|b acc IH]; intros Hd a Ha; [inversion Ha|].
  destruct Hd as [Hb Hd]. apply elem_of_cons in Ha as [->|Ha].
  - apply Hb. apply elem_of_app. right. by left.
  - by apply IH.
Qed.

Lemma dedupe_from_distinct l : ∀ acc,
  distinct_ids (acc ++ l) → dedupe_from acc l = (acc ++ l)%list.
Proof.
  induction l as [|x l IH]; intros acc Hd; [by rewrite app_nil_r|].
  change (dedupe_from acc (x :: l)) with (dedupe_from (dedupe_step acc x) l).
  unfold dedupe_step.
  replace (existsb (λ s, same_id s x) acc) with false.
  - rewrite IH; rewrite <- app_assoc; [reflexivity|exact Hd].
  - symmetry. apply not_true_is_false. intros He.
    apply existsb_exists in He as (a & Ha & Hs).
    rewrite (distinct_ids_before acc x l Hd a) in Hs; [discriminate|].
    by apply list_elem_of_In.
Qed.

(** X18.  When no two of the streams kept by the filters share an id, the
    merge loses nothing and changes no order: the result is the tag
    matches followed by the keyword matches. *)
Theorem mergeStreams_keeps_distinct tagged kw :
  Forall is_obj (tagged ++ kw) →
  distinct_ids (tagged ++ kw) →
  mergeStreams tagged kw = Some (tagged ++ kw)%list.
Proof.
  intros Ho Hd. unfold mergeStreams.
  rewrite merge_objs; [|constructor|exact Ho].
  f_equal. by apply (dedupe_from_distinct _ []).
Qed.

(** ** The theorems at concrete inputs *)

Section Concrete.

#[local] Existing Instance ascii_engine.

(** A full page of streams, then a 401. *)
Lemma fetchAll_rejects_on_401_witness :
  let k := Streams (GameOne "g1") in
  let w := start (VStr "tok") [page_reply full_page; Reply 401 None] in
  ∃ w', fetchAll cfg0 k 5 VUndefined [] w = Some (Rejected, w')
        ∧ token w' = VNull ∧ net w' = []
        ∧ sent w'
          = (sent w
             ++ map (λ r, issued cfg0 r w)
                    (map (page_request k) (walk_cursors VUndefined [full_page])
                     ++ [page_request k (walk_cursor VUndefined [full_page])])
             ++ [wire cfg0 (token_request cfg0)])%list
        ∧ length (sent w') = (length (sent w) + S (S (length [full_page])))%nat
        ∧ ∃ req, detached w' = (detached w ++ [Reauth req 0])%list
                 ∧ payload req
                   = payload (page_request k (walk_cursor VUndefined [full_page])).
Proof.
  intros k w.
  apply (fetchAll_rejects_on_401 cfg0 k [full_page] None [] w VUndefined []
           (p_data full_page) 5).
  - reflexivity.
  - repeat constructor.
  - reflexivity.
  - simpl. lia.
Defined.

(** A first page of tags that has no [pagination]. *)
Lemma fetchAll_rejects_without_pagination_witness :
  let o : obj := <["data" := VArr [tag "t1" "Speedrun"]]> ∅ in
  let w := start (VStr "tok") [Reply 200 (Some (VObj o))] in
  ∃ w', fetchAll cfg0 Tags 3 VUndefined [] w = Some (Rejected, w')
        ∧ net w' = [] ∧ token w' = token w ∧ detached w' = detached w.
Proof.
  intros o w.
  apply (fetchAll_rejects_without_pagination cfg0 Tags [] o
           [tag "t1" "Speedrun"] [entry "t1" "Speedrun"] [] w VUndefined [] [] 3).
  - reflexivity.
  - constructor.
  - reflexivity.
  - reflexivity.
  - reflexivity.
  - reflexivity.
  - simpl. lia.
Defined.

(** A page of two tags, the second without [localization_names]. *)
Lemma getAllTags_rejects_on_tag_without_names_witness :
  let t : obj := <["tag_id" := VStr "t2"]> ∅ in
  let p := {| p_data := [tag "t1" "Speedrun"; VObj t]; p_cursor := VUndefined |} in
  let w := start (VStr "tok") [page_reply p] in
  ∃ w', getAllTags cfg0 3 VUndefined [] w = Some (Rejected, w') ∧ net w' = [].
Proof.
  intros t p w.
  apply (getAllTags_rejects_on_tag_without_names cfg0 [] p t [] w VUndefined [] [] 3).
  - reflexivity.
  - constructor.
  - reflexivity.
  - right. left.
  - reflexivity.
  - simpl. lia.
Defined.

(** The listing of the scenario: streams 1 and 2 carry the tag, streams
    1 and 3 the keyword. *)
Lemma getStreamsByTagId_keeps_tagged_witness :
  let r := [viewers 10 (stream "1" "10" "Any% run" ["tag-x"]);
            stream "2" "20" "chill" ["tag-x"]] in
  ∃ listing,
    getStreams cfg0 2 (GameOne "g1") VUndefined [] w_metadata
    = Some (Fulfilled (VArr listing),
            fetched cfg0 [page_request (Streams (GameOne "g1")) VUndefined]
                    (tail (net w_metadata)) w_metadata)
    ∧ sublist r listing
    ∧ ∀ x, x ∈ r ↔ x ∈ listing ∧ has_tag ["tag-x"] x.
Proof.
  intros r.
  apply (getStreamsByTagId_keeps_tagged cfg0 2 (GameOne "g1") ["tag-x"] w_metadata).
  vm_compute. reflexivity.
Defined.

Lemma getStreamsByKeywords_keeps_titled_witness :
  let r := [viewers 10 (stream "1" "10" "Any% run" ["tag-x"]);
            stream "3" "30" "ANY% practice" []] in
  ∃ listing,
    getStreams cfg0 2 (GameOne "g1") VUndefined [] w_metadata
    = Some (Fulfilled (VArr listing),
            fetched cfg0 [page_request (Streams (GameOne "g1")) VUndefined]
                    (tail (net w_metadata)) w_metadata)
    ∧ sublist r listing
    ∧ ∀ x, x ∈ r ↔ x ∈ listing ∧ has_keyword ["any%"] x.
Proof.
  intros r.
  apply (getStreamsByKeywords_keeps_titled cfg0 2 (GameOne "g1") ["any%"] w_metadata).
  vm_compute. reflexivity.
Defined.

(** The keyword and the title of the scenario, in capitals. *)
Lemma keyword_filter_compares_lowered_text_witness :
  let o : obj := <["title" := VStr "Any% run"]> ∅ in
  (∀ x, keyword_match ["ANY%"] x = keyword_match ["any%"] x)
  ∧ keyword_match ["any%"] (VObj (<["title" := VStr "ANY% RUN"]> o))
    = keyword_match ["any%"] (VObj o)
  ∧ getStreamsByKeywords cfg0 2 (GameOne "g1") ["ANY%"] w_metadata
    = getStreamsByKeywords cfg0 2 (GameOne "g1") ["any%"] w_metadata.
Proof.
  intros o.
  apply (keyword_filter_compares_lowered_text cfg0 ["any%"] ["ANY%"] o
           "Any% run" "ANY% RUN" 2 (GameOne "g1") w_metadata).
  - reflexivity.
  - reflexivity.
  - reflexivity.
  - split; discriminate.
Defined.

(** The listings of the scenario, with nothing to look for. *)
Lemma getStreamsByMetadata_without_criteria_witness :
  let w' := fetched cfg0 [page_request (Streams (GameOne "g1")) VUndefined;
                          page_request (Streams (GameOne "g1")) VUndefined]
                    [] w_metadata in
  getStreamsByMetadata cfg0 2 (GameOne "g1") [] [] w_metadata
  = Some (Fulfilled (VArr []), w')
  ∧ ([] : list value) = [].
Proof.
  intros w'.
  assert (getStreamsByMetadata cfg0 2 (GameOne "g1") [] [] w_metadata
          = Some (Fulfilled (VArr []), w')) as H by (vm_compute; reflexivity).
  split; [exact H|].
  exact (getStreamsByMetadata_without_criteria cfg0 2 (GameOne "g1") w_metadata []
           w' H).
Defined.

Lemma getStreamsByMetadata_fetches_twice_witness :
  let g := GameOne "g1" in
  let p1 := {| p_data := [viewers 10 (stream "1" "10" "Any% run" ["tag-x"]);
                          stream "2" "20" "chill" ["tag-x"]];
               p_cursor := VUndefined |} in
  let p2 := {| p_data := [viewers 11 (stream "1" "10" "Any% run" ["tag-x"]);
                          stream "3" "30" "ANY% practice" []];
               p_cursor := VStr "more" |} in
  let w := start (VStr "tok") [page_reply p1; page_reply p2] in
  ∃ l, mergeStreams (p_data p1) (p_data p2) = Some l
       ∧ getStreamsByMetadata cfg0 1 g ["tag-x"] ["any%"] w
         = Some (Fulfilled (VArr l),
                 fetched cfg0 [page_request (Streams g) VUndefined;
                               page_request (Streams g) VUndefined] [] w).
Proof.
  intros g p1 p2 w.
  apply (getStreamsByMetadata_fetches_twice cfg0 g ["tag-x"] ["any%"] p1 p2 [] w
           (p_data p1) (p_data p2) 1).
  - reflexivity.
  - reflexivity.
  - reflexivity.
  - vm_compute. reflexivity.
  - vm_compute. reflexivity.
  - lia.
Defined.

Lemma mergeStreams_keeps_distinct_witness :
  mergeStreams [stream "1" "10" "Any% run" ["tag-x"]; stream "2" "20" "chill" ["tag-x"]]
               [stream "3" "30" "ANY% practice" []]
  = Some [stream "1" "10" "Any% run" ["tag-x"]; stream "2" "20" "chill" ["tag-x"];
          stream "3" "30" "ANY% practice" []].
Proof.
  apply (mergeStreams_keeps_distinct
           [stream "1" "10" "Any% run" ["tag-x"]; stream "2" "20" "chill" ["tag-x"]]
           [stream "3" "30" "ANY% practice" []]).
  - repeat constructor; eexists; reflexivity.
  - simpl. repeat split; intros y Hy;
      repeat (apply elem_of_cons in Hy as [->|Hy]; [reflexivity|]); inversion Hy.
Defined.

End Concrete.

End ListingCoverage.

(** * Further properties of the stream lifecycle *)

Module StreamCoverage.

Import Stream StreamScenario Coverage StreamProofs.

(** ** [convertToDStream] *)

Lemma convert_id (s : obj) : convertToDStream s !! "id" = None.
Proof.
  unfold convertToDStream. rewrite !lookup_insert_ne by discriminate.
  apply lookup_delete_eq.
Qed.

Lemma convert_stream_id (s : obj) :
  convertToDStream s !! "stream_id" = Some (prop s "id").
Proof.
  unfold convertToDStream. rewrite lookup_insert_ne by discriminate.
  apply lookup_insert_eq.
Qed.

Lemma convert_defaulted (s : obj) k :
  k = "isLive" ∨ k = "lastShoutOut" ∨ k = "offline_since" →
  convertToDStream s !! k = Some (or_null (prop s k)).
Proof.
  unfold convertToDStream. intros [-> | [-> | ->]].
  - rewrite !lookup_insert_ne by discriminate. apply lookup_insert_eq.
  - rewrite !lookup_insert_ne by discriminate. apply lookup_insert_eq.
  - apply lookup_insert_eq.
Qed.

Lemma convert_other (s : obj) k :
  k ≠ "id" → k ≠ "isLive" → k ≠ "lastShoutOut" → k ≠ "stream_id" →
  k ≠ "offline_since" →
  convertToDStream s !! k = s !! k.
Proof.
  intros. unfold convertToDStream. rewrite !lookup_insert_ne by congruence.
  by rewrite lookup_delete_ne by congruence.
Qed.

Lemma or_null_defined v : or_null v ≠ VUndefined.
Proof. destruct v; discriminate. Qed.

Lemma or_null_idem v : or_null (or_null v) = or_null v.
Proof. destruct v; reflexivity. Qed.

(** X19.  The row [convertToDStream] makes of a stream: [id] is gone and its
    value is under [stream_id]; [isLive], [lastShoutOut] and
    [offline_since] are always there, [null] where the stream had
    nothing, and never [undefined]; every other property is as the
    stream had it. *)
Theorem convertToDStream_row (s : obj) :
  let row := convertToDStream s in
  row !! "id" = None
  ∧ row !! "stream_id" = Some (prop s "id")
  ∧ (∀ k, k = "isLive" ∨ k = "lastShoutOut" ∨ k = "offline_since" →
          row !! k = Some (or_null (prop s k)) ∧ prop row k ≠ VUndefined
          ∧ (nullish (prop s k) = false → prop row k = prop s k))
  ∧ (∀ k, k ≠ "id" → k ≠ "isLive" → k ≠ "lastShoutOut" → k ≠ "stream_id" →
          k ≠ "offline_since" → row !! k = s !! k).
Proof.
  cbv zeta. split; [apply convert_id|]. split; [apply convert_stream_id|].
  split.
  - intros k Hk.
    assert (prop (convertToDStream s) k = or_null (prop s k)) as Hp.
    { unfold prop at 1. by rewrite (convert_defaulted s k Hk). }
    rewrite Hp. split; [apply convert_defaulted, Hk|].
    split; [apply or_null_defined|]. unfold or_null. by intros ->.
  - apply convert_other.
Qed.

(** X20.  Converting a row that was converted before throws its [stream_id]
    away: the row has no [id] any more, so [stream_id] becomes
    [undefined]; nothing else changes. *)
Theorem convertToDStream_twice (s : obj) :
  convertToDStream (convertToDStream s)
  = <["stream_id" := VUndefined]> (convertToDStream s).
Proof.
  apply map_eq. intros k.
  destruct (decide (k = "stream_id")) as [->|Hsid].
  { rewrite convert_stream_id, lookup_insert_eq. unfold prop.
    by rewrite convert_id. }
  rewrite lookup_insert_ne by congruence.
  destruct (decide (k = "id")) as [->|Hid]; [by rewrite !convert_id|].
  assert (∀ k', k' = "isLive" ∨ k' = "lastShoutOut" ∨ k' = "offline_since" →
            convertToDStream (convertToDStream s) !! k' = convertToDStream s !! k')
    as Hdef.
  { intros k' Hk'. rewrite !convert_defaulted by exact Hk'. unfold prop at 1.
    rewrite convert_defaulted by exact Hk'. simpl. by rewrite or_null_idem. }
  destruct (decide (k = "isLive")) as [->|H1]; [apply Hdef; auto|].
  destruct (decide (k = "lastShoutOut")) as [->|H2]; [apply Hdef; auto|].
  destruct (decide (k = "offline_since")) as [->|H3]; [apply Hdef; auto|].
  by rewrite !convert_other.
Qed.

(** ** The lifecycle *)

Section Lifecycle.

Context {engine : Engine}.
Variable cfg : config.
Variable newStreamAlert : obj → bool.
Variable clock : nat → Z.
Variable dH dM : Z → value → num.

Implicit Types (stream rec upd m : obj) (w : world).

(** [alertStream] has two outcomes: it rejects and touches nothing, or
    it hands the stream to the notifier, once, and settles as the
    notifier does. *)
Lemma alertStream_outcomes m w :
  alertStream cfg newStreamAlert m w = (false, w)
  ∨ alertStream cfg newStreamAlert m w = (newStreamAlert m, notify m w).
Proof.
  unfold alertStream. destruct (prop m "title"); auto.
  destruct (keyword_hit cfg s); auto.
  destruct (tag_hit cfg (prop m "tag_ids")) as [[]|]; auto.
  destruct (user_hit cfg (prop m "user_id")); auto.
Qed.

(** What [try_alert] leaves: the stream as it was and no call, a call
    that did not deliver, or a call that delivered and the time after
    it. *)
Lemma try_alert_outcomes m w :
  try_alert cfg newStreamAlert clock m w = (m, w)
  ∨ (newStreamAlert m = false
     ∧ try_alert cfg newStreamAlert clock m w = (m, notify m w))
  ∨ (newStreamAlert m = true
     ∧ try_alert cfg newStreamAlert clock m w
       = (<["lastShoutOut" := VDate (clock (reads w))]> m,
          snd (new_Date clock (notify m w)))).
Proof.
  unfold try_alert.
  destruct (alertStream_outcomes m w) as [-> | ->]; [by left|].
  destruct (newStreamAlert m) eqn:Hn; [right; right|right; left]; auto.
Qed.

Lemma fresh_set stream :
  prop (fresh stream) "isLive" = VBool true
  ∧ prop (fresh stream) "lastShoutOut" = VNull
  ∧ prop (fresh stream) "offline_since" = VNull.
Proof.
  unfold fresh, prop. repeat split.
  - rewrite !lookup_insert_ne by discriminate. by rewrite lookup_insert_eq.
  - rewrite lookup_insert_ne by discriminate. by rewrite lookup_insert_eq.
  - by rewrite lookup_insert_eq.
Qed.

(** X21.  Whatever the stream and whatever the notifier does, [addNew] makes
    one insert and one subscription.  The row is live, has no
    [offline_since], has the stream's [id] under [stream_id] and no
    [id].  The notifier is called at most once, with the stream as
    completed at line 161, and [lastShoutOut] is the time read after the
    call when it delivered, [null] otherwise. *)
Theorem addNew_always_persists stream w :
  let new := addNew cfg newStreamAlert clock stream w in
  ∃ row,
    writes new = (writes w ++ [Insert row])%list
    ∧ subscribed cfg (prop stream "user_id") w new
    ∧ row !! "id" = None
    ∧ prop row "stream_id" = prop stream "id"
    ∧ prop row "isLive" = VBool true
    ∧ prop row "offline_since" = VNull
    ∧ ((alerts new = alerts w ∧ reads new = reads w
        ∧ prop row "lastShoutOut" = VNull)
       ∨ (alerts new = (alerts w ++ [fresh stream])%list
          ∧ newStreamAlert (fresh stream) = false ∧ reads new = reads w
          ∧ prop row "lastShoutOut" = VNull)
       ∨ (alerts new = (alerts w ++ [fresh stream])%list
          ∧ newStreamAlert (fresh stream) = true ∧ reads new = S (reads w)
          ∧ prop row "lastShoutOut" = VDate (clock (reads w)))).
Proof.
  cbv zeta. unfold addNew.
  assert (∀ m, (∀ k, k ≠ "lastShoutOut" → prop m k = prop (fresh stream) k) →
               convertToDStream m !! "id" = None
               ∧ prop (convertToDStream m) "stream_id" = prop stream "id"
               ∧ prop (convertToDStream m) "isLive" = VBool true
               ∧ prop (convertToDStream m) "offline_since" = VNull
               ∧ prop m "user_id" = prop stream "user_id") as Hrow.
  { intros m Hm. pose proof (fresh_set stream) as (Hl & _ & Ho).
    split; [apply convert_id|]. split; [|split; [|split]].
    - unfold prop at 1. rewrite convert_stream_id. simpl.
      rewrite Hm by discriminate. by apply fresh_prop.
    - unfold prop at 1. rewrite convert_defaulted by auto. simpl.
      rewrite Hm by discriminate. by rewrite Hl.
    - unfold prop at 1. rewrite convert_defaulted by auto. simpl.
      rewrite Hm by discriminate. by rewrite Ho.
    - rewrite Hm by discriminate. by apply fresh_prop. }
  assert (∀ t k, k ≠ "lastShoutOut" →
            prop (<["lastShoutOut" := t]> (fresh stream)) k = prop (fresh stream) k)
    as Hset by (intros; by apply lastShoutOut_set).
  destruct (try_alert_outcomes (fresh stream) w) as [-> | [[Hn ->] | [Hn ->]]].
  - destruct (Hrow (fresh stream)) as (H1 & H2 & H3 & H4 & H5); [auto|].
    eexists. split; [reflexivity|]. unfold subscribed. cbn. rewrite H5.
    repeat split; try assumption. left. repeat split.
    unfold prop at 1. rewrite convert_defaulted by auto. simpl.
    by pose proof (fresh_set stream) as (_ & -> & _).
  - destruct (Hrow (fresh stream)) as (H1 & H2 & H3 & H4 & H5); [auto|].
    eexists. split; [reflexivity|]. unfold subscribed. cbn. rewrite H5.
    repeat split; try assumption. right; left. repeat split; [assumption|].
    unfold prop at 1. rewrite convert_defaulted by auto. simpl.
    by pose proof (fresh_set stream) as (_ & -> & _).
  - destruct (Hrow (<["lastShoutOut" := VDate (clock (reads w))]> (fresh stream)))
      as (H1 & H2 & H3 & H4 & H5); [apply Hset|].
    eexists. split; [reflexivity|]. unfold subscribed. cbn. rewrite H5.
    repeat split; try assumption. right; right. repeat split; [assumption|].
    unfold prop at 1. rewrite convert_defaulted by auto.
    simpl. unfold prop. by rewrite lookup_insert_eq.
Qed.

(** X22.  Whatever the record, the observation, the thresholds and the
    notifier, [goneLive] makes one update, keyed by the channel id of
    the merged row, and one subscription.  The row written is the merged
    row: live, with [offline_since] as the record had it, and with
    [lastShoutOut] as the record had it unless the notifier was called
    and delivered, in which case it is the time read after the call.
    The notifier is called at most once, with the merged row. *)
Theorem goneLive_always_persists rec upd w :
  let m := merged rec upd in
  let live := goneLive cfg newStreamAlert clock dH dM rec upd w in
  ∃ row,
    writes live = (writes w ++ [Update row (prop m "user_id")])%list
    ∧ subscribed cfg (prop m "user_id") w live
    ∧ (∀ k, k ≠ "lastShoutOut" → row !! k = m !! k)
    ∧ prop row "isLive" = VBool true
    ∧ prop row "offline_since" = prop rec "offline_since"
    ∧ ((alerts live = alerts w ∧ row = m)
       ∨ (alerts live = (alerts w ++ [m])%list
          ∧ newStreamAlert m = false ∧ row = m)
       ∨ (alerts live = (alerts w ++ [m])%list
          ∧ newStreamAlert m = true
          ∧ row = <["lastShoutOut" := VDate (clock (reads (timed rec w)))]> m
          ∧ reads live = S (reads (timed rec w)))).
Proof.
  cbv zeta. rewrite goneLive_cases. cbv zeta.
  set (m := merged rec upd). set (w1 := timed rec w).
  assert (∃ row w2,
            (if reconnect_blip cfg (offlineSinceMinutes clock dM rec w)
             then update m None (subscribeToStream cfg m w1)
             else if already_shouted cfg (lastShoutOutAgeHours clock dH rec w) m
             then update m None (subscribeToStream cfg m w1)
             else let '(m', w2) := try_alert cfg newStreamAlert clock m w1 in
                  update m' None (subscribeToStream cfg m' w2))
            = update row None (subscribeToStream cfg row w2)
            ∧ ((row, w2) = (m, w1)
               ∨ (newStreamAlert m = false ∧ (row, w2) = (m, notify m w1))
               ∨ (newStreamAlert m = true
                  ∧ (row, w2) = (<["lastShoutOut" := VDate (clock (reads w1))]> m,
                                 snd (new_Date clock (notify m w1))))))
    as (row & w2 & -> & Hout).
  { destruct (reconnect_blip cfg _); [exists m, w1; auto|].
    destruct (already_shouted cfg _ m); [exists m, w1; auto|].
    destruct (try_alert_outcomes m w1) as [-> | [[Hn ->] | [Hn ->]]];
      eexists _, _; (split; [reflexivity|]); auto. }
  exists row.
  pose proof (merged_isLive rec upd) as Hlive.
  pose proof (merged_offline_since rec upd) as Hoff.
  fold m in Hlive, Hoff.
  destruct Hout as [[= -> ->] | [[Hn [= -> ->]] | [Hn [= -> ->]]]].
  - repeat split; try assumption. left. auto.
  - repeat split; try assumption. right; left. auto.
  - split; [cbn; by rewrite lastShoutOut_set by discriminate|].
    split; [unfold subscribed; cbn; by rewrite lastShoutOut_set by discriminate|].
    split; [intros k Hk; by rewrite lookup_insert_ne by congruence|].
    split; [by rewrite lastShoutOut_set by discriminate|].
    split; [by rewrite lastShoutOut_set by discriminate|].
    right; right. auto.
Qed.

(** X23.  When the last alert is not known ([NaN] hours), lies in the future,
    or is at least [shoutout_hours] old, and the channel is not inside
    the reconnect window (it was not seen offline, or the minutes since
    then are not a number, or at least [reconnect_minutes]), a stream
    that passes the blacklist is handed to the notifier, whitelisted or
    not; [lastShoutOut] becomes the time read after a delivered alert
    and stays as it was otherwise. *)
Theorem goneLive_alerts_when_due rec upd w :
  match offlineSinceMinutes clock dM rec w with
  | Some (Int m) => reconnect_minutes cfg ≤ m
  | _ => True
  end →
  (lastShoutOutAgeHours clock dH rec w = NaN
   ∨ ∃ h, lastShoutOutAgeHours clock dH rec w = Int h
          ∧ (h < 0 ∨ shoutout_hours cfg ≤ h)) →
  passes_blacklist cfg (merged rec upd) →
  let m := merged rec upd in
  let live := goneLive cfg newStreamAlert clock dH dM rec upd w in
  alerts live = (alerts w ++ [m])%list
  ∧ writes live
    = (writes w
       ++ [Update (if newStreamAlert m
                   then <["lastShoutOut" := VDate (clock (reads (timed rec w)))]> m
                   else m)
                  (prop m "user_id")])%list.
Proof.
  intros Hwin Hdue Hpass.
  apply goneLive_alerted; [by apply outside_reconnect_window| |exact Hpass].
  unfold already_shouted.
  destruct Hdue as [-> | (h & -> & [Hneg | Hold])]; [reflexivity| |].
  - replace (0 <=? h) with false; [reflexivity|]. symmetry. by apply Z.leb_gt.
  - replace (h <? shoutout_hours cfg) with false;
      [by rewrite andb_false_r|]. symmetry. by apply Z.ltb_ge.
Qed.

(** X24.  The blacklist sees its keywords only through
    [toLocaleLowerCase]: with other keywords that have the same
    lower-cased text, in the same order, [alertStream] does the same on
    every stream.  So the case of the letters of a blacklisted keyword
    matters exactly as far as it does to that mapping on the host. *)
Theorem alertStream_compares_lowered_keywords kws stream w :
  toLocaleLowerCase <$> kws = toLocaleLowerCase <$> bl_keywords (blacklist cfg) →
  alertStream (with_keywords kws cfg) newStreamAlert stream w
  = alertStream cfg newStreamAlert stream w.
Proof.
  intros Hk. unfold alertStream. destruct (prop stream "title"); try reflexivity.
  replace (keyword_hit (with_keywords kws cfg) s) with (keyword_hit cfg s);
    [reflexivity|].
  unfold keyword_hit. f_equal. cbn [with_keywords blacklist bl_keywords].
  rewrite (ListingProofs.existsb_fmap toLocaleLowerCase (includes (toLowerCase s)) kws),
          (ListingProofs.existsb_fmap toLocaleLowerCase (includes (toLowerCase s))
             (bl_keywords (blacklist cfg))).
  by rewrite Hk.
Qed.

(** Both transitions leave the Twitch client as it was, but for the
    subscription they detach. *)
Lemma lifecycle_api rec upd stream w :
  api (addNew cfg newStreamAlert clock stream w)
  = Twitch.detach
      (Twitch.Call (Twitch.webhook_request cfg (prop stream "user_id") "subscribe") 1)
      (api w)
  ∧ api (goneLive cfg newStreamAlert clock dH dM rec upd w)
    = Twitch.detach
        (Twitch.Call (Twitch.webhook_request cfg (prop (merged rec upd) "user_id")
                                             "subscribe") 1)
        (api w).
Proof.
  split.
  - unfold addNew.
    destruct (try_alert_outcomes (fresh stream) w) as [-> | [[Hn ->] | [Hn ->]]];
      cbn; rewrite ?lastShoutOut_set by discriminate;
      by rewrite fresh_prop by discriminate.
  - rewrite goneLive_cases. cbv zeta.
    destruct (reconnect_blip cfg _); [reflexivity|].
    destruct (already_shouted cfg _ _); [reflexivity|].
    destruct (try_alert_outcomes (merged rec upd) (timed rec w))
      as [-> | [[Hn ->] | [Hn ->]]];
      cbn; by rewrite ?lastShoutOut_set by discriminate.
Qed.

(** X26.  The subscription that [addNew] and [goneLive] start is, once the
    event loop gets to it, a [POST] to the hub with a JSON body that
    asks to [subscribe], for a day, with a callback and a topic made of
    the channel id as text (so ['undefined'] for a stream without
    [user_id]).  Nothing else is requested in that turn but, where the
    rejection handler of the call runs, the token request of the
    handler. *)
Theorem subscription_is_posted rec upd stream w :
  Twitch.exited (api w) = false →
  Twitch.detached (api w) = [] →
  let posted (uid : value) (after : world) :=
    ∃ s later body,
      Twitch.sent (Twitch.step cfg (api after))
      = (Twitch.sent (api w) ++ s :: later)%list
      ∧ (later = [] ∨ later = [Twitch.wire cfg (Twitch.token_request cfg)])
      ∧ Twitch.s_url s = Twitch.URL_BASE ++ "/webhooks/hub"
      ∧ Twitch.s_method s = "post"
      ∧ Twitch.s_query s = None ∧ Twitch.s_body s = Some body
      ∧ body !! "hub.mode" = Some (VStr "subscribe")
      ∧ body !! "hub.callback"
        = Some (VStr (domain cfg ++ "/streamUpdate/" ++ to_str uid))
      ∧ body !! "hub.topic"
        = Some (VStr (Twitch.URL_BASE ++ "/streams?user_id=" ++ to_str uid))
      ∧ body !! "hub.lease_seconds" = Some (VNum 86400) in
  posted (prop stream "user_id") (addNew cfg newStreamAlert clock stream w)
  ∧ posted (prop (merged rec upd) "user_id")
           (goneLive cfg newStreamAlert clock dH dM rec upd w).
Proof.
  intros He Hd posted. subst posted. cbv beta.
  destruct (lifecycle_api rec upd stream w) as [-> ->].
  split;
    match goal with
    | |- context [Twitch.step cfg (Twitch.detach (Twitch.Call ?req ?n) (api w))] =>
      destruct (TwitchProofs.detached_call_sends cfg req n []
                  (Twitch.detach (Twitch.Call req n) (api w)))
        as (later & Hs & Hl); [exact He|cbn; by rewrite Hd|]
    end;
    eexists _, later, _; (split; [exact Hs|]); (split; [exact Hl|]);
    repeat split.
Qed.

End Lifecycle.

(** ** The store *)

(** X25.  The key of an update comes from the update argument when that has a
    [user_id], from the row otherwise: with an update argument of
    another channel, the row of the first argument, its own [user_id]
    included, is written over that other channel's record. *)
Theorem update_key_comes_from_update_argument (stream u : obj) (w : world) v :
  u !! "user_id" = Some v →
  writes (update stream (Some u) w) = (writes w ++ [Update stream v])%list
  ∧ writes (update stream (Some (delete "user_id" u)) w)
    = (writes w ++ [Update stream (prop stream "user_id")])%list
  ∧ writes (update stream None w)
    = (writes w ++ [Update stream (prop stream "user_id")])%list.
Proof.
  intros Hu. unfold update, spread, prop. cbn. repeat split.
  - erewrite lookup_union_Some_l; [reflexivity|].
    by rewrite convert_other by discriminate.
  - rewrite lookup_union_r; [reflexivity|].
    rewrite convert_other by discriminate. apply lookup_delete_eq.
Qed.

(** ** The theorems at concrete inputs *)

Section Concrete.

Import Scenario.

#[local] Existing Instance ascii_engine.

(** An observation that says it is live. *)
Lemma convertToDStream_row_witness :
  let s : obj := <["isLive" := VBool true]> (observed "10" "Any% run" []) in
  let row := convertToDStream s in
  row !! "id" = None
  ∧ row !! "stream_id" = Some (VStr "s2")
  ∧ prop row "isLive" = VBool true
  ∧ prop row "offline_since" ≠ VUndefined
  ∧ row !! "title" = Some (VStr "Any% run").
Proof.
  intros s.
  destruct (convertToDStream_row s) as (H1 & H2 & H3 & H4).
  split; [exact H1|]. split; [exact H2|].
  split; [apply (H3 "isLive"); [auto|reflexivity]|].
  split; [apply (H3 "offline_since"); auto|].
  rewrite (H4 "title") by discriminate. reflexivity.
Defined.

(** A known channel alerted 30 hours ago, seen live again. *)
Lemma goneLive_always_persists_witness :
  let rec := known (VDate (t0 - hours 30)) VNull in
  let upd := observed "10" "Any% run" [] in
  let m := merged rec upd in
  let live := goneLive cfg0 delivers clock0 differenceInHours differenceInMinutes
                       rec upd w0 in
  ∃ row,
    writes live = (writes w0 ++ [Update row (prop m "user_id")])%list
    ∧ subscribed cfg0 (prop m "user_id") w0 live
    ∧ row !! "title" = m !! "title"
    ∧ prop row "isLive" = VBool true
    ∧ prop row "offline_since" = prop rec "offline_since"
    ∧ ((alerts live = alerts w0 ∧ row = m)
       ∨ (alerts live = (alerts w0 ++ [m])%list
          ∧ delivers m = false ∧ row = m)
       ∨ (alerts live = (alerts w0 ++ [m])%list
          ∧ delivers m = true
          ∧ row = <["lastShoutOut" := VDate (clock0 (reads (timed rec w0)))]> m
          ∧ reads live = S (reads (timed rec w0)))).
Proof.
  intros rec upd.
  destruct (goneLive_always_persists cfg0 delivers clock0 differenceInHours
              differenceInMinutes rec upd w0) as (row & H1 & H2 & H3 & H4).
  exists row. split; [exact H1|]. split; [exact H2|].
  split; [apply H3; discriminate|exact H4].
Defined.

(** A known channel that was never alerted. *)
Lemma goneLive_alerts_when_due_witness :
  let rec := known VNull VNull in
  let upd := observed "10" "Any% run" [] in
  let m := merged rec upd in
  let live := goneLive cfg0 delivers clock0 differenceInHours differenceInMinutes
                       rec upd w0 in
  alerts live = (alerts w0 ++ [m])%list
  ∧ writes live
    = (writes w0
       ++ [Update (if delivers m
                   then <["lastShoutOut" := VDate (clock0 (reads (timed rec w0)))]> m
                   else m)
                  (prop m "user_id")])%list.
Proof.
  intros rec upd.
  apply (goneLive_alerts_when_due cfg0 delivers clock0 differenceInHours
           differenceInMinutes rec upd w0).
  - exact I.
  - left. reflexivity.
  - split; [|split].
    + exists "Any% run". split; [reflexivity|]. right. intros kw Hkw.
      apply list_elem_of_In in Hkw. vm_compute in Hkw.
      repeat (destruct Hkw as [<-|Hkw]; [reflexivity|]). destruct Hkw.
    + right. exists []. split; [reflexivity|]. intros tag _ Hin. inversion Hin.
    + intros u Hu. right. injection Hu as <-. intros Hin.
      apply list_elem_of_In in Hin. vm_compute in Hin.
      repeat (destruct Hin as [Hin|Hin]; [discriminate|]). destruct Hin.
Defined.

(** The blacklisted keyword in capitals, and a title that contains it. *)
Lemma alertStream_compares_lowered_keywords_witness :
  let stream := observed "10" "Spoilers ahead" [] in
  alertStream (with_keywords ["SPOILER"] cfg0) delivers stream w0
  = alertStream cfg0 delivers stream w0
  ∧ alertStream cfg0 delivers stream w0 = (false, w0).
Proof.
  intros stream. split; [|reflexivity].
  apply (alertStream_compares_lowered_keywords cfg0 delivers ["SPOILER"] stream w0).
  reflexivity.
Defined.

(** The record of channel 10 and an observation of channel 99. *)
Lemma update_key_comes_from_update_argument_witness :
  let stream := known VNull VNull in
  let u := observed "99" "Any% run" [] in
  writes (update stream (Some u) w0) = (writes w0 ++ [Update stream (VStr "99")])%list
  ∧ writes (update stream (Some (delete "user_id" u)) w0)
    = (writes w0 ++ [Update stream (prop stream "user_id")])%list
  ∧ writes (update stream None w0)
    = (writes w0 ++ [Update stream (prop stream "user_id")])%list.
Proof.
  intros stream u.
  apply (update_key_comes_from_update_argument stream u w0 (VStr "99")).
  vm_compute. reflexivity.
Defined.

(** A new channel 10 and a known channel 10. *)
Lemma subscription_is_posted_witness :
  let rec := known VNull VNull in
  let upd := observed "10" "Any% run" [] in
  let posted (uid : value) (after : world) :=
    ∃ s later body,
      Twitch.sent (Twitch.step cfg0 (api after))
      = (Twitch.sent (api w0) ++ s :: later)%list
      ∧ (later = [] ∨ later = [Twitch.wire cfg0 (Twitch.token_request cfg0)])
      ∧ Twitch.s_url s = Twitch.URL_BASE ++ "/webhooks/hub"
      ∧ Twitch.s_method s = "post"
      ∧ Twitch.s_query s = None ∧ Twitch.s_body s = Some body
      ∧ body !! "hub.mode" = Some (VStr "subscribe")
      ∧ body !! "hub.callback"
        = Some (VStr (domain cfg0 ++ "/streamUpdate/" ++ to_str uid))
      ∧ body !! "hub.topic"
        = Some (VStr (Twitch.URL_BASE ++ "/streams?user_id=" ++ to_str uid))
      ∧ body !! "hub.lease_seconds" = Some (VNum 86400) in
  posted (prop upd "user_id") (addNew cfg0 delivers clock0 upd w0)
  ∧ posted (prop (merged rec upd) "user_id")
           (goneLive cfg0 delivers clock0 differenceInHours differenceInMinutes
                     rec upd w0).
Proof.
  intros rec upd.
  apply (subscription_is_posted cfg0 delivers clock0 differenceInHours
           differenceInMinutes rec upd upd w0); reflexivity.
Defined.

End Concrete.

End StreamCoverage.
